(** * Topaz: TCG Opal atom codec and drive session engine

    A shallow embedding of [topaz/atom.cpp] (the atom codec) and of
    [topaz/drive.cpp] (method invocation, ComPacket framing, receive
    polling, chunked binary table writes, revert), with the properties
    the specification states about them.

    Conventions.
    - A C++ [byte] is a [Z] in [0, 256); a [uint64_t] is a [Z] in
      [0, 2^64) with the wrap-around written out where the source can
      wrap.
    - A function that may [throw] returns an [outcome]; the message of
      the exception is kept.  The outcome [Undefined] stands for a run
      in which the source reads outside the object it was given: from
      there on the program text does not determine what happens.
    - A buffer [(data, len)] is a [list Z] whose length is [len]. *)

From Stdlib Require Import String ZArith List Bool Lia.
Import ListNotations.
Open Scope Z_scope.

(** ** Exceptions *)

Inductive outcome (A : Type) : Type :=
| Ok (a : A)
| Throw (msg : string)
| Undefined.
Arguments Ok {A} a.
Arguments Throw {A} msg.
Arguments Undefined {A}.

Definition bind {A B : Type} (m : outcome A) (k : A -> outcome B) : outcome B :=
  match m with
  | Ok a => k a
  | Throw msg => Throw msg
  | Undefined => Undefined
  end.

(** An outcome that the program text determines: a value or an
    exception. *)
Definition is_defined {A : Type} (r : outcome A) : bool :=
  match r with
  | Undefined => false
  | _ => true
  end.

Notation "x <- m ;; k" := (bind m (fun x => k))
  (at level 61, m at next level, right associativity).
Notation "' p <- m ;; k" := (bind m (fun x => match x with p => k end))
  (at level 61, p pattern, m at next level, right associativity).
Notation "m ;;; k" := (bind m (fun _ => k))
  (at level 61, right associativity).

(** ** Machine integers and byte order *)

Definition wrap8 (x : Z) : Z := x mod 2 ^ 8.
Definition wrap16 (x : Z) : Z := x mod 2 ^ 16.
Definition wrap32 (x : Z) : Z := x mod 2 ^ 32.
Definition wrap64 (x : Z) : Z := x mod 2 ^ 64.

Definition is_byte (b : Z) : bool := (0 <=? b) && (b <? 256).

(** [be_bytes n v]: the [n] low-order bytes of [v], most significant
    first.  [be_bytes 8 v] is the array [raw] of the source's
    [union { uint64_t flip; byte raw[8]; }] after [flip = htobe64(v)]. *)
Fixpoint be_bytes (n : nat) (v : Z) : list Z :=
  match n with
  | O => []
  | S k => be_bytes k (v / 256) ++ [v mod 256]
  end.

(** [be_to_Z raw]: the integer whose big-endian bytes are [raw];
    [be64toh(flip)] read back through the same union. *)
Definition be_to_Z (raw : list Z) : Z :=
  fold_left (fun acc b => acc * 256 + b) raw 0.

(** ** Atoms (topaz/atom.cpp) *)

Module Atom.

Inductive type_t : Type := EMPTY | UINT | INT | BYTES.
Inductive enc_t : Type := NONE | TINY | SHORT | MEDIUM | LONG.

Definition type_eqb (a b : type_t) : bool :=
  match a, b with
  | EMPTY, EMPTY | UINT, UINT | INT, INT | BYTES, BYTES => true
  | _, _ => false
  end.

Definition enc_eqb (a b : enc_t) : bool :=
  match a, b with
  | NONE, NONE | TINY, TINY | SHORT, SHORT | MEDIUM, MEDIUM | LONG, LONG => true
  | _, _ => false
  end.

(** The members of [class atom].  [uint_val] and [int_val] share storage
    in the source (the code says "Note: union type" where it writes one
    and reads the other), so one field holds the 64-bit pattern and
    [int_val] is its two's-complement reading. *)
Record atom : Type := mk_atom {
  data_type : type_t;
  data_enc  : enc_t;
  int_skip  : Z;
  uint_val  : Z;
  bytes     : list Z
}.

Definition int_val (a : atom) : Z :=
  if uint_val a <? 2 ^ 63 then uint_val a else uint_val a - 2 ^ 64.

Definition set_type (a : atom) (t : type_t) : atom :=
  mk_atom t (data_enc a) (int_skip a) (uint_val a) (bytes a).
Definition set_enc (a : atom) (e : enc_t) : atom :=
  mk_atom (data_type a) e (int_skip a) (uint_val a) (bytes a).
Definition set_skip (a : atom) (s : Z) : atom :=
  mk_atom (data_type a) (data_enc a) s (uint_val a) (bytes a).
Definition set_val (a : atom) (v : Z) : atom :=
  mk_atom (data_type a) (data_enc a) (int_skip a) v (bytes a).
Definition set_bytes (a : atom) (bs : list Z) : atom :=
  mk_atom (data_type a) (data_enc a) (int_skip a) (uint_val a) bs.

(** Modelled from the spec: the token constants of [topaz/atom.h], which
    is not among the sources.  Section 4.1 of the specification gives
    the header patterns: [0b0sxx_xxxx] tiny with bit 6 the sign flag,
    [0b10bs_llll] short, [0b110b_slll] medium, [0b1110_00bs] long and
    [0xFF] empty.  [decode_bytes] fixes the same values: it compares the
    first byte with [SHORT_TOK], [MEDIUM_TOK], [LONG_TOK] and reads the
    two flag bits at shifts 6, 4, 3 and 0. *)
Definition EMPTY_TOK   : Z := 0xff.
Definition TINY_TOK    : Z := 0x00.
Definition TINY_SIGN   : Z := 0x40.
Definition SHORT_TOK   : Z := 0x80.
Definition SHORT_BIN   : Z := 0x20.
Definition SHORT_SIGN  : Z := 0x10.
Definition MEDIUM_TOK  : Z := 0xc0.
Definition MEDIUM_BIN  : Z := 0x10.
Definition MEDIUM_SIGN : Z := 0x08.
Definition LONG_TOK    : Z := 0xe0.
Definition LONG_BIN    : Z := 0x02.
Definition LONG_SIGN   : Z := 0x01.

(** [atom::pick_encoding] *)
Definition pick_encoding (byte_count : Z) : outcome enc_t :=
  if byte_count <? 16 then Ok SHORT
  else if byte_count <? 2048 then Ok MEDIUM
  else if byte_count <? 16777216 then Ok LONG
  else Throw "Atom too large to encode".

(** The constructors run on freshly allocated storage [this]: a member
    that a constructor does not assign keeps whatever [this] holds
    (the vector [bytes] is default-constructed empty). *)

(** [atom::atom()] *)
Definition atom_default : atom := mk_atom EMPTY NONE 0 0 [].

(** The loop [for (int_skip = 0; (int_skip < 8) && (raw[int_skip] == 0x00);
    int_skip++) {}] of the unsigned constructor. *)
Fixpoint skip_zeroes (fuel : nat) (raw : list Z) (int_skip : Z) : Z :=
  match fuel with
  | O => int_skip
  | S k =>
      if (int_skip <? 8) && (nth (Z.to_nat int_skip) raw 0 =? 0x00)
      then skip_zeroes k raw (int_skip + 1)
      else int_skip
  end.

(** The two loops of the signed constructor: drop a leading [fill] byte
    ([0xff] or [0x00]) while the byte after it still carries the sign
    [sign] in its top bit.  [raw[int_skip + 1]] is read as written in
    the source. *)
Fixpoint skip_sign (fuel : nat) (raw : list Z) (fill sign : Z) (int_skip : Z) : Z :=
  match fuel with
  | O => int_skip
  | S k =>
      if (int_skip <? 8) && (nth (Z.to_nat int_skip) raw 0 =? fill)
         && (Z.land (nth (Z.to_nat (int_skip + 1)) raw 0) 0x80 =? sign)
      then skip_sign k raw fill sign (int_skip + 1)
      else int_skip
  end.

(** [atom::atom(uint64_t value, bool is_uid)] *)
Definition atom_uint (this : atom) (value : Z) (is_uid : bool) : outcome atom :=
  let this := set_bytes this [] in
  let this := set_type this UINT in
  let this := set_val this value in
  if is_uid then
    let this := set_type this BYTES in
    enc <- pick_encoding 8 ;;
    let this := set_enc this enc in
    Ok (set_bytes this (be_bytes 8 value))
  else if value <? 0x40 then
    Ok (set_skip (set_enc this TINY) 0)
  else
    let raw := be_bytes 8 value in
    Ok (set_enc (set_skip this (skip_zeroes 9 raw 0)) SHORT).

(** [atom::atom(int64_t value)]; [value] is the signed number and the
    stored pattern is [value] modulo [2^64]. *)
Definition atom_int (this : atom) (value : Z) : atom :=
  let this := set_bytes this [] in
  let this := set_type this INT in
  let this := set_val this (wrap64 value) in
  if (value <? 0x20) && (value >=? -0x20) then
    set_skip (set_enc this TINY) 0
  else
    let raw := be_bytes 8 (wrap64 value) in
    let skip :=
      if value <? 0 then skip_sign 9 raw 0xff 0x80 0
      else skip_sign 9 raw 0x00 0x00 0 in
    set_enc (set_skip this skip) SHORT.

(** [atom::atom(byte const *data, size_t len)] and
    [atom::atom(byte_vector data)] *)
Definition atom_bin (this : atom) (data : list Z) : outcome atom :=
  let this := set_type this BYTES in
  enc <- pick_encoding (Z.of_nat (length data)) ;;
  Ok (set_bytes (set_enc this enc) data).

(** The static factories of [atom.h] used by [drive.cpp]; they wrap the
    constructors above. *)
Definition new_uint (this : atom) (v : Z) : outcome atom := atom_uint this v false.
Definition new_uid (this : atom) (v : Z) : outcome atom := atom_uint this v true.
Definition new_int (this : atom) (v : Z) : atom := atom_int this v.
Definition new_bin (this : atom) (data : list Z) : outcome atom := atom_bin this data.

(** [atom::operator==] *)
Definition atom_eq (a ref : atom) : bool :=
  if type_eqb (data_type a) (data_type ref) && enc_eqb (data_enc a) (data_enc ref) then
    match data_type a with
    | UINT | INT => uint_val a =? uint_val ref
    | BYTES =>
        if (length (bytes a) =? length (bytes ref))%nat
        then forallb (fun p => fst p =? snd p) (combine (bytes a) (bytes ref))
        else false
    | EMPTY => true
    end
  else false.

(** [atom::get_header_size] *)
Definition get_header_size (a : atom) : Z :=
  match data_enc a with
  | NONE | TINY => 0
  | SHORT => 1
  | MEDIUM => 2
  | LONG => 4
  end.

(** [atom::size] *)
Definition size (a : atom) : Z :=
  match data_type a, data_enc a with
  | EMPTY, _ | _, TINY => 1
  | BYTES, _ => get_header_size a + Z.of_nat (length (bytes a))
  | _, _ => get_header_size a + (8 - int_skip a)
  end.

(** [atom::encode_bytes]: the bytes written to [data] and the returned
    count.  [len] and [enc_data] are the locals of the source; a header
    byte receives [|= len] through a [byte] lvalue, hence [wrap8].
    [memcpy(data + i, enc_data, len)] copies [len] bytes starting at
    [raw + int_skip] (or at [bytes[0]]). *)
Definition encode_bytes (a : atom) : list Z * Z :=
  match data_type a with
  | EMPTY => ([EMPTY_TOK], 1)
  | _ =>
      let '(len, enc_data) :=
        match data_type a with
        | UINT | INT =>
            let len := 8 - int_skip a in
            let raw := be_bytes 8 (uint_val a) in
            (len, firstn (Z.to_nat len) (skipn (Z.to_nat (int_skip a)) raw))
        | _ => (Z.of_nat (length (bytes a)), bytes a)
        end in
      let bin (flag : Z) := match data_type a with BYTES => flag | _ => 0 end in
      let sign (flag : Z) := match data_type a with INT => flag | _ => 0 end in
      match data_enc a with
      | TINY =>
          let b := TINY_TOK in
          let b := Z.lor b (sign TINY_SIGN) in
          let b := wrap8 (Z.lor b (Z.land 0x3f (uint_val a))) in
          ([b], 1)
      | SHORT =>
          let b := Z.lor (Z.lor SHORT_TOK (bin SHORT_BIN)) (sign SHORT_SIGN) in
          let b := wrap8 (Z.lor b len) in
          (b :: enc_data, 1 + len)
      | MEDIUM =>
          let b := Z.lor (Z.lor MEDIUM_TOK (bin MEDIUM_BIN)) (sign MEDIUM_SIGN) in
          let b := wrap8 (Z.lor b (Z.shiftr len 8)) in
          (b :: Z.land 0xff len :: enc_data, 2 + len)
      | _ =>
          let b := Z.lor (Z.lor LONG_TOK (bin LONG_BIN)) (sign LONG_SIGN) in
          (b :: Z.land 0xff (Z.shiftr len 16)
             :: Z.land 0xff (Z.shiftr len 8)
             :: Z.land 0xff len :: enc_data, 4 + len)
      end
  end.

(** [atom::decode_check_size] *)
Definition decode_check_size (len min : Z) : outcome unit :=
  if len <? min then Throw "Atom encoding too short" else Ok tt.

(** [atom::decode_set_type] *)
Definition decode_set_type (this : atom) (bits : Z) : outcome atom :=
  if bits =? 0 then Ok (set_type this UINT)
  else if bits =? 1 then Ok (set_type this INT)
  else if bits =? 2 then Ok (set_type this BYTES)
  else Throw "Invalid / Unhandled atom type".

(** [atom::decode_int] *)
Definition decode_int (this : atom) (data : list Z) (len : Z) : outcome atom :=
  if (len =? 0) || (len >? 8) then Throw "Invalid integer Atom length"
  else
    let this := set_skip this (8 - len) in
    let fill :=
      match data_type this with
      | INT => if Z.land (nth 0 data 0) 0x80 =? 0 then 0x00 else 0xff
      | _ => 0x00
      end in
    let raw := repeat fill (Z.to_nat (int_skip this)) ++ firstn (Z.to_nat len) data in
    Ok (set_val this (be_to_Z raw)).

(** The header part of [atom::decode_bytes] for the short, medium and
    long forms: the atom with its encoding and type set, [head_bytes]
    and [count]. *)
Definition decode_header (this : atom) (data : list Z) : outcome (atom * Z * Z) :=
  let len := Z.of_nat (length data) in
  let d0 := nth 0 data 0 in
  if d0 <? MEDIUM_TOK then
    let this := set_enc this SHORT in
    this <- decode_set_type this (Z.land 0x03 (Z.shiftr d0 4)) ;;
    Ok (this, 1, Z.land d0 0x0f)
  else if d0 <? LONG_TOK then
    let this := set_enc this MEDIUM in
    decode_check_size len 2 ;;;
    this <- decode_set_type this (Z.land 0x03 (Z.shiftr d0 3)) ;;
    let count := Z.land 0x07 d0 in
    Ok (this, 2, Z.shiftl count 8 + nth 1 data 0)
  else if d0 <? 0xe4 then
    let this := set_enc this LONG in
    decode_check_size len 4 ;;;
    this <- decode_set_type this (Z.land 0x03 d0) ;;
    let count := nth 1 data 0 in
    let count := Z.shiftl count 8 + nth 2 data 0 in
    let count := Z.shiftl count 8 + nth 3 data 0 in
    Ok (this, 4, count)
  else Throw "Cannot parse atom (invalid token)".

(** [atom::decode_bytes]: the decoded atom and the number of bytes
    processed.  [this] is the object the member function runs on. *)
Definition decode_bytes (this : atom) (data : list Z) : outcome (atom * Z) :=
  let len := Z.of_nat (length data) in
  let d0 := nth 0 data 0 in
  decode_check_size len 1 ;;;
  if d0 =? EMPTY_TOK then
    Ok (set_enc (set_type this EMPTY) NONE, 1)
  else if d0 <? SHORT_TOK then
    let this := set_enc this TINY in
    this <- decode_set_type this (Z.land 0x03 (Z.shiftr d0 6)) ;;
    let v := Z.land 0x3f d0 in
    let v :=
      match data_type this with
      | INT => if Z.land d0 0x20 =? 0 then v else Z.lor v (2 ^ 64 - 0x40)
      | _ => v
      end in
    Ok (set_val this v, 1)
  else
    '(this, head_bytes, count) <- decode_header this data ;;
    decode_check_size len (head_bytes + count) ;;;
    match data_type this with
    | UINT | INT =>
        this <- decode_int this (skipn (Z.to_nat head_bytes) data) count ;;
        Ok (this, head_bytes + count)
    | BYTES =>
        Ok (set_bytes this (firstn (Z.to_nat count) (skipn (Z.to_nat head_bytes) data)),
            head_bytes + count)
    | EMPTY => Ok (this, head_bytes + count)
    end.

(** [atom::get_uid] *)
Definition get_uid (a : atom) : outcome Z :=
  match data_type a, data_enc a with
  | BYTES, SHORT =>
      if (length (bytes a) =? 8)%nat then Ok (be_to_Z (firstn 8 (bytes a)))
      else Throw "Invalid UID Atom"
  | _, _ => Throw "Invalid UID Atom"
  end.

(** [atom::get_uint] *)
Definition get_uint (a : atom) : outcome Z :=
  match data_type a with
  | UINT => Ok (uint_val a)
  | _ => Throw "Atom is not unsigned integer"
  end.

(** [atom::get_int] *)
Definition get_int (a : atom) : outcome Z :=
  match data_type a with
  | INT => Ok (int_val a)
  | _ => Throw "Atom is not signed integer"
  end.

(** [atom::get_bytes] *)
Definition get_bytes (a : atom) : outcome (list Z) :=
  match data_type a with
  | BYTES => Ok (bytes a)
  | _ => Throw "Atom is not binary data"
  end.

(** An atom is well formed when its value fits its encoding class:
    - [Empty] has no encoding;
    - an integer is [Tiny] with a 6-bit value (unsigned below 64, signed
      in [-32, 31]), or short, medium or long with [8 - int_skip]
      payload bytes, between 1 and 8, that hold the value (unsigned
      below [256^len], signed within [len] bytes of two's complement);
    - a byte string is short, medium or long, its length below the bound
      of its class (16, 2048, 2^24), and every element is a byte. *)
Definition wf_atom (a : atom) : bool :=
  match data_type a with
  | EMPTY => enc_eqb (data_enc a) NONE
  | UINT =>
      (0 <=? uint_val a) && (uint_val a <? 2 ^ 64) &&
      match data_enc a with
      | NONE => false
      | TINY => uint_val a <? 0x40
      | _ => (0 <=? int_skip a) && (int_skip a <=? 7)
             && (uint_val a <? 2 ^ (8 * (8 - int_skip a)))
      end
  | INT =>
      (0 <=? uint_val a) && (uint_val a <? 2 ^ 64) &&
      match data_enc a with
      | NONE => false
      | TINY => (-0x20 <=? int_val a) && (int_val a <? 0x20)
      | _ => (0 <=? int_skip a) && (int_skip a <=? 7)
             && (- 2 ^ (8 * (8 - int_skip a) - 1) <=? int_val a)
             && (int_val a <? 2 ^ (8 * (8 - int_skip a) - 1))
      end
  | BYTES =>
      forallb is_byte (bytes a) &&
      match data_enc a with
      | SHORT => Z.of_nat (length (bytes a)) <? 16
      | MEDIUM => Z.of_nat (length (bytes a)) <? 2048
      | LONG => Z.of_nat (length (bytes a)) <? 16777216
      | _ => false
      end
  end.

End Atom.

Import Atom.

(** ** Auxiliary definitions for the atom codec proofs *)

(** The header that [encode_bytes] writes for a payload of [len] bytes. *)
Definition bin_flag (ty : type_t) (flag : Z) : Z :=
  match ty with BYTES => flag | _ => 0 end.
Definition sign_flag (ty : type_t) (flag : Z) : Z :=
  match ty with INT => flag | _ => 0 end.

Definition header (ty : type_t) (enc : enc_t) (len : Z) : list Z :=
  match enc with
  | SHORT =>
      [wrap8 (Z.lor (Z.lor (Z.lor SHORT_TOK (bin_flag ty SHORT_BIN))
                           (sign_flag ty SHORT_SIGN)) len)]
  | MEDIUM =>
      [wrap8 (Z.lor (Z.lor (Z.lor MEDIUM_TOK (bin_flag ty MEDIUM_BIN))
                           (sign_flag ty MEDIUM_SIGN)) (Z.shiftr len 8));
       Z.land 0xff len]
  | _ =>
      [Z.lor (Z.lor LONG_TOK (bin_flag ty LONG_BIN)) (sign_flag ty LONG_SIGN);
       Z.land 0xff (Z.shiftr len 16);
       Z.land 0xff (Z.shiftr len 8);
       Z.land 0xff len]
  end.

Definition len_bound (enc : enc_t) : Z :=
  match enc with
  | SHORT => 16
  | MEDIUM => 2048
  | LONG => 16777216
  | _ => 0
  end.

(** Whether the [len]-byte two's-complement window holds the value. *)
Definition int_fits (ty : type_t) (n : nat) (uv : Z) : Prop :=
  match ty with
  | UINT => uv < 256 ^ Z.of_nat n
  | INT =>
      let sv := if uv <? 2 ^ 63 then uv else uv - 2 ^ 64 in
      - 256 ^ Z.of_nat n <= 2 * sv < 256 ^ Z.of_nat n
  | _ => False
  end.

Definition payload_len (a : atom) : Z :=
  match data_type a with
  | UINT | INT => 8 - int_skip a
  | _ => Z.of_nat (length (bytes a))
  end.

Definition payload (a : atom) : list Z :=
  match data_type a with
  | UINT | INT =>
      firstn (Z.to_nat (8 - int_skip a))
             (skipn (Z.to_nat (int_skip a)) (be_bytes 8 (uint_val a)))
  | _ => bytes a
  end.

(** The invariant of the two loops of the signed constructor: the
    pattern [uv] is the sign extension of its low [8 - j] bytes, where
    [fill] is the byte the loop drops and [sign] the top bit it keeps. *)
Definition sign_window (fill sign uv : Z) (j : nat) : Prop :=
  (fill = 0x00 /\ sign = 0x00 /\ 32 <= uv /\
   2 * uv < 256 * 256 ^ Z.of_nat (8 - 1 - j)) \/
  (fill = 0xff /\ sign = 0x80 /\ uv < 2 ^ 64 - 32 /\
   2 ^ 64 - 128 * 256 ^ Z.of_nat (8 - 1 - j) <= uv).

(** ** Datums (topaz/datum.h) *)

Module Datum.

(** [datum::token_t] *)
Definition TOK_START_LIST  : Z := 0xf0.
Definition TOK_END_LIST    : Z := 0xf1.
Definition TOK_START_NAME  : Z := 0xf2.
Definition TOK_END_NAME    : Z := 0xf3.
Definition TOK_CALL        : Z := 0xf8.
Definition TOK_END_OF_DATA : Z := 0xf9.
Definition TOK_END_SESSION : Z := 0xfa.
Definition TOK_START_TRANS : Z := 0xfb.
Definition TOK_END_TRANS   : Z := 0xfc.

(** [datum::status_t] (the two codes the properties name) *)
Definition STA_SUCCESS        : Z := 0x00.
Definition STA_NOT_AUTHORIZED : Z := 0x01.

(** Modelled from the spec: the datum tree of section 3 ("Unset, Atom,
    Named, List, Method, EndSession"; datums own their children by
    value).  [datum.h] declares the type tags [UNSET, ATOM, NAMED, LIST,
    METHOD, END_SESSION] and the members; the accessors that build a
    tree ([operator[]], [name()], [named_value()], [list()]) are defined
    in [datum.cpp], which is not among the sources. *)
#[local] Unset Elimination Schemes.
Inductive datum : Type :=
| Unset
| AtomD (value : atom)
| Named (name : atom) (named_value : datum)
| ListD (items : list datum)
| Method (object_uid method_uid : Z) (args : list datum) (status : Z)
| EndSession.
#[local] Set Elimination Schemes.

(** [datum::list()]: the children of a list or of a method call; a
    datum that holds no list has none. *)
Definition list_of (d : datum) : list datum :=
  match d with
  | ListD items => items
  | Method _ _ args _ => args
  | _ => []
  end.

(** Modelled from the spec: the datum encoder of section 4.2, used to
    instantiate the codec that [drive::invoke] calls.  [Named] emits
    [START_NAME name value END_NAME], [List] emits [START_LIST children
    END_LIST], [Method] emits [CALL uid(invoking) uid(method) START_LIST
    args END_LIST], [EndSession] emits [0xFA], and [Unset] is an error.
    The status list that section 4.2 writes after [END_LIST] is the one
    [drive::invoke] appends itself ("Tack on method status"), so the
    encoder stops at [END_LIST]: the 21 bytes that [table_set_bin]
    counts as "Min size of method call". *)
Fixpoint spec_encode (d : datum) : outcome (list Z) :=
  let fix encode_all (l : list datum) : outcome (list Z) :=
    match l with
    | [] => Ok []
    | x :: r =>
        a <- spec_encode x ;;
        b <- encode_all r ;;
        Ok (a ++ b)
    end in
  match d with
  | Unset => Throw "Cannot encode unset datum"
  | AtomD a => Ok (fst (encode_bytes a))
  | Named n v =>
      body <- spec_encode v ;;
      Ok ([TOK_START_NAME] ++ fst (encode_bytes n) ++ body ++ [TOK_END_NAME])
  | ListD items =>
      body <- encode_all items ;;
      Ok ([TOK_START_LIST] ++ body ++ [TOK_END_LIST])
  | Method o m args _ =>
      uo <- new_uid atom_default o ;;
      um <- new_uid atom_default m ;;
      body <- encode_all args ;;
      Ok ([TOK_CALL] ++ fst (encode_bytes uo) ++ fst (encode_bytes um)
          ++ [TOK_START_LIST] ++ body ++ [TOK_END_LIST])
  | EndSession => Ok [TOK_END_SESSION]
  end.

Definition expect_token (buf : list Z) (idx : Z) (tok : Z) : outcome unit :=
  if (idx <? Z.of_nat (length buf)) && (nth (Z.to_nat idx) buf 0 =? tok)
  then Ok tt else Throw "Unexpected token in datum encoding".

(** Modelled from the spec: the datum decoder of section 4.2 ("Peek the
    first byte": [0xF0] a list whose children are datums up to
    [END_LIST]; [0xF2] a named pair, one atom then one datum then
    [END_NAME]; [0xF8] a method call with its status list; [0xFA]
    end-of-session; anything else an atom).  The fuel bounds the nesting
    depth and the number of children; the result carries the bytes
    consumed. *)
Fixpoint spec_decode (fuel : nat) (buf : list Z) {struct fuel} : outcome (datum * Z) :=
  match fuel with
  | O => Throw "Datum encoding too short"
  | S k =>
      match buf with
      | [] => Throw "Datum encoding too short"
      | tok :: tl =>
          if tok =? TOK_START_LIST then
            ' (items, n) <- spec_decode_items k tl ;;
            Ok (ListD items, 1 + n)
          else if tok =? TOK_START_NAME then
            ' (name, n1) <- decode_bytes atom_default tl ;;
            ' (v, n2) <- spec_decode k (skipn (Z.to_nat n1) tl) ;;
            expect_token tl (n1 + n2) TOK_END_NAME ;;;
            Ok (Named name v, 1 + n1 + n2 + 1)
          else if tok =? TOK_CALL then
            ' (ao, n1) <- decode_bytes atom_default tl ;;
            o <- get_uid ao ;;
            ' (am, n2) <- decode_bytes atom_default (skipn (Z.to_nat n1) tl) ;;
            m <- get_uid am ;;
            expect_token tl (n1 + n2) TOK_START_LIST ;;;
            ' (args, n3) <- spec_decode_items k (skipn (Z.to_nat (n1 + n2 + 1)) tl) ;;
            let p := n1 + n2 + 1 + n3 in
            expect_token tl p TOK_END_OF_DATA ;;;
            expect_token tl (p + 1) TOK_START_LIST ;;;
            expect_token tl (p + 5) TOK_END_LIST ;;;
            Ok (Method o m args (nth (Z.to_nat (p + 2)) tl 0), 1 + p + 6)
          else if tok =? TOK_END_SESSION then Ok (EndSession, 1)
          else
            ' (a, n) <- decode_bytes atom_default buf ;;
            Ok (AtomD a, n)
      end
  end
with spec_decode_items (fuel : nat) (buf : list Z) {struct fuel}
  : outcome (list datum * Z) :=
  match fuel with
  | O => Throw "Datum encoding too short"
  | S k =>
      match buf with
      | [] => Throw "Datum encoding too short"
      | tok :: tl =>
          if tok =? TOK_END_LIST then Ok ([], 1)
          else
            ' (d, n) <- spec_decode k buf ;;
            ' (rest, m) <- spec_decode_items k (skipn (Z.to_nat n) buf) ;;
            Ok (d :: rest, n + m)
      end
  end.

Definition spec_decode_vector (buf : list Z) : outcome (datum * Z) :=
  spec_decode (2 * length buf + 2) buf.

End Datum.

Import Datum.

(** ** The drive (topaz/drive.cpp) *)

(** What the program does to the outside world: the commands handed to
    [rawdrive::if_send] and [rawdrive::if_recv] and the calls to
    [usleep]. *)
Inductive event : Type :=
| EvSend (proto comid : Z) (data : list Z) (bcount : Z)
| EvRecv (proto comid bcount : Z)
| EvSleep (usec : Z).

(** The transport of [topaz/rawdrive.cpp] and the memory the drive code
    reads without having written it.  [rawdrive::if_send] and
    [rawdrive::if_recv] issue ATA TRUSTED SEND / RECEIVE through an
    ioctl and throw when it fails; what the device answers is not
    determined by the program, so the device is any state machine
    [dev].  They take [uint8_t proto, uint16_t comid, void *data,
    uint8_t bcount].
    - [dev_recv s proto comid bcount] is the block the device writes
      into the caller's buffer;
    - [fresh] is the content of the storage in which atom temporaries
      are constructed;
    - the transport returns or throws: on a buffer of [bcount] blocks it
      has no undefined outcome. *)
Class Platform : Type := {
  dev : Type;
  dev_send : dev -> Z -> Z -> list Z -> Z -> outcome unit * dev;
  dev_recv : dev -> Z -> Z -> Z -> outcome (list Z) * dev;
  fresh : atom;
  dev_send_defined :
    forall s proto comid data bcount,
      is_defined (fst (dev_send s proto comid data bcount)) = true;
  dev_recv_defined :
    forall s proto comid bcount,
      is_defined (fst (dev_recv s proto comid bcount)) = true
}.

(** [encodable::encode_vector] and [encodable::decode_vector] on a
    datum, defined in [datum.cpp] and [encodable.cpp], which are not
    among the sources: [decode_vector] returns the datum and the number
    of bytes it consumed.  On a vector, which knows its own length, both
    return or throw. *)
Class Codec : Type := {
  encode_vector : datum -> outcome (list Z);
  decode_vector : list Z -> outcome (datum * Z);
  encode_vector_defined : forall d, is_defined (encode_vector d) = true;
  decode_vector_defined : forall bytes, is_defined (decode_vector bytes) = true
}.

(** The object and method UIDs of [topaz/uid.h] that [drive.cpp] names. *)
Class Uids : Type := {
  SESSION_MGR : Z;
  ADMIN_SP : Z;
  REVERT : Z;
  SET : Z
}.

(** Modelled from the spec: the sizes of the three headers of
    [topaz/defs.h], from the layouts of section 4.3 (ComPacketHeader 20
    bytes, PacketHeader 24 bytes, SubPacketHeader 12 bytes, all fields
    big-endian), and the 512-byte ATA block. *)
Definition ATA_BLOCK_SIZE : Z := 512.
Definition sizeof_opal_com_packet_header_t : Z := 20.
Definition sizeof_opal_packet_header_t : Z := 24.
Definition sizeof_opal_sub_packet_header_t : Z := 12.
Definition sizeof_opal_header_t : Z :=
  sizeof_opal_com_packet_header_t + sizeof_opal_packet_header_t
  + sizeof_opal_sub_packet_header_t.

(** Offsets of the header fields inside [opal_header_t]. *)
Definition off_com_id : nat := 4.
Definition off_com_length : nat := 16.
Definition off_tper_session_id : nat := 20.
Definition off_host_session_id : nat := 24.
Definition off_pkt_length : nat := 40.
Definition off_sub_length : nat := 52.

(** A big-endian field of [n] bytes at offset [off] of a block. *)
Definition field (n off : nat) (block : list Z) : Z :=
  be_to_Z (firstn n (skipn off block)).

(** [#define PAD_TO_MULTIPLE(val, mult) (((val + (mult - 1)) / mult) * mult)]
    on [size_t]. *)
Definition PAD_TO_MULTIPLE (val mult : Z) : Z :=
  wrap64 ((wrap64 (val + (mult - 1)) / mult) * mult).

Definition POLL_MS : Z := 10.
Definition TIMEOUT_SECS : Z := 5.

(** The status list that [drive::invoke] appends to every call. *)
Definition status_trailer : list Z :=
  [TOK_END_OF_DATA; TOK_START_LIST; 0; 0; 0; TOK_END_LIST].

Section Drive.

Context {P : Platform} {C : Codec} {U : Uids}.

(** The members of [class drive] that the modelled functions use, the
    state of the device behind [raw], and the trace of what the program
    has done to the outside world so far. *)
Record drive : Type := mk_drive {
  tper_session_id : Z;
  host_session_id : Z;
  com_id : Z;
  max_com_pkt_size : Z;
  raw : dev;
  trace : list event
}.

Definition set_raw (d : drive) (r : dev) (ev : event) : drive :=
  mk_drive (tper_session_id d) (host_session_id d) (com_id d)
           (max_com_pkt_size d) r (trace d ++ [ev]).

Definition log (d : drive) (ev : event) : drive := set_raw d (raw d) ev.

Definition set_session (d : drive) (tper host : Z) : drive :=
  mk_drive tper host (com_id d) (max_com_pkt_size d) (raw d) (trace d).

(** A member function of [drive]: it returns or throws, and either way
    leaves the object in a new state.  With the outcome [Undefined] the
    state is the one in which the run left what the source defines. *)
Definition M (A : Type) : Type := drive -> outcome A * drive.

Definition ret {A : Type} (a : A) : M A := fun d => (Ok a, d).
Definition throw {A : Type} (msg : string) : M A := fun d => (Throw msg, d).
Definition lift {A : Type} (r : outcome A) : M A := fun d => (r, d).

Definition mbind {A B : Type} (m : M A) (k : A -> M B) : M B :=
  fun d =>
    match m d with
    | (Ok a, d') => k a d'
    | (Throw msg, d') => (Throw msg, d')
    | (Undefined, d') => (Undefined, d')
    end.

Notation "x <-- m ;; k" := (mbind m (fun x => k))
  (at level 61, m at next level, right associativity).
Notation "m ;;;; k" := (mbind m (fun _ => k))
  (at level 61, right associativity).

(** [raw.if_send(proto, comid, data, bcount)] *)
Definition if_send (proto comid : Z) (data : list Z) (bcount : Z) : M unit :=
  fun d =>
    let proto := wrap8 proto in
    let comid := wrap16 comid in
    let bcount := wrap8 bcount in
    let '(r, s) := dev_send (raw d) proto comid data bcount in
    (r, set_raw d s (EvSend proto comid data bcount)).

(** [raw.if_recv(proto, comid, block, bcount)]: the buffer after the
    call, as many bytes as the caller's buffer holds. *)
Definition if_recv (proto comid : Z) (bcount : Z) : M (list Z) :=
  fun d =>
    let proto := wrap8 proto in
    let comid := wrap16 comid in
    let bcount := wrap8 bcount in
    let size := Z.to_nat (bcount * ATA_BLOCK_SIZE) in
    let '(r, s) := dev_recv (raw d) proto comid bcount in
    (block <- r ;; Ok (firstn size (block ++ repeat 0 size)),
     set_raw d s (EvRecv proto comid bcount)).

(** [usleep(usec)] *)
Definition usleep (usec : Z) : M unit :=
  fun d => (Ok tt, log d (EvSleep usec)).

(** The [tot_size] bytes that [drive::send] allocates, clears and fills:
    the three headers, the payload, and the zero padding. *)
Definition build_block (d : drive) (outbuf : list Z) (session_ids : bool)
    (sub_size pkt_size com_size tot_size : Z) : list Z :=
  (* opal_com_packet_header_t *)
  repeat 0 4 ++ be_bytes 2 (com_id d) ++ repeat 0 2
  ++ repeat 0 4 ++ repeat 0 4 ++ be_bytes 4 com_size
  (* opal_packet_header_t *)
  ++ (if session_ids
      then be_bytes 4 (tper_session_id d) ++ be_bytes 4 (host_session_id d)
      else repeat 0 4 ++ repeat 0 4)
  ++ repeat 0 4 ++ repeat 0 2 ++ repeat 0 2 ++ repeat 0 4 ++ be_bytes 4 pkt_size
  (* opal_sub_packet_header_t *)
  ++ repeat 0 6 ++ repeat 0 2 ++ be_bytes 4 sub_size
  (* payload and padding *)
  ++ outbuf
  ++ repeat 0 (Z.to_nat (tot_size - sizeof_opal_header_t - sub_size)).

Definition sub_size_of (outbuf : list Z) : Z := Z.of_nat (length outbuf).
Definition pkt_size_of (outbuf : list Z) : Z :=
  PAD_TO_MULTIPLE (wrap64 (sub_size_of outbuf + sizeof_opal_sub_packet_header_t)) 4.
Definition com_size_of (outbuf : list Z) : Z :=
  wrap64 (pkt_size_of outbuf + sizeof_opal_packet_header_t).
Definition tot_size_of (outbuf : list Z) : Z :=
  PAD_TO_MULTIPLE (wrap64 (com_size_of outbuf + sizeof_opal_com_packet_header_t))
                  ATA_BLOCK_SIZE.

(** [drive::send(byte_vector const &outbuf, bool session_ids)] *)
Definition send (outbuf : list Z) (session_ids : bool) : M unit :=
  fun d =>
    let sub_size := sub_size_of outbuf in
    let pkt_size := pkt_size_of outbuf in
    let com_size := com_size_of outbuf in
    let tot_size := tot_size_of outbuf in
    if tot_size >? max_com_pkt_size d then
      throw "ComPkt too large for drive" d
    else
      let block := build_block d outbuf session_ids sub_size pkt_size com_size tot_size in
      if_send 1 (com_id d) block (tot_size / ATA_BLOCK_SIZE) d.

(** The [count] bytes at [payload = block + sizeof(opal_header_t)],
    where [block] is the array of [ATA_BLOCK_SIZE] bytes that
    [drive::recv] receives into: what [memcpy(&(inbuf[0]), payload,
    count)] copies.  The array holds [ATA_BLOCK_SIZE -
    sizeof(opal_header_t)] bytes from [payload] on; a larger [count]
    makes the source read past the end of the array. *)
Definition copy_payload (block : list Z) (count : Z) : outcome (list Z) :=
  if sizeof_opal_header_t + count <=? ATA_BLOCK_SIZE then
    Ok (firstn (Z.to_nat count) (skipn (Z.to_nat sizeof_opal_header_t) block))
  else Undefined.

(** The [do ... while] loop of [drive::recv]; [max_iters] is the
    counter of the source, and the result carries its final value. *)
Fixpoint recv_poll (max_iters : nat) : M (list Z * Z) :=
  fun d =>
    match if_recv 1 (com_id d) 1 d with
    | (Undefined, d1) => (Undefined, d1)
    | (Throw msg, d1) => (Throw msg, d1)
    | (Ok block, d1) =>
        if negb (field 2 off_com_id block =? com_id d1) then
          throw "Unexpected ComID in drive response" d1
        else if field 4 off_com_length block =? 0 then
          let d2 := snd (usleep (POLL_MS * 1000) d1) in
          (* (length == 0) && (--max_iters > 0) *)
          match max_iters with
          | S (S n as m) => recv_poll m d2
          | _ => (Ok (block, Z.of_nat max_iters - 1), d2)
          end
        else (Ok (block, Z.of_nat max_iters), d1)
    end.

(** [drive::recv(byte_vector &inbuf)] *)
Definition recv : M (list Z) :=
  let max_iters := (TIMEOUT_SECS * 1000) / POLL_MS in
  r <-- recv_poll (Z.to_nat max_iters) ;;
  let '(block, max_iters) := r in
  if max_iters =? 0 then throw "Timeout waiting for response"
  else
    let count := field 4 off_sub_length block in
    lift (copy_payload block count).

(** How [drive::invoke] reads the reply: the number of bytes after the
    decoded datum and the status byte. *)
Definition trailing_bytes (bytes : list Z) (count : Z) : Z :=
  wrap64 (Z.of_nat (length bytes) - count).
Definition reply_status (bytes : list Z) (count : Z) : Z :=
  nth (Z.to_nat (wrap64 (count + 2))) bytes 0.

(** [drive::invoke(object_uid, method_uid, params)] *)
Definition invoke (object_uid method_uid : Z) (params : datum) : M datum :=
  let call := Method object_uid method_uid (list_of params) STA_SUCCESS in
  bytes <-- lift (encode_vector call) ;;
  let bytes := bytes ++ status_trailer in
  send bytes (negb (object_uid =? SESSION_MGR)) ;;;;
  bytes <-- recv ;;
  r <-- lift (decode_vector bytes) ;;
  let '(rc, count) := r in
  if negb (trailing_bytes bytes count =? 6) then
    throw "Invalid method status on return"
  else
    let status := reply_status bytes count in
    if negb (status =? 0) then throw "Method call failed"
    else ret rc.

(** [drive::admin_sp_revert] *)
Definition admin_sp_revert : M unit :=
  invoke ADMIN_SP REVERT Unset ;;;;
  fun d => (Ok tt, set_session d 0 0).

(** The estimate at the head of [drive::table_set_bin], on [uint64_t]. *)
Definition chunk_size_of (max_com_pkt_size : Z) : Z :=
  let chunk_size := max_com_pkt_size in
  let chunk_size := wrap64 (chunk_size - sizeof_opal_header_t) in
  let chunk_size := wrap64 (chunk_size - 21) in
  let chunk_size := wrap64 (chunk_size - (2 + 1 + 1 + 8)) in
  let chunk_size := wrap64 (chunk_size - (2 + 1 + 4 + 0)) in
  let chunk_size := wrap64 (chunk_size - 5) in
  let chunk_size := wrap64 (chunk_size - 3) in
  (chunk_size / 4096) * 4096.

(** The parameter list of one [Set] call of [table_set_bin]. *)
Definition set_bin_params (offset : Z) (chunk : list Z) : outcome datum :=
  n0 <- new_uint fresh 0 ;;
  v0 <- new_uint fresh offset ;;
  n1 <- new_uint fresh 1 ;;
  v1 <- new_bin fresh chunk ;;
  Ok (ListD [Named n0 (AtomD v0); Named n1 (AtomD v1)]).

(** The loop [while (len) ...] of [drive::table_set_bin]: [raw_ptr] is
    the memory from the pointer [raw] onwards.  The loop has no bound of
    its own, so the model runs it on [fuel] and answers [None] when the
    fuel runs out before the loop ends. *)
Fixpoint table_set_bin_loop (fuel : nat) (tbl_uid chunk_size offset : Z)
    (raw_ptr : list Z) (len : Z) (d : drive) : option (outcome unit * drive) :=
  match fuel with
  | O => None
  | S k =>
      if len =? 0 then Some (Ok tt, d)
      else
        let send_size := if len >? chunk_size then chunk_size else len in
        match set_bin_params offset (firstn (Z.to_nat send_size) raw_ptr) with
        | Undefined => Some (Undefined, d)
        | Throw msg => Some (Throw msg, d)
        | Ok params =>
            match invoke tbl_uid SET params d with
            | (Undefined, d') => Some (Undefined, d')
            | (Throw msg, d') => Some (Throw msg, d')
            | (Ok _, d') =>
                table_set_bin_loop k tbl_uid chunk_size
                  (wrap64 (offset + send_size))
                  (skipn (Z.to_nat send_size) raw_ptr)
                  (wrap64 (len - send_size)) d'
            end
        end
  end.

(** [drive::table_set_bin(tbl_uid, offset, ptr, len)] *)
Definition table_set_bin (fuel : nat) (tbl_uid offset : Z) (ptr : list Z) (len : Z)
    (d : drive) : option (outcome unit * drive) :=
  table_set_bin_loop fuel tbl_uid (chunk_size_of (max_com_pkt_size d))
                     offset ptr len d.

(** *** The datum-based variant of [send] and [recv]

    The sources also hold the variant of [drive.cpp] in which [send] and
    [recv] take a datum.  [outbuf.size()] and [outbuf.encode_bytes] are
    the length and the bytes of the encoded datum. *)

Definition is_session_mgr_call (outbuf : datum) : bool :=
  match outbuf with
  | Method object_uid _ _ _ => object_uid =? SESSION_MGR
  | _ => false
  end.

(** [drive::send(datum const &outbuf)] *)
Definition send_datum (outbuf : datum) : M unit :=
  enc <-- lift (encode_vector outbuf) ;;
  fun d =>
    let sub_size := sub_size_of enc in
    let pkt_size := pkt_size_of enc in
    let com_size := com_size_of enc in
    let tot_size := tot_size_of enc in
    if tot_size >? max_com_pkt_size d then
      throw "ComPkt too large for drive" d
    else if is_session_mgr_call outbuf then
      if_send 1 (com_id d)
        (build_block d enc false sub_size pkt_size com_size tot_size)
        (tot_size / ATA_BLOCK_SIZE) d
    else if host_session_id d =? 0 then
      throw "Failed send(): No TPer Session" d
    else
      if_send 1 (com_id d)
        (build_block d enc true sub_size pkt_size com_size tot_size)
        (tot_size / ATA_BLOCK_SIZE) d.

(** [drive::recv(datum &inbuf)]: one block, no retry.
    [inbuf.decode_bytes(payload, count)] decodes the [count] bytes at
    [payload]; a [count] that runs past the end of [block] hands the
    decoder memory that is not the array's. *)
Definition recv_datum : M datum :=
  fun d =>
    let min := sizeof_opal_packet_header_t + sizeof_opal_sub_packet_header_t in
    match if_recv 1 (com_id d) 1 d with
    | (Undefined, d1) => (Undefined, d1)
    | (Throw msg, d1) => (Throw msg, d1)
    | (Ok block, d1) =>
        if negb (field 2 off_com_id block =? com_id d1) then
          throw "Unexpected ComID in drive response" d1
        else if field 4 off_com_length block <=? min then
          throw "Invalid Com Packet length in drive response" d1
        else
          let count := field 4 off_sub_length block in
          match bind (copy_payload block count) decode_vector with
          | Undefined => (Undefined, d1)
          | Throw msg => (Throw msg, d1)
          | Ok (inbuf, _) =>
              match inbuf with
              | Method _ _ _ status =>
                  if negb (status =? STA_SUCCESS)
                  then throw "Nonzero status on method call (failed)" d1
                  else (Ok inbuf, d1)
              | _ => (Ok inbuf, d1)
              end
          end
    end.

End Drive.

Arguments drive {P}.
Arguments M {P} A.

(** ** Specification-side definitions *)

(** Round [x] up to a multiple of [m], in the integers. *)
Definition round_up (x m : Z) : Z := ((x + m - 1) / m) * m.

(** The envelope length law of the specification for a payload of [n]
    bytes: the sub-packet (header and payload) padded to 4 bytes, the
    ComPacket contents, and the transmission padded to 512 bytes. *)
Definition law_pkt_length (n : Z) : Z :=
  round_up (sizeof_opal_sub_packet_header_t + n) 4.
Definition law_com_length (n : Z) : Z :=
  sizeof_opal_packet_header_t + law_pkt_length n.
Definition law_total_size (n : Z) : Z :=
  round_up (sizeof_opal_com_packet_header_t + law_com_length n) ATA_BLOCK_SIZE.

(** The sub-packet payload that a transmitted block carries. *)
Definition sub_payload (block : list Z) : list Z :=
  firstn (Z.to_nat (field 4 off_sub_length block))
         (skipn (Z.to_nat sizeof_opal_header_t) block).

Definition is_send (ev : event) : bool :=
  match ev with EvSend _ _ _ _ => true | _ => false end.
Definition is_recv (ev : event) : bool :=
  match ev with EvRecv _ _ _ => true | _ => false end.
Definition is_sleep (ev : event) : bool :=
  match ev with EvSleep _ => true | _ => false end.

(** The sub-packet payloads transmitted in a trace, in order. *)
Definition sent_payloads (evs : list event) : list (list Z) :=
  flat_map (fun ev => match ev with
                      | EvSend _ _ block _ => [sub_payload block]
                      | _ => []
                      end) evs.

(** What [drive::invoke] makes of the received bytes: the three checks
    after [recv], which do not touch the drive object. *)
Definition check_reply {C : Codec} (bytes : list Z) : outcome datum :=
  ' (rc, count) <- decode_vector bytes ;;
  if negb (trailing_bytes bytes count =? 6) then
    Throw "Invalid method status on return"
  else if negb (reply_status bytes count =? 0) then Throw "Method call failed"
  else Ok rc.

Section Polling.

Context {P : Platform}.

(** The device after [k] consecutive polls [if_recv(1, comid, block, 1)]. *)
Fixpoint dev_after (s : dev) (comid : Z) (k : nat) : dev :=
  match k with
  | O => s
  | S j => dev_after (snd (dev_recv s 1 comid 1)) comid j
  end.

(** What the device answers to poll number [k] (from 0). *)
Definition answer (s : dev) (comid : Z) (k : nat) : outcome (list Z) :=
  block <- fst (dev_recv (dev_after s comid k) 1 comid 1) ;;
  Ok (firstn 512 (block ++ repeat 0 512)).

(** The answer "no data yet": the ComID is echoed and the ComPacket
    length is zero. *)
Definition not_ready (com_id : Z) (r : outcome (list Z)) : bool :=
  match r with
  | Ok block =>
      (field 2 off_com_id block =? com_id) && (field 4 off_com_length block =? 0)
  | _ => false
  end.

(** What [recv] makes of an answer that is not "no data yet". *)
Definition deliver (com_id : Z) (r : outcome (list Z)) : outcome (list Z) :=
  block <- r ;;
  if field 2 off_com_id block =? com_id
  then copy_payload block (field 4 off_sub_length block)
  else Throw "Unexpected ComID in drive response".

(** [k] rounds of "poll, then sleep 10 ms". *)
Definition poll_rounds (comid : Z) (k : nat) : list event :=
  concat (repeat [EvRecv 1 comid 1; EvSleep 10000] k).

(** The drive object after [k] rounds of "poll, then sleep". *)
Definition after_polls (d : drive) (k : nat) : drive :=
  mk_drive (tper_session_id d) (host_session_id d) (com_id d)
           (max_com_pkt_size d)
           (dev_after (raw d) (wrap16 (com_id d)) k)
           (trace d ++ poll_rounds (wrap16 (com_id d)) k).

(** Two drive objects that differ at most in the device state and in the
    trace. *)
Definition same_members (d d' : drive) : Prop :=
  tper_session_id d' = tper_session_id d /\
  host_session_id d' = host_session_id d /\
  com_id d' = com_id d /\
  max_com_pkt_size d' = max_com_pkt_size d.

(** The number of polls in a trace. *)
Definition polls (evs : list event) : nat := length (filter is_recv evs).

End Polling.


(** The offset and the chunk of each [Set] call that the loop of
    [table_set_bin] makes within [fuel] iterations. *)
Fixpoint set_calls (fuel : nat) (chunk_size offset : Z) (raw_ptr : list Z)
    (len : Z) : list (Z * list Z) :=
  match fuel with
  | O => []
  | S k =>
      if len =? 0 then []
      else
        let send_size := if len >? chunk_size then chunk_size else len in
        (offset, firstn (Z.to_nat send_size) raw_ptr)
        :: set_calls k chunk_size (wrap64 (offset + send_size))
             (skipn (Z.to_nat send_size) raw_ptr) (wrap64 (len - send_size))
  end.

Section Calls.

Context {P : Platform} {C : Codec} {U : Uids}.


End Calls.

(** ** Sample environments *)

Lemma bind_defined {A B : Type} (m : outcome A) (k : A -> outcome B) :
  is_defined m = true -> (forall a, is_defined (k a) = true) ->
  is_defined (bind m k) = true.
Proof.
  intros Hm Hk. destruct m as [a|msg|]; [apply Hk | reflexivity | discriminate Hm].
Qed.

Ltac defined_step :=
  first [ reflexivity
        | apply bind_defined; [|intros]
        | match goal with
          | |- is_defined (if ?c then _ else _) = true => destruct c
          | |- is_defined (match ?x with _ => _ end) = true => destruct x
          | |- is_defined (let (_, _) := ?x in _) = true => destruct x
          end ].

Lemma new_uid_defined (this : atom) (v : Z) : is_defined (new_uid this v) = true.
Proof. unfold new_uid, atom_uint. repeat defined_step. Qed.

Lemma decode_bytes_defined (this : atom) (data : list Z) :
  is_defined (decode_bytes this data) = true.
Proof.
  unfold decode_bytes, decode_header, decode_check_size, decode_set_type,
    decode_int.
  repeat defined_step.
Qed.

Lemma get_uid_defined (a : atom) : is_defined (get_uid a) = true.
Proof. unfold get_uid. repeat defined_step. Qed.

Lemma expect_token_defined (buf : list Z) (idx tok : Z) :
  is_defined (expect_token buf idx tok) = true.
Proof. unfold expect_token. repeat defined_step. Qed.

Lemma spec_encode_defined : forall d, is_defined (spec_encode d) = true.
Proof.
  fix IH 1. intros d.
  assert (Hall : forall l,
    (forall x, In x l -> is_defined (spec_encode x) = true) ->
    is_defined ((fix encode_all (l : list datum) : outcome (list Z) :=
                   match l with
                   | [] => Ok []
                   | x :: r =>
                       a <- spec_encode x ;;
                       b <- encode_all r ;;
                       Ok (a ++ b)
                   end) l) = true).
  { clear IH. induction l as [|x r IHr]; intros Hin; [reflexivity|].
    apply bind_defined; [apply Hin; left; reflexivity|]. intros a.
    apply bind_defined; [apply IHr; intros y Hy; apply Hin; right; exact Hy|].
    reflexivity. }
  destruct d as [ | a | n v | items | o m args st | ]; cbn [spec_encode].
  - reflexivity.
  - reflexivity.
  - apply bind_defined; [apply IH | reflexivity].
  - apply bind_defined; [|reflexivity]. apply Hall.
    induction items as [|x r IHr]; intros y Hy; [destruct Hy|].
    destruct Hy as [<- | Hy]; [apply IH | apply IHr; exact Hy].
  - apply bind_defined; [apply new_uid_defined|]. intros uo.
    apply bind_defined; [apply new_uid_defined|]. intros um.
    apply bind_defined; [|reflexivity]. apply Hall.
    induction args as [|x r IHr]; intros y Hy; [destruct Hy|].
    destruct Hy as [<- | Hy]; [apply IH | apply IHr; exact Hy].
  - reflexivity.
Qed.

Lemma spec_decode_defined (fuel : nat) :
  (forall buf, is_defined (spec_decode fuel buf) = true) /\
  (forall buf, is_defined (spec_decode_items fuel buf) = true).
Proof.
  induction fuel as [|k [IHd IHi]]; [split; reflexivity|].
  split; intros buf; cbn [spec_decode spec_decode_items];
    (destruct buf as [|tok tl]; [reflexivity|]).
  - destruct (tok =? TOK_START_LIST).
    { apply bind_defined; [apply IHi|]. intros [items n]. reflexivity. }
    destruct (tok =? TOK_START_NAME).
    { apply bind_defined; [apply decode_bytes_defined|]. intros [name n1].
      apply bind_defined; [apply IHd|]. intros [v n2].
      apply bind_defined; [apply expect_token_defined|]. intros _. reflexivity. }
    destruct (tok =? TOK_CALL).
    { apply bind_defined; [apply decode_bytes_defined|]. intros [ao n1].
      apply bind_defined; [apply get_uid_defined|]. intros o.
      apply bind_defined; [apply decode_bytes_defined|]. intros [am n2].
      apply bind_defined; [apply get_uid_defined|]. intros m.
      apply bind_defined; [apply expect_token_defined|]. intros _.
      apply bind_defined; [apply IHi|]. intros [args n3]. cbv zeta.
      apply bind_defined; [apply expect_token_defined|]. intros _.
      apply bind_defined; [apply expect_token_defined|]. intros _.
      apply bind_defined; [apply expect_token_defined|]. intros _. reflexivity. }
    destruct (tok =? TOK_END_SESSION); [reflexivity|].
    apply bind_defined; [apply decode_bytes_defined|]. intros [a n]. reflexivity.
  - destruct (tok =? TOK_END_LIST); [reflexivity|].
    apply bind_defined; [apply IHd|]. intros [d n].
    apply bind_defined; [apply IHi|]. intros [rest m]. reflexivity.
Qed.

(** The datum codec of the specification. *)
Definition spec_codec : Codec :=
  {| encode_vector := spec_encode;
     decode_vector := spec_decode_vector;
     encode_vector_defined := spec_encode_defined;
     decode_vector_defined :=
       fun buf => proj1 (spec_decode_defined (2 * length buf + 2)) buf |}.

(** The UIDs that the TCG Storage Core specification assigns to the
    session manager, the Admin SP and the methods [Revert] and [Set]. *)
Definition tcg_uids : Uids :=
  {| SESSION_MGR := 0x00000000000000ff;
     ADMIN_SP    := 0x0000020500000001;
     REVERT      := 0x0000000600000202;
     SET         := 0x0000000600000017 |}.

(** A device that accepts every command and answers poll number [k]
    with [script k]. *)
Definition scripted (script : nat -> outcome (list Z))
    (script_defined : forall k, is_defined (script k) = true) : Platform :=
  {| dev := nat;
     dev_send := fun s _ _ _ _ => (Ok tt, s);
     dev_recv := fun s _ _ _ => (script s, S s);
     fresh := atom_default;
     dev_send_defined := fun _ _ _ _ _ => eq_refl;
     dev_recv_defined := fun s _ _ _ => script_defined s |}.

(** A device that answers every poll with the block [block]. *)
Definition replying (block : list Z) : Platform :=
  scripted (fun _ => Ok block) (fun _ => eq_refl).

(** A well-formed response block carrying [payload] on ComID [comid]. *)
Definition reply_block (comid : Z) (payload : list Z) : list Z :=
  let n := Z.of_nat (length payload) in
  repeat 0 4 ++ be_bytes 2 comid ++ repeat 0 10
  ++ be_bytes 4 (law_com_length n)
  ++ repeat 0 20 ++ be_bytes 4 (law_pkt_length n)
  ++ repeat 0 8 ++ be_bytes 4 n
  ++ payload.

(** The response "no data yet" on ComID [comid]. *)
Definition not_ready_block (comid : Z) : list Z :=
  repeat 0 4 ++ be_bytes 2 comid ++ repeat 0 506.

(** A drive that answers every call with an empty result list and the
    status [status]. *)
Definition answering (comid status : Z) : Platform :=
  replying (reply_block comid
    [TOK_START_LIST; TOK_END_LIST;
     TOK_END_OF_DATA; TOK_START_LIST; status; 0; 0; TOK_END_LIST]).

(** A drive that never has data. *)
Definition silent (comid : Z) : Platform :=
  replying (not_ready_block comid).

(** A drive object on ComID [0x07FE] with an empty trace. *)
Definition sample_com_id : Z := 0x07fe.
Definition sample_drive (P : Platform) (s : @dev P) (tper host max : Z) : @drive P :=
  @mk_drive P tper host sample_com_id max s [].

(** ** Ending a session, and the transport checks *)

Section Session.

Context {P : Platform} {C : Codec} {U : Uids}.

(** [drive::logout].  The call [send(bytes)] leaves the parameter
    [session_ids] of [send] to its default argument, which [drive.h]
    declares; the header of this variant is not among the sources, so
    [session_ids] stands for that default.  The clause
    [catch (topaz_exception &e)] swallows the exceptions that [send] and
    [recv] throw, and nothing else. *)
Definition logout (session_ids : bool) : M unit :=
  fun d =>
    if negb (tper_session_id d =? 0) then
      let bytes := [TOK_END_SESSION] in
      match mbind (send bytes session_ids) (fun _ => recv) d with
      | (Undefined, d') => (Undefined, d')
      | (Ok _, d') | (Throw _, d') => (Ok tt, set_session d' 0 0)
      end
    else (Ok tt, d).

(** [drive::sendrecv(datum const &data_out, datum &data_in)] of the
    datum-based variant: the datum received is the result. *)
Definition sendrecv (data_out : datum) : M datum :=
  mbind (send_datum data_out) (fun _ =>
  mbind (usleep 10000) (fun _ => recv_datum)).

(** What [drive::recv(datum&)] makes of a block that passed its two
    checks: the decoding and the status check. *)
Definition decoded (d1 : drive) (block : list Z) : outcome datum * drive :=
  match bind (copy_payload block (field 4 off_sub_length block)) decode_vector with
  | Undefined => (Undefined, d1)
  | Throw msg => (Throw msg, d1)
  | Ok (inbuf, _) =>
      match inbuf with
      | Method _ _ _ status =>
          if negb (status =? STA_SUCCESS)
          then throw "Nonzero status on method call (failed)" d1
          else (Ok inbuf, d1)
      | _ => (Ok inbuf, d1)
      end
  end.

(** [drive::logout] of the datum-based variant. *)
Definition logout_datum : M unit :=
  fun d =>
    if negb (tper_session_id d =? 0) then
      let io := EndSession in
      match sendrecv io d with
      | (Undefined, d') => (Undefined, d')
      | (Ok _, d') | (Throw _, d') => (Ok tt, set_session d' 0 0)
      end
    else (Ok tt, d).

End Session.

(** [sg_io.dxfer_len = bcount * ATA_BLOCK_SIZE] in
    [rawdrive::ata_exec_12] and [rawdrive::ata_exec_16] of
    [topaz/rawdrive.cpp]: the number of bytes of the caller's buffer
    that a transport command of [bcount] blocks transfers. *)
Definition dxfer_len (bcount : Z) : Z := bcount * ATA_BLOCK_SIZE.

(** The number of bytes that each [if_send] of a trace transfers to the
    device, in order. *)
Definition transmitted_sizes (evs : list event) : list Z :=
  flat_map (fun ev => match ev with
                      | EvSend _ _ _ bcount => [dxfer_len bcount]
                      | _ => []
                      end) evs.

(** [rawdrive::check_tpm] of [topaz/rawdrive.cpp].  [get_identify] is
    the outcome of the ATA IDENTIFY DEVICE command: the 256 words of
    [id_data] when it succeeds.  The operands are [int]s after integer
    promotion: [1 < 8] is a comparison (the value 1), [~] is the
    complement and [&] the conjunction of two's-complement integers. *)
Definition check_tpm (get_identify : outcome (list Z)) : outcome unit :=
  id_data <- get_identify ;;
  if Z.land (nth 80 id_data 0) (Z.lnot ((if 1 <? 8 then 1 else 0) - 1)) =? 0
  then Throw "ATA device too old to report TPM presence"
  else if negb (Z.land (nth 48 id_data 0) 0xC000 =? 0x4000)
  then Throw "No TPM Detected in Specified Drive"
  else Ok tt.

(** [rawdrive::dump_id_string]: the characters that the loop prints
    between the label and the newline.  [data] is the memory from the
    pointer [data] onwards, in 16-bit words; [fuel] bounds the
    iterations, of which there are at most [max]. *)
Fixpoint dump_id_loop (fuel : nat) (data : list Z) (i max : Z) : list Z :=
  match fuel with
  | O => []
  | S k =>
      if i <? max then
        let word := nth (Z.to_nat (Z.shiftr i 1)) data 0 in
        let c := if negb (i mod 2 =? 0) then Z.land 0xff word
                 else Z.land 0xff (Z.shiftr word 8) in
        if c =? 0x00 then []
        else (if negb (c =? 32) then [c] else [])
             ++ dump_id_loop k data (i + 1) max
      else []
  end.

Definition dump_id_string (data : list Z) (max : Z) : list Z :=
  dump_id_loop (Z.to_nat max) data 0 max.

(** The characters of a string stored in 16-bit words, the high byte of
    each word first. *)
Definition word_chars (data : list Z) : list Z :=
  flat_map (fun w => [Z.land 0xff (Z.shiftr w 8); Z.land 0xff w]) data.

(** A character string up to its first NUL. *)
Fixpoint upto_nul (s : list Z) : list Z :=
  match s with
  | [] => []
  | c :: r => if c =? 0 then [] else c :: upto_nul r
  end.

(** The events of a trace that are transmissions. *)
Definition sends (evs : list event) : nat := length (filter is_send evs).

(** * Properties of the atom codec *)

(** ** Byte order *)

Lemma be_bytes_length (n : nat) (v : Z) : length (be_bytes n v) = n.
Proof.
  revert v; induction n as [|n IH]; intros v; simpl; [reflexivity|].
  rewrite length_app, IH; simpl; lia.
Qed.

Lemma be_bytes_byte (n : nat) (v : Z) : forallb is_byte (be_bytes n v) = true.
Proof.
  revert v; induction n as [|n IH]; intros v; simpl; [reflexivity|].
  rewrite forallb_app, IH; simpl.
  unfold is_byte.
  assert (0 <= v mod 256 < 256) by (apply Z.mod_pos_bound; lia).
  replace (0 <=? v mod 256) with true by (symmetry; apply Z.leb_le; lia).
  replace (v mod 256 <? 256) with true by (symmetry; apply Z.ltb_lt; lia).
  reflexivity.
Qed.

Lemma be_bytes_split (m k : nat) (v : Z) :
  be_bytes (m + k) v = be_bytes m (v / 256 ^ Z.of_nat k) ++ be_bytes k v.
Proof.
  revert v; induction k as [|k IH]; intros v.
  - rewrite Nat.add_0_r; simpl. rewrite Z.div_1_r, app_nil_r. reflexivity.
  - replace (m + S k)%nat with (S (m + k)) by lia.
    rewrite Nat2Z.inj_succ, Z.pow_succ_r by lia.
    cbn [be_bytes]. rewrite IH, <- app_assoc. do 2 f_equal.
    rewrite Z.div_div by lia. reflexivity.
Qed.

Lemma be_bytes_mod (n : nat) (v : Z) :
  be_bytes n (v mod 256 ^ Z.of_nat n) = be_bytes n v.
Proof.
  revert v; induction n as [|n IH]; intros v; [reflexivity|].
  rewrite Nat2Z.inj_succ, Z.pow_succ_r by lia. cbn [be_bytes].
  assert (Hp : 0 < 256 ^ Z.of_nat n) by (apply Z.pow_pos_nonneg; lia).
  f_equal.
  - rewrite <- (IH (v / 256)). f_equal.
    rewrite Z.rem_mul_r by lia.
    rewrite Z.mul_comm, Z.div_add by lia.
    rewrite Z.div_small by (apply Z.mod_pos_bound; lia). reflexivity.
  - f_equal. rewrite Z.rem_mul_r by lia.
    rewrite Z.mul_comm, Z.mod_add by lia. apply Z.mod_mod; lia.
Qed.

Lemma be_acc (l : list Z) (acc : Z) :
  fold_left (fun a b => a * 256 + b) l acc
  = acc * 256 ^ Z.of_nat (length l) + be_to_Z l.
Proof.
  unfold be_to_Z. revert acc; induction l as [|b l IH]; intros acc.
  - simpl. lia.
  - cbn [fold_left length]. rewrite IH, (IH (0 * 256 + b)).
    rewrite Nat2Z.inj_succ, Z.pow_succ_r by lia. ring.
Qed.

Lemma be_to_Z_app (l1 l2 : list Z) :
  be_to_Z (l1 ++ l2) = be_to_Z l1 * 256 ^ Z.of_nat (length l2) + be_to_Z l2.
Proof.
  unfold be_to_Z at 1. rewrite fold_left_app, be_acc. reflexivity.
Qed.

Lemma be_to_Z_be_bytes (n : nat) (v : Z) :
  be_to_Z (be_bytes n v) = v mod 256 ^ Z.of_nat n.
Proof.
  revert v; induction n as [|n IH]; intros v.
  - simpl. rewrite Z.mod_1_r. reflexivity.
  - rewrite Nat2Z.inj_succ, Z.pow_succ_r by lia.
    cbn [be_bytes]. rewrite be_to_Z_app, IH.
    assert (Hp : 0 < 256 ^ Z.of_nat n) by (apply Z.pow_pos_nonneg; lia).
    rewrite (Z.rem_mul_r v 256) by lia.
    change (Z.of_nat (length [v mod 256])) with 1. rewrite Z.pow_1_r.
    change (be_to_Z [v mod 256]) with (0 * 256 + v mod 256).
    ring.
Qed.

Lemma be_to_Z_repeat (fill : Z) (s : nat) :
  be_to_Z (repeat fill s) * (256 - 1) = fill * (256 ^ Z.of_nat s - 1).
Proof.
  induction s as [|s IH].
  { change (be_to_Z (repeat fill 0)) with 0. change (Z.of_nat 0) with 0.
    rewrite Z.pow_0_r. ring. }
  change (repeat fill (S s)) with ([fill] ++ repeat fill s).
  rewrite be_to_Z_app, repeat_length.
  rewrite Nat2Z.inj_succ, Z.pow_succ_r by lia.
  change (be_to_Z [fill]) with (0 * 256 + fill). lia.
Qed.

Lemma be_bytes_head (k : nat) (v : Z) (rest : list Z) :
  nth 0 (be_bytes (S k) v ++ rest) 0 = (v / 256 ^ Z.of_nat k) mod 256.
Proof.
  change (S k) with (1 + k)%nat. rewrite be_bytes_split. reflexivity.
Qed.

(** ** Arithmetic of header bytes *)

Lemma Z_range_forall (P : Z -> bool) (n : nat) :
  forallb P (map Z.of_nat (seq 0 n)) = true ->
  forall b, 0 <= b < Z.of_nat n -> P b = true.
Proof.
  intros H b Hb. rewrite forallb_forall in H. apply H.
  apply in_map_iff. exists (Z.to_nat b). split; [lia|].
  apply in_seq. lia.
Qed.

Lemma land_0x80 (b : Z) :
  0 <= b < 256 -> (Z.land b 0x80 =? 0) = (b <? 128).
Proof.
  intros Hb.
  apply eqb_prop.
  apply (Z_range_forall (fun b => Bool.eqb (Z.land b 0x80 =? 0) (b <? 128)) 256);
    [vm_compute; reflexivity | exact Hb].
Qed.

Lemma decode_check_size_ok (len min : Z) :
  min <= len -> decode_check_size len min = Ok tt.
Proof.
  intros H. unfold decode_check_size.
  destruct (Z.ltb_spec len min); [lia | reflexivity].
Qed.

Lemma Z_small_cases (n : nat) (P : Z -> Prop) :
  (forall k : nat, (k < n)%nat -> P (Z.of_nat k)) ->
  forall x, 0 <= x < Z.of_nat n -> P x.
Proof.
  intros H x Hx. rewrite <- (Z2Nat.id x) by lia. apply H. lia.
Qed.

Ltac each_nat k n :=
  lazymatch n with
  | O => exfalso; lia
  | S ?m => destruct k as [|k]; [ | each_nat k m ]
  end.

Lemma decode_header_short (this : atom) (ty : type_t) (len : Z) (tl : list Z) :
  ty <> EMPTY -> 0 <= len < 16 ->
  decode_header this (header ty SHORT len ++ tl)
  = Ok (set_type (set_enc this SHORT) ty, 1, len).
Proof.
  intros Hty Hlen. revert len Hlen.
  apply (Z_small_cases 16). intros k Hk.
  destruct ty; try congruence;
    (each_nat k 16%nat; reflexivity).
Qed.

Lemma land_0xff (x : Z) : Z.land 0xff x = x mod 256.
Proof. rewrite Z.land_comm. exact (Z.land_ones x 8 ltac:(lia)). Qed.

Lemma decode_header_medium (this : atom) (ty : type_t) (len : Z) (tl : list Z) :
  ty <> EMPTY -> 0 <= len < 2048 ->
  decode_header this (header ty MEDIUM len ++ tl)
  = Ok (set_type (set_enc this MEDIUM) ty, 2, len).
Proof.
  intros Hty Hlen.
  assert (Hq : 0 <= Z.shiftr len 8 < Z.of_nat 8).
  { rewrite Z.shiftr_div_pow2 by lia. change (2 ^ 8) with 256.
    split; [apply Z.div_pos; lia | apply Z.div_lt_upper_bound; lia]. }
  assert (Hsplit : Z.shiftl (Z.shiftr len 8) 8 + Z.land 0xff len = len).
  { rewrite land_0xff, Z.shiftl_mul_pow2, Z.shiftr_div_pow2 by lia.
    change (2 ^ 8) with 256. pose proof (Z.div_mod len 256). lia. }
  unfold header. cbn [app].
  generalize dependent (Z.land 0xff len). generalize dependent (Z.shiftr len 8).
  intros q Hq b1 Hsplit. rewrite <- Hsplit. clear Hsplit Hlen len.
  revert q Hq. apply (Z_small_cases 8). intros k Hk.
  unfold decode_header.
  rewrite (decode_check_size_ok _ 2) by (cbn [length]; lia).
  destruct ty; try congruence;
    (each_nat k 8%nat; reflexivity).
Qed.

Lemma decode_header_long (this : atom) (ty : type_t) (len : Z) (tl : list Z) :
  ty <> EMPTY -> 0 <= len < 16777216 ->
  decode_header this (header ty LONG len ++ tl)
  = Ok (set_type (set_enc this LONG) ty, 4, len).
Proof.
  intros Hty Hlen.
  assert (Hsplit :
    Z.shiftl (Z.shiftl (Z.land 0xff (Z.shiftr len 16)) 8
              + Z.land 0xff (Z.shiftr len 8)) 8 + Z.land 0xff len = len).
  { rewrite !land_0xff, !Z.shiftl_mul_pow2, !Z.shiftr_div_pow2 by lia.
    change (2 ^ 8) with 256. change (2 ^ 16) with 65536.
    assert (len / 65536 = len / 256 / 256) by (rewrite Z.div_div by lia; reflexivity).
    pose proof (Z.div_mod len 256). pose proof (Z.div_mod (len / 256) 256).
    assert (0 <= len / 65536 < 256)
      by (split; [apply Z.div_pos; lia | apply Z.div_lt_upper_bound; lia]).
    rewrite (Z.mod_small (len / 65536)) by lia. lia. }
  unfold header. cbn [app].
  generalize dependent (Z.land 0xff len).
  generalize dependent (Z.land 0xff (Z.shiftr len 8)).
  generalize dependent (Z.land 0xff (Z.shiftr len 16)).
  intros b1 b2 b3 Hsplit. rewrite <- Hsplit. clear Hsplit Hlen len.
  unfold decode_header.
  rewrite (decode_check_size_ok _ 4) by (cbn [length]; lia).
  destruct ty; try congruence; reflexivity.
Qed.

Lemma decode_header_ok (this : atom) (ty : type_t) (enc : enc_t) (len : Z) (tl : list Z) :
  ty <> EMPTY -> 0 <= len < len_bound enc ->
  decode_header this (header ty enc len ++ tl)
  = Ok (set_type (set_enc this enc) ty,
        Z.of_nat (length (header ty enc len)), len).
Proof.
  intros Hty Hlen. destruct enc; cbn [len_bound] in Hlen; try lia.
  - apply decode_header_short; assumption.
  - apply decode_header_medium; assumption.
  - apply decode_header_long; assumption.
Qed.

(** ** Integer payloads *)

Lemma firstn_app_exact {A : Type} (l r : list A) (n : nat) :
  n = length l -> firstn n (l ++ r) = l.
Proof.
  intros ->. rewrite firstn_app, Nat.sub_diag, firstn_all, firstn_O, app_nil_r.
  reflexivity.
Qed.

Lemma skipn_app_exact {A : Type} (l r : list A) (n : nat) :
  n = length l -> skipn n (l ++ r) = r.
Proof.
  intros ->. rewrite skipn_app, Nat.sub_diag, skipn_all. reflexivity.
Qed.

Lemma be_to_Z_zeroes (s : nat) : be_to_Z (repeat 0 s) = 0.
Proof. pose proof (be_to_Z_repeat 0 s). lia. Qed.

Lemma be_to_Z_ones (s : nat) : be_to_Z (repeat 0xff s) = 256 ^ Z.of_nat s - 1.
Proof. pose proof (be_to_Z_repeat 0xff s). lia. Qed.

Lemma pow256_split (n : nat) :
  (n <= 8)%nat -> 256 ^ Z.of_nat (8 - n) * 256 ^ Z.of_nat n = 2 ^ 64.
Proof.
  intros Hn. rewrite <- Z.pow_add_r by lia.
  replace (Z.of_nat (8 - n) + Z.of_nat n) with 8 by lia. reflexivity.
Qed.

Lemma top_byte (k : nat) (uv : Z) :
  (k <= 7)%nat -> 0 <= uv < 2 ^ 64 ->
  (2 * uv < 256 * 256 ^ Z.of_nat k -> (uv / 256 ^ Z.of_nat k) mod 256 < 128) /\
  (2 ^ 64 - 128 * 256 ^ Z.of_nat k <= uv -> 128 <= (uv / 256 ^ Z.of_nat k) mod 256).
Proof.
  intros Hk Huv.
  remember (256 ^ Z.of_nat k) as P eqn:HP.
  change (2 ^ 64) with 18446744073709551616 in *.
  each_nat k 8%nat; vm_compute in HP; subst P;
    (split; intros H; Z.div_mod_to_equations; lia).
Qed.

Lemma decode_int_ok (this : atom) (n : nat) (uv : Z) (rest : list Z) :
  (1 <= n <= 8)%nat -> 0 <= uv < 2 ^ 64 ->
  int_fits (data_type this) n uv ->
  decode_int this (be_bytes n uv ++ rest) (Z.of_nat n)
  = Ok (set_val (set_skip this (8 - Z.of_nat n)) uv).
Proof.
  intros Hn Huv Hfit. unfold decode_int.
  destruct (Z.eqb_spec (Z.of_nat n) 0) as [|_]; [lia|].
  destruct (Z.gtb_spec (Z.of_nat n) 8) as [|_]; [lia|].
  cbn [orb]. do 2 f_equal.
  rewrite Nat2Z.id, firstn_app_exact by (rewrite be_bytes_length; reflexivity).
  cbn [int_skip set_skip data_type].
  replace (Z.to_nat (8 - Z.of_nat n)) with (8 - n)%nat by lia.
  rewrite be_to_Z_app, be_bytes_length, be_to_Z_be_bytes.
  pose proof (pow256_split n ltac:(lia)) as Hsplit.
  assert (Hp : 0 < 256 ^ Z.of_nat n) by (apply Z.pow_pos_nonneg; lia).
  assert (Hq : 0 < 256 ^ Z.of_nat (8 - n)) by (apply Z.pow_pos_nonneg; lia).
  destruct n as [|k]; [lia|].
  rewrite be_bytes_head.
  assert (Hb : 0 <= (uv / 256 ^ Z.of_nat k) mod 256 < 256)
    by (apply Z.mod_pos_bound; lia).
  rewrite (land_0x80 _ Hb).
  destruct (top_byte k uv ltac:(lia) Huv) as [Hlow Hhigh].
  assert (Hk : 256 ^ Z.of_nat (S k) = 256 * 256 ^ Z.of_nat k)
    by (rewrite Nat2Z.inj_succ, Z.pow_succ_r by lia; reflexivity).
  change (2 ^ 63) with 9223372036854775808 in *.
  change (2 ^ 64) with 18446744073709551616 in *.
  unfold int_fits in Hfit.
  change (2 ^ 63) with 9223372036854775808 in Hfit.
  change (2 ^ 64) with 18446744073709551616 in Hfit.
  assert (Hz := be_to_Z_zeroes (8 - S k)).
  assert (Ho := be_to_Z_ones (8 - S k)).
  set (Pn := 256 ^ Z.of_nat (S k)) in *.
  set (Pk := 256 ^ Z.of_nat k) in *.
  set (Q := 256 ^ Z.of_nat (8 - S k)) in *.
  set (b := (uv / Pk) mod 256) in *.
  clearbody Pn Pk Q b.
  destruct (data_type this); try contradiction.
  - rewrite Hz, Z.mod_small by lia. lia.
  - cbv zeta in Hfit.
    destruct (Z.ltb_spec uv 9223372036854775808) as [Hpos|Hneg].
    + destruct (Z.ltb_spec b 128) as [_|Hge]; [| exfalso; lia].
      rewrite Hz, Z.mod_small by lia. lia.
    + destruct (Z.ltb_spec b 128) as [Hlt|_]; [exfalso; lia |].
      rewrite Ho.
      rewrite <- (Z.mod_unique uv Pn (Q - 1) (uv - (18446744073709551616 - Pn)));
        [lia | left; lia | lia].
Qed.

(** ** Round trip *)

Lemma encode_bytes_split (a : atom) :
  data_type a <> EMPTY -> data_enc a <> TINY -> data_enc a <> NONE ->
  encode_bytes a
  = (header (data_type a) (data_enc a) (payload_len a) ++ payload a,
     Z.of_nat (length (header (data_type a) (data_enc a) (payload_len a)))
     + payload_len a).
Proof.
  intros Hty Htiny Hnone. destruct a as [ty enc s uv bs]. cbn in *.
  destruct ty; try congruence; destruct enc; try congruence; reflexivity.
Qed.

Lemma header_first (ty : type_t) (enc : enc_t) (len : Z) :
  ty <> EMPTY -> 0 <= len < len_bound enc ->
  exists h tl, header ty enc len = h :: tl /\ 0x80 <= h < 0xe4.
Proof.
  intros Hty Hlen. destruct enc; cbn [len_bound] in Hlen; try lia.
  - eexists; eexists; split; [reflexivity|].
    revert len Hlen. apply (Z_small_cases 16). intros k Hk.
    destruct ty; try congruence; (each_nat k 16%nat; vm_compute; intuition congruence).
  - eexists; eexists; split; [reflexivity|].
    assert (Hq : 0 <= Z.shiftr len 8 < Z.of_nat 8).
    { rewrite Z.shiftr_div_pow2 by lia. change (2 ^ 8) with 256.
      split; [apply Z.div_pos; lia | apply Z.div_lt_upper_bound; lia]. }
    revert Hq. generalize (Z.shiftr len 8). apply (Z_small_cases 8). intros k Hk.
    destruct ty; try congruence; (each_nat k 8%nat; vm_compute; intuition congruence).
  - eexists; eexists; split; [reflexivity|].
    destruct ty; try congruence; vm_compute; intuition congruence.
Qed.

Lemma decode_bytes_framed (this : atom) (h : Z) (tl : list Z) :
  0x80 <= h < 0xe4 ->
  decode_bytes this (h :: tl)
  = ('(this, head_bytes, count) <- decode_header this (h :: tl) ;;
     decode_check_size (Z.of_nat (length (h :: tl))) (head_bytes + count) ;;;
     match data_type this with
     | UINT | INT =>
         this <- decode_int this (skipn (Z.to_nat head_bytes) (h :: tl)) count ;;
         Ok (this, head_bytes + count)
     | BYTES =>
         Ok (set_bytes this (firstn (Z.to_nat count)
                                    (skipn (Z.to_nat head_bytes) (h :: tl))),
             head_bytes + count)
     | EMPTY => Ok (this, head_bytes + count)
     end).
Proof.
  intros Hh. unfold decode_bytes.
  rewrite decode_check_size_ok by (cbn [length]; lia).
  cbn [bind nth].
  destruct (Z.eqb_spec h EMPTY_TOK) as [E|_]; [unfold EMPTY_TOK in E; lia|].
  destruct (Z.ltb_spec h SHORT_TOK) as [E|_]; [unfold SHORT_TOK in E; lia|].
  reflexivity.
Qed.

Lemma forallb_combine_refl (l : list Z) :
  forallb (fun p => fst p =? snd p) (combine l l) = true.
Proof.
  induction l as [|x l IH]; [reflexivity|].
  cbn. rewrite Z.eqb_refl, IH. reflexivity.
Qed.

Lemma pow2_8n (n : nat) : 2 ^ (8 * Z.of_nat n) = 256 ^ Z.of_nat n.
Proof. rewrite Z.pow_mul_r by lia. reflexivity. Qed.

(** A well-formed multi-byte integer atom fits its payload window. *)
Lemma wf_int_fits (a : atom) :
  wf_atom a = true ->
  (data_type a = UINT \/ data_type a = INT) ->
  data_enc a <> TINY ->
  0 <= int_skip a <= 7 /\ 0 <= uint_val a < 2 ^ 64 /\ data_enc a <> NONE /\
  int_fits (data_type a) (Z.to_nat (8 - int_skip a)) (uint_val a).
Proof.
  intros Hwf Hty Htiny. destruct a as [ty enc s uv bs].
  unfold wf_atom in Hwf.
  cbn [data_type data_enc int_skip uint_val bytes] in *.
  assert (Hpow : 2 ^ (8 * (8 - s)) = 256 ^ Z.of_nat (Z.to_nat (8 - s)) \/ ~ 0 <= s <= 7).
  { destruct (Z_le_dec 0 s); [|right; lia]. destruct (Z_le_dec s 7); [|right; lia].
    left. rewrite <- pow2_8n. f_equal. lia. }
  assert (Hhalf : 2 * 2 ^ (8 * (8 - s) - 1) = 2 ^ (8 * (8 - s)) \/ ~ 0 <= s <= 7).
  { destruct (Z_le_dec 0 s); [|right; lia]. destruct (Z_le_dec s 7); [|right; lia].
    left. rewrite <- Z.pow_succ_r by lia. f_equal. lia. }
  destruct Hty as [-> | ->].
  - destruct enc; try congruence;
      repeat (apply andb_prop in Hwf; destruct Hwf as [Hwf ?]);
      repeat match goal with
             | H : (_ <=? _) = true |- _ => apply Z.leb_le in H
             | H : (_ <? _) = true |- _ => apply Z.ltb_lt in H
             end;
      (repeat split; try lia; try congruence);
      cbn [int_fits]; destruct Hpow as [<- | ?]; lia.
  - unfold int_val in Hwf. cbn [uint_val] in Hwf.
    destruct enc; try congruence;
      repeat (apply andb_prop in Hwf; destruct Hwf as [Hwf ?]);
      repeat match goal with
             | H : (_ <=? _) = true |- _ => apply Z.leb_le in H
             | H : (_ <? _) = true |- _ => apply Z.ltb_lt in H
             end;
      (repeat split; try lia; try congruence);
      cbn [int_fits]; cbv zeta;
      destruct Hpow as [<- | ?]; try lia;
      destruct Hhalf as [<- | ?]; lia.
Qed.

Lemma int_payload (s uv : Z) :
  0 <= s <= 7 ->
  firstn (Z.to_nat (8 - s)) (skipn (Z.to_nat s) (be_bytes 8 uv))
  = be_bytes (Z.to_nat (8 - s)) uv.
Proof.
  intros Hs.
  replace 8%nat with (Z.to_nat s + Z.to_nat (8 - s))%nat at 1 by lia.
  rewrite be_bytes_split.
  rewrite skipn_app_exact by (rewrite be_bytes_length; reflexivity).
  apply firstn_all2. rewrite be_bytes_length. lia.
Qed.

Lemma tiny_uint_round_trip (this : atom) (s uv : Z) (bs rest : list Z) :
  0 <= uv < 0x40 ->
  let a := mk_atom UINT TINY s uv bs in
  encode_bytes a = ([uv], 1) /\
  exists a', decode_bytes this ([uv] ++ rest) = Ok (a', 1) /\ atom_eq a' a = true.
Proof.
  intros Huv a. subst a. revert uv Huv.
  apply (Z_small_cases 64). intros k Hk.
  unfold decode_bytes. rewrite decode_check_size_ok by (cbn [length app]; lia).
  each_nat k 64%nat; (split; [reflexivity | eexists; split; reflexivity]).
Qed.

Lemma tiny_int_round_trip (this : atom) (s uv : Z) (bs rest : list Z) :
  0 <= uv < 0x20 \/ 2 ^ 64 - 0x20 <= uv < 2 ^ 64 ->
  let a := mk_atom INT TINY s uv bs in
  exists b, encode_bytes a = ([b], 1) /\
  exists a', decode_bytes this ([b] ++ rest) = Ok (a', 1) /\ atom_eq a' a = true.
Proof.
  intros Huv a. subst a.
  unfold decode_bytes.
  assert (Hc : forall b, decode_check_size (Z.of_nat (length ([b] ++ rest))) 1 = Ok tt)
    by (intros b; apply decode_check_size_ok; cbn [length app]; lia).
  destruct Huv as [Huv | Huv].
  - revert uv Huv. apply (Z_small_cases 32). intros k Hk.
    each_nat k 32%nat;
      (eexists; split; [reflexivity | rewrite Hc; eexists; split; reflexivity]).
  - replace uv with (2 ^ 64 - 0x20 + (uv - (2 ^ 64 - 0x20))) by lia.
    assert (Hd : 0 <= uv - (2 ^ 64 - 0x20) < Z.of_nat 32) by lia.
    revert Hd. generalize (uv - (2 ^ 64 - 0x20)). clear Huv uv.
    apply (Z_small_cases 32). intros k Hk.
    each_nat k 32%nat;
      (eexists; split; [reflexivity | rewrite Hc; eexists; split; reflexivity]).
Qed.

Lemma wf_bytes_len (a : atom) :
  wf_atom a = true -> data_type a = BYTES ->
  data_enc a <> TINY /\ data_enc a <> NONE /\
  0 <= Z.of_nat (length (bytes a)) < len_bound (data_enc a).
Proof.
  intros Hwf Hty. unfold wf_atom in Hwf. rewrite Hty in Hwf.
  apply andb_prop in Hwf. destruct Hwf as [_ Hwf].
  destruct (data_enc a); try discriminate;
    apply Z.ltb_lt in Hwf; cbn [len_bound]; repeat split; try congruence; lia.
Qed.

Lemma header_length (ty : type_t) (enc : enc_t) (len : Z) :
  enc <> TINY -> enc <> NONE ->
  Z.of_nat (length (header ty enc len))
  = get_header_size (mk_atom ty enc 0 0 []).
Proof. intros H1 H2. destruct enc; try congruence; reflexivity. Qed.

Lemma type_eqb_refl (t : type_t) : type_eqb t t = true.
Proof. destruct t; reflexivity. Qed.

Lemma enc_eqb_refl (e : enc_t) : enc_eqb e e = true.
Proof. destruct e; reflexivity. Qed.

Lemma wf_payload_len (a : atom) :
  wf_atom a = true -> data_type a <> EMPTY -> data_enc a <> TINY ->
  data_enc a <> NONE /\ 0 <= payload_len a < len_bound (data_enc a).
Proof.
  intros Hwf Hty Htiny. unfold payload_len.
  destruct (data_type a) eqn:E; try congruence.
  - destruct (wf_int_fits a Hwf (or_introl E) Htiny) as (Hs & _ & Hn & _).
    split; [exact Hn|]. destruct (data_enc a); cbn [len_bound]; try congruence; lia.
  - destruct (wf_int_fits a Hwf (or_intror E) Htiny) as (Hs & _ & Hn & _).
    split; [exact Hn|]. destruct (data_enc a); cbn [len_bound]; try congruence; lia.
  - destruct (wf_bytes_len a Hwf E) as (_ & Hn & Hl). split; assumption.
Qed.

Lemma framed_round_trip (this a : atom) (rest : list Z) :
  wf_atom a = true -> data_type a <> EMPTY -> data_enc a <> TINY ->
  snd (encode_bytes a) = size a /\
  Z.of_nat (length (fst (encode_bytes a))) = size a /\
  exists a',
    decode_bytes this (fst (encode_bytes a) ++ rest) = Ok (a', size a) /\
    atom_eq a' a = true.
Proof.
  intros Hwf Hty Htiny.
  destruct (wf_payload_len a Hwf Hty Htiny) as [Hnone Hlen].
  rewrite (encode_bytes_split a Hty Htiny Hnone). cbn [fst snd].
  set (hdr := header (data_type a) (data_enc a) (payload_len a)).
  assert (Hhs : Z.of_nat (length hdr) = get_header_size a).
  { unfold hdr. rewrite header_length by assumption.
    unfold get_header_size. reflexivity. }
  assert (Hpl : Z.of_nat (length (payload a)) = payload_len a).
  { unfold payload, payload_len.
    destruct (data_type a) eqn:E; try congruence; try reflexivity;
      (destruct (wf_int_fits a Hwf ltac:(auto) Htiny) as (Hs & _);
       rewrite int_payload, be_bytes_length by lia; lia). }
  assert (Hsize : size a = Z.of_nat (length hdr) + payload_len a).
  { rewrite Hhs. unfold size, payload_len, get_header_size.
    destruct (data_type a); try congruence;
      destruct (data_enc a); try congruence; reflexivity. }
  rewrite Hsize. split; [reflexivity|].
  split; [rewrite length_app; lia|].
  destruct (header_first (data_type a) (data_enc a) (payload_len a) Hty Hlen)
    as (h & tl & Hh & Hrange).
  pose proof (decode_header_ok this (data_type a) (data_enc a) (payload_len a)
                (payload a ++ rest) Hty Hlen) as Hdec.
  fold hdr in Hh, Hdec. rewrite <- app_assoc.
  assert (Hframe := decode_bytes_framed this h (tl ++ payload a ++ rest) Hrange).
  change (h :: tl ++ payload a ++ rest) with ((h :: tl) ++ payload a ++ rest) in Hframe.
  rewrite <- Hh in Hframe. rewrite Hframe, Hdec. cbn [bind].
  rewrite decode_check_size_ok by (rewrite !length_app; lia). cbn [bind].
  rewrite Nat2Z.id, skipn_app_exact by reflexivity.
  cbn [data_type set_type].
  destruct (data_type a) eqn:E; try congruence.
  - destruct (wf_int_fits a Hwf ltac:(auto) Htiny) as (Hs & Huv & _ & Hfit).
    assert (Hp : payload a = be_bytes (Z.to_nat (8 - int_skip a)) (uint_val a))
      by (unfold payload; rewrite E; apply int_payload; lia).
    assert (Hl : payload_len a = Z.of_nat (Z.to_nat (8 - int_skip a)))
      by (unfold payload_len; rewrite E; lia).
    rewrite Hp, Hl.
    rewrite decode_int_ok;
      [ | lia | exact Huv | cbn [data_type set_type]; rewrite <- E; exact Hfit ].
    cbn [bind]. eexists. split; [reflexivity|].
    unfold atom_eq. cbn [data_type data_enc uint_val set_val set_skip set_type set_enc].
    rewrite E, enc_eqb_refl, Z.eqb_refl. reflexivity.
  - destruct (wf_int_fits a Hwf ltac:(auto) Htiny) as (Hs & Huv & _ & Hfit).
    assert (Hp : payload a = be_bytes (Z.to_nat (8 - int_skip a)) (uint_val a))
      by (unfold payload; rewrite E; apply int_payload; lia).
    assert (Hl : payload_len a = Z.of_nat (Z.to_nat (8 - int_skip a)))
      by (unfold payload_len; rewrite E; lia).
    rewrite Hp, Hl.
    rewrite decode_int_ok;
      [ | lia | exact Huv | cbn [data_type set_type]; rewrite <- E; exact Hfit ].
    cbn [bind]. eexists. split; [reflexivity|].
    unfold atom_eq. cbn [data_type data_enc uint_val set_val set_skip set_type set_enc].
    rewrite E, enc_eqb_refl, Z.eqb_refl. reflexivity.
  - assert (Hp : payload a = bytes a) by (unfold payload; rewrite E; reflexivity).
    assert (Hl : payload_len a = Z.of_nat (length (bytes a)))
      by (unfold payload_len; rewrite E; reflexivity).
    rewrite Hp, Hl.
    rewrite Nat2Z.id, firstn_app_exact by reflexivity.
    eexists. split; [reflexivity|].
    unfold atom_eq. cbn [data_type data_enc bytes set_bytes set_type set_enc].
    rewrite E, enc_eqb_refl, Nat.eqb_refl, forallb_combine_refl. reflexivity.
Qed.

Lemma wf_round_trip (this a : atom) (rest : list Z) :
  wf_atom a = true ->
  snd (encode_bytes a) = size a /\
  Z.of_nat (length (fst (encode_bytes a))) = size a /\
  exists a',
    decode_bytes this (fst (encode_bytes a) ++ rest) = Ok (a', size a) /\
    atom_eq a' a = true.
Proof.
  intros Hwf.
  destruct (data_type a) eqn:Hty.
  - (* Empty *)
    destruct a as [ty enc s uv bs]. cbn in Hty. subst ty.
    unfold wf_atom in Hwf. cbn in Hwf. destruct enc; try discriminate.
    cbn. repeat split.
    unfold decode_bytes. rewrite decode_check_size_ok by (cbn [length]; lia).
    eexists. split; reflexivity.
  - (* Unsigned integer *)
    destruct (data_enc a) eqn:Henc;
      try (apply framed_round_trip; [exact Hwf | congruence | congruence]).
    destruct a as [ty enc s uv bs]. cbn in Hty, Henc. subst.
    unfold wf_atom in Hwf. cbn in Hwf.
    apply andb_prop in Hwf. destruct Hwf as [Hwf H3].
    apply andb_prop in Hwf. destruct Hwf as [H1 H2].
    apply Z.leb_le in H1. apply Z.ltb_lt in H3.
    destruct (tiny_uint_round_trip this s uv bs rest ltac:(lia)) as [He Hd].
    rewrite He. cbn [fst snd length size data_type data_enc].
    repeat split. exact Hd.
  - (* Signed integer *)
    destruct (data_enc a) eqn:Henc;
      try (apply framed_round_trip; [exact Hwf | congruence | congruence]).
    destruct a as [ty enc s uv bs]. cbn in Hty, Henc. subst.
    unfold wf_atom, int_val in Hwf. cbn in Hwf.
    apply andb_prop in Hwf. destruct Hwf as [Hwf H3].
    apply andb_prop in Hwf. destruct Hwf as [H1 H2].
    apply andb_prop in H3. destruct H3 as [H3 H4].
    apply Z.leb_le in H1, H3. apply Z.ltb_lt in H2, H4.
    assert (Huv : 0 <= uv < 0x20 \/ 2 ^ 64 - 0x20 <= uv < 2 ^ 64).
    { change (2 ^ 64) with 18446744073709551616 in *.
      destruct (Z.ltb_spec uv 9223372036854775808); lia. }
    destruct (tiny_int_round_trip this s uv bs rest Huv) as (b & He & Hd).
    rewrite He. cbn [fst snd length size data_type data_enc].
    repeat split. exact Hd.
  - (* Bytes *)
    destruct (data_enc a) eqn:Henc;
      try (apply framed_round_trip; [exact Hwf | congruence | congruence]).
    destruct (wf_bytes_len a Hwf Hty) as [Ht _]. congruence.
Qed.

(** C1. Atom round trip: for every well-formed atom [a], [encode_bytes]
    writes and reports exactly [size a] bytes, and [decode_bytes] (run on
    any atom object [this], with any bytes [rest] following the encoding
    in the buffer) yields an atom that [operator==] finds equal to [a],
    encoding class included, having consumed exactly [size a] bytes. *)
Theorem atom_round_trip (this a : atom) (rest : list Z) :
  wf_atom a = true ->
  snd (encode_bytes a) = size a /\
  Z.of_nat (length (fst (encode_bytes a))) = size a /\
  exists a',
    decode_bytes this (fst (encode_bytes a) ++ rest) = Ok (a', size a) /\
    atom_eq a' a = true.
Proof. exact (wf_round_trip this a rest). Qed.

Lemma atom_round_trip_witness :
  let a := mk_atom INT SHORT 6 (2 ^ 64 - 129) [] in
  wf_atom a = true /\
  fst (encode_bytes a) = [0x92; 0xff; 0x7f] /\
  exists a',
    decode_bytes atom_default (fst (encode_bytes a) ++ [0xf1]) = Ok (a', size a) /\
    atom_eq a' a = true.
Proof.
  split; [reflexivity|]. split; [reflexivity|].
  exact (proj2 (proj2 (atom_round_trip atom_default
                         (mk_atom INT SHORT 6 (2 ^ 64 - 129) []) [0xf1] eq_refl))).
Defined.

Lemma combine_eqb_eq (l1 l2 : list Z) :
  length l1 = length l2 ->
  forallb (fun p => fst p =? snd p) (combine l1 l2) = true -> l1 = l2.
Proof.
  revert l2. induction l1 as [|x l1 IH]; intros [|y l2] Hl Hf;
    try discriminate Hl; [reflexivity|].
  cbn in Hf. apply andb_prop in Hf. destruct Hf as [Hxy Hf].
  apply Z.eqb_eq in Hxy. subst y. f_equal. apply IH; [|exact Hf].
  cbn in Hl. lia.
Qed.

Lemma atom_eq_bytes (a' a : atom) :
  atom_eq a' a = true -> data_type a = BYTES ->
  data_type a' = BYTES /\ data_enc a' = data_enc a /\ bytes a' = bytes a.
Proof.
  intros He Hty. unfold atom_eq in He.
  destruct (data_type a') eqn:Hty'; rewrite Hty in He; cbn [type_eqb andb] in He;
    try discriminate He.
  destruct (enc_eqb (data_enc a') (data_enc a)) eqn:Henc; [|discriminate He].
  destruct (Nat.eqb_spec (length (bytes a')) (length (bytes a))) as [Hl|];
    [|discriminate He].
  repeat split.
  - destruct (data_enc a'), (data_enc a); (reflexivity || discriminate Henc).
  - apply combine_eqb_eq; assumption.
Qed.

(** C2. UID distinction: for every 64-bit [V], the atom built as a UID
    from [V] is a [BYTES] atom in [SHORT] encoding whose 8 bytes are [V]
    big-endian; it encodes to [0xA8] followed by those bytes (for
    [V = 0x0000000600000000] the nine bytes [A8 00 00 00 06 00 00 00 00]);
    [get_uid] returns exactly [V] and [get_uint] throws, on the atom and
    on the atom decoded from its encoding alike. *)
Theorem uid_distinction (this : atom) (V : Z) :
  0 <= V < 2 ^ 64 ->
  exists a,
    new_uid this V = Ok a /\
    data_type a = BYTES /\ data_enc a = SHORT /\
    length (bytes a) = 8%nat /\ bytes a = be_bytes 8 V /\
    wf_atom a = true /\
    fst (encode_bytes a) = 0xa8 :: be_bytes 8 V /\
    (V = 0x0000000600000000 ->
     fst (encode_bytes a) = [0xa8; 0x00; 0x00; 0x00; 0x06; 0x00; 0x00; 0x00; 0x00]) /\
    get_uid a = Ok V /\
    get_uint a = Throw "Atom is not unsigned integer" /\
    (forall receiver rest, exists a',
       decode_bytes receiver (fst (encode_bytes a) ++ rest) = Ok (a', 9) /\
       data_type a' = BYTES /\ length (bytes a') = 8%nat /\
       get_uid a' = Ok V /\
       get_uint a' = Throw "Atom is not unsigned integer").
Proof.
  intros HV. set (a := mk_atom BYTES SHORT (int_skip this) V (be_bytes 8 V)).
  assert (Hwf : wf_atom a = true).
  { unfold wf_atom, a. cbn [data_type data_enc bytes].
    rewrite be_bytes_byte. reflexivity. }
  assert (Huid : forall x, data_type x = BYTES -> data_enc x = SHORT ->
                           bytes x = be_bytes 8 V -> get_uid x = Ok V).
  { intros x Ht He Hb. unfold get_uid. rewrite Ht, He, Hb.
    rewrite be_bytes_length. cbn [Nat.eqb].
    rewrite firstn_all2 by (rewrite be_bytes_length; lia).
    rewrite be_to_Z_be_bytes. f_equal. apply Z.mod_small. exact HV. }
  exists a. split; [reflexivity|].
  split; [reflexivity|]. split; [reflexivity|].
  split; [apply be_bytes_length|]. split; [reflexivity|].
  split; [exact Hwf|]. split; [reflexivity|].
  split; [intros ->; reflexivity|].
  split; [apply Huid; reflexivity|]. split; [reflexivity|].
  intros receiver rest.
  destruct (wf_round_trip receiver a rest Hwf) as (_ & _ & a' & Hdec & Heq).
  destruct (atom_eq_bytes a' a Heq eq_refl) as (Ht & He & Hb).
  exists a'. split; [exact Hdec|]. split; [exact Ht|].
  split; [rewrite Hb; apply be_bytes_length|].
  split; [apply Huid; assumption|].
  unfold get_uint. rewrite Ht. reflexivity.
Qed.

Lemma uid_distinction_witness :
  exists a,
    new_uid atom_default 0x0000000600000000 = Ok a /\
    fst (encode_bytes a) = [0xa8; 0x00; 0x00; 0x00; 0x06; 0x00; 0x00; 0x00; 0x00] /\
    get_uid a = Ok 0x0000000600000000 /\
    get_uint a = Throw "Atom is not unsigned integer".
Proof.
  destruct (uid_distinction atom_default 0x0000000600000000 ltac:(lia))
    as (a & Hnew & _ & _ & _ & _ & _ & _ & Henc & Huid & Huint & _).
  exists a. repeat split; auto.
Defined.

(** The byte [0x3F] decodes as the unsigned tiny atom 63: a tiny atom is
    signed only when bit 6 of its byte is set. *)
Lemma tiny_0x3f_is_unsigned (this : atom) (rest : list Z) :
  exists a, decode_bytes this (0x3f :: rest) = Ok (a, 1) /\
            data_type a = UINT /\ data_enc a = TINY /\ uint_val a = 63.
Proof.
  unfold decode_bytes. rewrite decode_check_size_ok by (cbn [length]; lia).
  eexists. split; [reflexivity|]. repeat split.
Qed.

(** C3 as stated fails: the signed atom [Int(-1)] does not encode to
    [0x3F]. *)
Lemma tiny_int_minus_one_counterexample :
  ~ (fst (encode_bytes (new_int atom_default (-1))) = [0x3f] /\
     fst (encode_bytes (new_int atom_default (-32))) = [0x20]).
Proof. intros [H _]. vm_compute in H. discriminate H. Qed.

(** C3 (amended). Tiny-integer encodings: the unsigned atom [Uint(5)]
    encodes to the single byte [0x05]; the signed atoms carry the sign
    flag in bit 6, so [Int(-1)] encodes to [0x7F] and [Int(-32)] to
    [0x60]. *)
Theorem tiny_integer_encodings (this : atom) :
  (exists a, new_uint this 5 = Ok a /\ encode_bytes a = ([0x05], 1)) /\
  encode_bytes (new_int this (-1)) = ([0x7f], 1) /\
  encode_bytes (new_int this (-32)) = ([0x60], 1).
Proof.
  split; [eexists; split; reflexivity|]. split; reflexivity.
Qed.

(** ** The constructors build well-formed atoms *)

Lemma nth_be_bytes (n i : nat) (v : Z) :
  (i < n)%nat ->
  nth i (be_bytes n v) 0 = (v / 256 ^ Z.of_nat (n - 1 - i)) mod 256.
Proof.
  intros Hi.
  replace n with (i + S (n - 1 - i))%nat at 1 by lia.
  rewrite be_bytes_split, app_nth2 by (rewrite be_bytes_length; lia).
  rewrite be_bytes_length, Nat.sub_diag.
  rewrite <- (app_nil_r (be_bytes (S (n - 1 - i)) v)).
  apply be_bytes_head.
Qed.

Lemma zero_step (k : nat) (v : Z) :
  let P := 256 ^ Z.of_nat k in
  0 <= v < 256 * P -> (v / P) mod 256 = 0 -> v < P.
Proof.
  intros P [H0 Hv] Hb.
  assert (Hp : 0 < P) by (apply Z.pow_pos_nonneg; lia).
  assert (Hq : 0 <= v / P < 256)
    by (split; [apply Z.div_pos; lia | apply Z.div_lt_upper_bound; lia]).
  rewrite Z.mod_small in Hb by exact Hq.
  apply Z.div_small_iff in Hb; lia.
Qed.

Lemma skip_zeroes_spec (fuel j : nat) (v : Z) :
  (j <= 7)%nat -> (9 <= fuel + j)%nat ->
  0 < v < 256 ^ Z.of_nat (8 - j) ->
  let s := skip_zeroes fuel (be_bytes 8 v) (Z.of_nat j) in
  Z.of_nat j <= s <= 7 /\ v < 256 ^ (8 - s).
Proof.
  revert j. induction fuel as [|fuel IH]; intros j Hj Hfuel Hv; [lia|].
  cbn [skip_zeroes]. rewrite Nat2Z.id.
  destruct (Z.ltb_spec (Z.of_nat j) 8); [|lia]. cbn [andb].
  rewrite nth_be_bytes by lia.
  destruct (Z.eqb_spec ((v / 256 ^ Z.of_nat (8 - 1 - j)) mod 256) 0) as [E|E].
  - assert (Hlt : v < 256 ^ Z.of_nat (8 - 1 - j)).
    { apply zero_step; [|exact E].
      rewrite <- Z.pow_succ_r, <- Nat2Z.inj_succ by lia.
      replace (S (8 - 1 - j)) with (8 - j)%nat by lia. lia. }
    assert (Hj6 : (j <= 6)%nat).
    { destruct (Nat.eq_dec j 7) as [->|]; [|lia].
      change (256 ^ Z.of_nat (8 - 1 - 7)) with 1 in Hlt. lia. }
    replace (Z.of_nat j + 1) with (Z.of_nat (S j)) by lia.
    destruct (IH (S j) ltac:(lia) ltac:(lia)) as [Hs Hb].
    { replace (8 - S j)%nat with (8 - 1 - j)%nat by lia. lia. }
    split; [lia | exact Hb].
  - split; [lia|]. replace (8 - Z.of_nat j) with (Z.of_nat (8 - j)) by lia. lia.
Qed.

Lemma new_uint_wf (this : atom) (v : Z) :
  0 <= v < 2 ^ 64 ->
  exists a, new_uint this v = Ok a /\ wf_atom a = true /\
            data_type a = UINT /\ uint_val a = v /\ bytes a = [].
Proof.
  intros Hv. unfold new_uint, atom_uint.
  destruct (Z.ltb_spec v 0x40) as [Ht|Ht].
  - eexists. split; [reflexivity|].
    cbn [data_type uint_val bytes set_skip set_enc set_val set_type set_bytes].
    repeat split. unfold wf_atom. cbn.
    repeat (apply andb_true_intro; split);
      first [apply Z.leb_le | apply Z.ltb_lt]; lia.
  - eexists. split; [reflexivity|].
    cbn [data_type uint_val bytes set_skip set_enc set_val set_type set_bytes].
    repeat split. unfold wf_atom.
    cbn [data_type data_enc uint_val int_skip set_skip set_enc set_val set_type set_bytes].
    destruct (skip_zeroes_spec 9 0 v ltac:(lia) ltac:(lia)) as [Hs Hb].
    { change (256 ^ Z.of_nat (8 - 0)) with (2 ^ 64). lia. }
    change (Z.of_nat 0) with 0 in Hs, Hb.
    set (s := skip_zeroes 9 (be_bytes 8 v) 0) in *.
    replace (2 ^ (8 * (8 - s))) with (256 ^ (8 - s))
      by (rewrite Z.pow_mul_r by lia; reflexivity).
    repeat (apply andb_true_intro; split);
      first [apply Z.leb_le | apply Z.ltb_lt]; lia.
Qed.

Lemma new_bin_wf (this : atom) (data : list Z) :
  forallb is_byte data = true ->
  Z.of_nat (length data) < 16777216 ->
  exists a, new_bin this data = Ok a /\ wf_atom a = true /\
            data_type a = BYTES /\ bytes a = data.
Proof.
  intros Hb Hl. unfold new_bin, atom_bin, pick_encoding.
  destruct (Z.ltb_spec (Z.of_nat (length data)) 16) as [H1|H1];
    [| destruct (Z.ltb_spec (Z.of_nat (length data)) 2048) as [H2|H2];
       [| destruct (Z.ltb_spec (Z.of_nat (length data)) 16777216) as [H3|H3]; [|lia]]];
    (eexists; split; [reflexivity|]; repeat split;
     unfold wf_atom;
     cbn [data_type data_enc bytes set_bytes set_enc set_type];
     rewrite Hb; apply Z.ltb_lt; assumption).
Qed.

Lemma land_0x80_set (b : Z) :
  0 <= b < 256 -> (Z.land b 0x80 =? 0x80) = negb (b <? 128).
Proof.
  intros Hb. apply eqb_prop.
  apply (Z_range_forall
           (fun b => Bool.eqb (Z.land b 0x80 =? 0x80) (negb (b <? 128))) 256);
    [vm_compute; reflexivity | exact Hb].
Qed.

(** Dropping one more leading byte keeps the value inside the window. *)
Lemma sign_window_step (j : nat) (fill sign uv : Z) :
  (j <= 6)%nat -> 0 <= uv < 2 ^ 64 ->
  sign_window fill sign uv j ->
  nth j (be_bytes 8 uv) 0 = fill ->
  Z.land (nth (S j) (be_bytes 8 uv) 0) 0x80 = sign ->
  sign_window fill sign uv (S j).
Proof.
  intros Hj Huv Hw Hfill Hsign.
  rewrite nth_be_bytes in Hfill, Hsign by lia.
  set (b1 := (uv / 256 ^ Z.of_nat (8 - 1 - S j)) mod 256) in *.
  assert (Hb1 : 0 <= b1 < 256) by (apply Z.mod_pos_bound; lia).
  assert (Hsb : (sign = 0 -> b1 < 128) /\ (sign = 128 -> 128 <= b1)).
  { split; intros E.
    - pose proof (land_0x80 b1 Hb1) as Hl. rewrite Hsign, E in Hl.
      apply Z.ltb_lt. symmetry. exact Hl.
    - pose proof (land_0x80_set b1 Hb1) as Hl. rewrite Hsign, E in Hl.
      apply Z.ltb_ge. apply negb_true_iff. symmetry. exact Hl. }
  clear Hsign. subst b1. destruct Hsb as [Hs0 Hs1].
  unfold sign_window in *.
  remember (256 ^ Z.of_nat (8 - 1 - j)) as P eqn:HP.
  remember (256 ^ Z.of_nat (8 - 1 - S j)) as Q eqn:HQ.
  change (2 ^ 64) with 18446744073709551616 in *.
  each_nat j 7%nat; vm_compute in HP; vm_compute in HQ; subst P Q;
    (destruct Hw as [(Hf & Hs & Hlo & Hb) | (Hf & Hs & Hhi & Hb)];
     [ left; specialize (Hs0 Hs); clear Hs1
     | right; specialize (Hs1 Hs); clear Hs0 ];
     (repeat split; try assumption);
     subst fill; clear Hb1; Z.div_mod_to_equations; lia).
Qed.

(** The last byte is never dropped. *)
Lemma sign_window_last (fill sign uv : Z) :
  0 <= uv < 2 ^ 64 ->
  sign_window fill sign uv 7 -> nth 7 (be_bytes 8 uv) 0 <> fill.
Proof.
  intros Huv Hw. rewrite nth_be_bytes by lia.
  change (256 ^ Z.of_nat (8 - 1 - 7)) with 1. rewrite Z.div_1_r.
  unfold sign_window in Hw. change (256 ^ Z.of_nat (8 - 1 - 7)) with 1 in Hw.
  change (2 ^ 64) with 18446744073709551616 in *.
  destruct Hw as [(Hf & _ & Hlo & Hb) | (Hf & _ & Hhi & Hb)]; subst fill.
  - rewrite Z.mod_small by lia. lia.
  - assert (E : uv mod 256 = uv - 18446744073709551360)
      by (symmetry; apply (Z.mod_unique uv 256 72057594037927935); lia).
    rewrite E. lia.
Qed.

Lemma skip_sign_spec (fuel j : nat) (uv fill sign : Z) :
  (j <= 7)%nat -> (9 <= fuel + j)%nat -> 0 <= uv < 2 ^ 64 ->
  sign_window fill sign uv j ->
  exists n, skip_sign fuel (be_bytes 8 uv) fill sign (Z.of_nat j) = Z.of_nat n /\
            (j <= n <= 7)%nat /\ sign_window fill sign uv n.
Proof.
  revert j. induction fuel as [|fuel IH]; intros j Hj Hfuel Huv Hw; [lia|].
  cbn [skip_sign]. rewrite Nat2Z.id.
  replace (Z.to_nat (Z.of_nat j + 1)) with (S j) by lia.
  replace (Z.of_nat j + 1) with (Z.of_nat (S j)) by lia.
  destruct (Z.ltb_spec (Z.of_nat j) 8); [|lia]. cbn [andb].
  destruct (Z.eqb_spec (nth j (be_bytes 8 uv) 0) fill) as [Efill|_];
    [|exists j; repeat split; [lia | lia | exact Hw]].
  cbn [andb].
  destruct (Z.eqb_spec (Z.land (nth (S j) (be_bytes 8 uv) 0) 128) sign) as [Esign|_];
    [|exists j; repeat split; [lia | lia | exact Hw]].
  destruct (Nat.eq_dec j 7) as [->|Hj7].
  { exfalso. exact (sign_window_last fill sign uv Huv Hw Efill). }
  destruct (IH (S j) ltac:(lia) ltac:(lia) Huv) as (n & Hn & Hjn & Hwn).
  { apply sign_window_step; [lia | exact Huv | exact Hw | exact Efill | exact Esign]. }
  exists n. repeat split; [exact Hn | lia | lia | exact Hwn].
Qed.

Lemma atom_int_eq (this : atom) (v : Z) :
  atom_int this v
  = if (v <? 0x20) && (v >=? -0x20) then mk_atom INT TINY 0 (wrap64 v) []
    else mk_atom INT SHORT
           (if v <? 0 then skip_sign 9 (be_bytes 8 (wrap64 v)) 0xff 0x80 0
            else skip_sign 9 (be_bytes 8 (wrap64 v)) 0x00 0x00 0)
           (wrap64 v) [].
Proof.
  unfold atom_int. destruct ((v <? 0x20) && (v >=? -0x20)); reflexivity.
Qed.

Lemma wrap64_signed (v : Z) :
  - 2 ^ 63 <= v < 2 ^ 63 ->
  wrap64 v = (if v <? 0 then v + 2 ^ 64 else v) /\ 0 <= wrap64 v < 2 ^ 64.
Proof.
  intros Hv. unfold wrap64.
  change (2 ^ 63) with 9223372036854775808 in Hv.
  change (2 ^ 64) with 18446744073709551616.
  split; [|apply Z.mod_pos_bound; reflexivity].
  destruct (Z.ltb_spec v 0).
  - symmetry. apply (Z.mod_unique v _ (-1)); lia.
  - apply Z.mod_small. lia.
Qed.

Lemma int_val_wrap64 (a : atom) (v : Z) :
  - 2 ^ 63 <= v < 2 ^ 63 -> uint_val a = wrap64 v -> int_val a = v.
Proof.
  intros Hv Ha. destruct (wrap64_signed v Hv) as [Hw _].
  unfold int_val. rewrite Ha, Hw.
  change (2 ^ 63) with 9223372036854775808 in *.
  change (2 ^ 64) with 18446744073709551616.
  destruct (Z.ltb_spec v 0);
    [destruct (Z.ltb_spec (v + 18446744073709551616) 9223372036854775808)
    | destruct (Z.ltb_spec v 9223372036854775808)]; lia.
Qed.

(** A multi-byte signed atom whose window holds the value is well
    formed. *)
Lemma wf_int_window (v : Z) (n : nat) (fill sign : Z) :
  - 2 ^ 63 <= v < 2 ^ 63 -> (n <= 7)%nat ->
  sign_window fill sign (wrap64 v) n ->
  (fill = 0x00 -> 0 <= v) -> (fill = 0xff -> v < 0) ->
  wf_atom (mk_atom INT SHORT (Z.of_nat n) (wrap64 v) []) = true.
Proof.
  intros Hv Hn Hw Hpos Hneg.
  destruct (wrap64_signed v Hv) as [Hwv Hwb].
  pose proof (int_val_wrap64 (mk_atom INT SHORT (Z.of_nat n) (wrap64 v) []) v Hv eq_refl)
    as Hiv.
  unfold wf_atom. cbn [data_type data_enc int_skip uint_val]. rewrite Hiv.
  assert (Hp : 2 * 2 ^ (8 * (8 - Z.of_nat n) - 1) = 256 * 256 ^ Z.of_nat (8 - 1 - n)).
  { rewrite <- !Z.pow_succ_r by lia.
    replace (Z.succ (8 * (8 - Z.of_nat n) - 1)) with (8 * Z.of_nat (S (8 - 1 - n))) by lia.
    rewrite Z.pow_mul_r, Nat2Z.inj_succ by lia. reflexivity. }
  set (H := 2 ^ (8 * (8 - Z.of_nat n) - 1)) in *.
  set (P := 256 ^ Z.of_nat (8 - 1 - n)) in *.
  unfold sign_window in Hw. fold P in Hw.
  change (2 ^ 63) with 9223372036854775808 in *.
  change (2 ^ 64) with 18446744073709551616 in *.
  clearbody H P.
  assert (Hcases : - H <= v < H).
  { destruct Hw as [(Hf & _ & _ & Hb) | (Hf & _ & _ & Hb)].
    - specialize (Hpos Hf). destruct (Z.ltb_spec v 0); lia.
    - specialize (Hneg Hf). destruct (Z.ltb_spec v 0); lia. }
  repeat (apply andb_true_intro; split);
    first [apply Z.leb_le | apply Z.ltb_lt]; lia.
Qed.

Lemma new_int_wf (this : atom) (v : Z) :
  - 2 ^ 63 <= v < 2 ^ 63 ->
  let a := new_int this v in
  wf_atom a = true /\ data_type a = INT /\ int_val a = v /\ bytes a = [].
Proof.
  intros Hv a. subst a. unfold new_int. rewrite atom_int_eq.
  destruct (wrap64_signed v Hv) as [Hwv Hwb].
  rewrite Z.geb_leb.
  destruct (Z.ltb_spec v 0x20) as [Hlt|Hge];
    [destruct (Z.leb_spec (-0x20) v) as [Hle|Hgt]|]; cbn [andb].
  - (* tiny *)
    split; [|split; [reflexivity | split; [apply (int_val_wrap64 _ v Hv); reflexivity
                                          | reflexivity]]].
    pose proof (int_val_wrap64 (mk_atom INT TINY 0 (wrap64 v) []) v Hv eq_refl) as Hiv.
    unfold wf_atom. cbn [data_type data_enc uint_val]. rewrite Hiv.
    change (2 ^ 64) with 18446744073709551616 in *.
    repeat (apply andb_true_intro; split);
      first [apply Z.leb_le | apply Z.ltb_lt]; lia.
  - (* negative *)
    destruct (Z.ltb_spec v 0) as [Hneg|]; [|lia].
    destruct (skip_sign_spec 9 0 (wrap64 v) 0xff 0x80 ltac:(lia) ltac:(lia) Hwb)
      as (n & Hn & Hjn & Hw).
    { right. rewrite Hwv.
      change (256 ^ Z.of_nat (8 - 1 - 0)) with 72057594037927936.
      change (2 ^ 64) with 18446744073709551616.
      repeat split; lia. }
    change (Z.of_nat 0) with 0 in Hn. rewrite Hn.
    split; [|split; [reflexivity | split; [apply (int_val_wrap64 _ v Hv); reflexivity
                                          | reflexivity]]].
    apply (wf_int_window v n 0xff 0x80 Hv); [lia | exact Hw | discriminate | intros _; exact Hneg].
  - (* positive *)
    destruct (Z.ltb_spec v 0) as [|Hpos]; [lia|].
    destruct (skip_sign_spec 9 0 (wrap64 v) 0x00 0x00 ltac:(lia) ltac:(lia) Hwb)
      as (n & Hn & Hjn & Hw).
    { left. rewrite Hwv.
      change (256 ^ Z.of_nat (8 - 1 - 0)) with 72057594037927936.
      change (2 ^ 63) with 9223372036854775808 in Hv.
      repeat split; lia. }
    change (Z.of_nat 0) with 0 in Hn. rewrite Hn.
    split; [|split; [reflexivity | split; [apply (int_val_wrap64 _ v Hv); reflexivity
                                          | reflexivity]]].
    apply (wf_int_window v n 0x00 0x00 Hv); [lia | exact Hw | intros _; exact Hpos | discriminate].
Qed.

Lemma atom_eq_int (a' a : atom) :
  atom_eq a' a = true -> data_type a = INT ->
  data_type a' = INT /\ data_enc a' = data_enc a /\ int_val a' = int_val a.
Proof.
  intros He Hty. unfold atom_eq in He.
  destruct (data_type a') eqn:Hty'; rewrite Hty in He; cbn [type_eqb andb] in He;
    try discriminate He.
  destruct (enc_eqb (data_enc a') (data_enc a)) eqn:Henc; [|discriminate He].
  apply Z.eqb_eq in He. unfold int_val. rewrite He.
  repeat split.
  destruct (data_enc a'), (data_enc a); (reflexivity || discriminate Henc).
Qed.

(** X25. Every [int64_t] value survives the trip through the wire
    format: the atom that the signed constructor builds from it encodes
    to bytes that decode, whatever follows them, to an atom from which
    [get_int] returns the value. *)
Corollary int_value_round_trip (this storage : atom) (v : Z) (rest : list Z) :
  - 2 ^ 63 <= v < 2 ^ 63 ->
  exists a',
    decode_bytes this (fst (encode_bytes (new_int storage v)) ++ rest)
    = Ok (a', size (new_int storage v)) /\
    get_int a' = Ok v.
Proof.
  intros Hv. destruct (new_int_wf storage v Hv) as (Hwf & Hty & Hval & _).
  destruct (wf_round_trip this (new_int storage v) rest Hwf)
    as (_ & _ & a' & Hdec & Heq).
  exists a'. split; [exact Hdec|].
  destruct (atom_eq_int a' _ Heq Hty) as (Hty' & _ & Hv').
  unfold get_int. rewrite Hty', Hv', Hval. reflexivity.
Qed.

(** X24. Every [uint64_t] value survives the trip through the wire
    format: the unsigned constructor accepts it, and the atom encodes to
    bytes that decode, whatever follows them, to an atom from which
    [get_uint] returns the value. *)
Corollary uint_value_round_trip (this storage : atom) (v : Z) (rest : list Z) :
  0 <= v < 2 ^ 64 ->
  exists a a',
    new_uint storage v = Ok a /\
    decode_bytes this (fst (encode_bytes a) ++ rest) = Ok (a', size a) /\
    get_uint a' = Ok v.
Proof.
  intros Hv. destruct (new_uint_wf storage v Hv) as (a & Hnew & Hwf & Hty & Hval & _).
  destruct (wf_round_trip this a rest Hwf) as (_ & _ & a' & Hdec & Heq).
  exists a, a'. split; [exact Hnew|]. split; [exact Hdec|].
  unfold atom_eq in Heq.
  destruct (data_type a') eqn:Hty'; rewrite Hty in Heq; cbn [type_eqb andb] in Heq;
    try discriminate Heq.
  destruct (enc_eqb (data_enc a') (data_enc a)); [|discriminate Heq].
  apply Z.eqb_eq in Heq. unfold get_uint. rewrite Hty', Heq, Hval. reflexivity.
Qed.

(** X26. Every byte string shorter than [2^24] survives the trip: the
    binary constructor accepts it, and the atom encodes to bytes that
    decode, whatever follows them, to an atom from which [get_bytes]
    returns the string. *)
Corollary bytes_value_round_trip (this storage : atom) (data rest : list Z) :
  forallb is_byte data = true ->
  Z.of_nat (length data) < 16777216 ->
  exists a a',
    new_bin storage data = Ok a /\
    decode_bytes this (fst (encode_bytes a) ++ rest) = Ok (a', size a) /\
    get_bytes a' = Ok data.
Proof.
  intros Hb Hl. destruct (new_bin_wf storage data Hb Hl) as (a & Hnew & Hwf & Hty & Hval).
  destruct (wf_round_trip this a rest Hwf) as (_ & _ & a' & Hdec & Heq).
  exists a, a'. split; [exact Hnew|]. split; [exact Hdec|].
  destruct (atom_eq_bytes a' a Heq Hty) as (Ht & _ & Hbs).
  unfold get_bytes. rewrite Ht, Hbs, Hval. reflexivity.
Qed.

(** * Properties of the drive *)

(** ** Envelope arithmetic *)

Lemma wrap64_small (x : Z) : 0 <= x < 2 ^ 64 -> wrap64 x = x.
Proof. intros H. unfold wrap64. apply Z.mod_small. exact H. Qed.

Lemma round_up_bounds (x m : Z) :
  0 < m -> x <= round_up x m < x + m /\ round_up x m mod m = 0.
Proof.
  intros Hm. unfold round_up.
  pose proof (Z.div_mod (x + m - 1) m ltac:(lia)) as Hd.
  pose proof (Z.mod_pos_bound (x + m - 1) m Hm) as Hr.
  split; [nia | apply Z.mod_mul; lia].
Qed.

Lemma PAD_TO_MULTIPLE_round_up (val mult : Z) :
  0 <= val < 2 ^ 63 -> 0 < mult < 2 ^ 16 ->
  PAD_TO_MULTIPLE val mult = round_up val mult.
Proof.
  intros Hv Hm. unfold PAD_TO_MULTIPLE.
  destruct (round_up_bounds val mult ltac:(lia)) as [Hb _].
  change (2 ^ 63) with 9223372036854775808 in *.
  change (2 ^ 16) with 65536 in *.
  rewrite (wrap64_small (val + (mult - 1)))
    by (change (2 ^ 64) with 18446744073709551616; lia).
  replace (val + (mult - 1)) with (val + mult - 1) by lia.
  fold (round_up val mult). apply wrap64_small.
  change (2 ^ 64) with 18446744073709551616; lia.
Qed.

Lemma envelope_sizes (outbuf : list Z) :
  let n := Z.of_nat (length outbuf) in
  n < 2 ^ 32 - 1024 ->
  pkt_size_of outbuf = law_pkt_length n /\
  com_size_of outbuf = law_com_length n /\
  tot_size_of outbuf = law_total_size n /\
  n + 12 <= law_pkt_length n < n + 16 /\
  n + 56 <= law_total_size n < n + 572 /\
  law_total_size n mod 512 = 0.
Proof.
  intros n Hn. change (2 ^ 32) with 4294967296 in Hn.
  assert (H0 : 0 <= n) by (unfold n; lia).
  unfold tot_size_of, com_size_of, pkt_size_of, sub_size_of.
  unfold law_total_size, law_com_length, law_pkt_length.
  unfold sizeof_opal_sub_packet_header_t, sizeof_opal_packet_header_t,
         sizeof_opal_com_packet_header_t, ATA_BLOCK_SIZE.
  fold n.
  destruct (round_up_bounds (12 + n) 4 ltac:(lia)) as [Hp _].
  destruct (round_up_bounds (20 + (24 + round_up (12 + n) 4)) 512 ltac:(lia))
    as [Ht Htm].
  rewrite (wrap64_small (n + 12))
    by (change (2 ^ 64) with 18446744073709551616; lia).
  rewrite PAD_TO_MULTIPLE_round_up
    by (change (2 ^ 63) with 9223372036854775808;
        change (2 ^ 16) with 65536; lia).
  replace (n + 12) with (12 + n) by lia.
  rewrite (wrap64_small (round_up (12 + n) 4 + 24))
    by (change (2 ^ 64) with 18446744073709551616; lia).
  rewrite (wrap64_small (round_up (12 + n) 4 + 24 + 20))
    by (change (2 ^ 64) with 18446744073709551616; lia).
  rewrite PAD_TO_MULTIPLE_round_up
    by (change (2 ^ 63) with 9223372036854775808;
        change (2 ^ 16) with 65536; lia).
  replace (round_up (12 + n) 4 + 24 + 20)
    with (20 + (24 + round_up (12 + n) 4)) by lia.
  replace (round_up (12 + n) 4 + 24) with (24 + round_up (12 + n) 4) by lia.
  repeat split; lia || exact Htm.
Qed.

(** ** Fields of a block *)

Lemma field_at (pre post : list Z) (n off : nat) (v : Z) :
  length pre = off ->
  field n off (pre ++ be_bytes n v ++ post) = v mod 256 ^ Z.of_nat n.
Proof.
  intros Hoff. unfold field.
  rewrite skipn_app_exact by (symmetry; exact Hoff).
  rewrite firstn_app_exact by (rewrite be_bytes_length; reflexivity).
  apply be_to_Z_be_bytes.
Qed.

Lemma field_zero (pre post : list Z) (n off : nat) :
  length pre = off -> field n off (pre ++ repeat 0 n ++ post) = 0.
Proof.
  intros Hoff. unfold field.
  rewrite skipn_app_exact by (symmetry; exact Hoff).
  rewrite firstn_app_exact by (rewrite repeat_length; reflexivity).
  apply be_to_Z_zeroes.
Qed.

Lemma field_skip (seg rest : list Z) (n off : nat) :
  (length seg <= off)%nat ->
  field n off (seg ++ rest) = field n (off - length seg) rest.
Proof.
  intros H. unfold field. rewrite skipn_app.
  rewrite (skipn_all2 seg) by exact H. reflexivity.
Qed.

Lemma field_here (n : nat) (v : Z) (rest : list Z) :
  field n 0 (be_bytes n v ++ rest) = v mod 256 ^ Z.of_nat n.
Proof. apply (field_at [] rest n 0 v). reflexivity. Qed.

Lemma field_here_zero (n : nat) (rest : list Z) :
  field n 0 (repeat 0 n ++ rest) = 0.
Proof. apply (field_zero [] rest n 0). reflexivity. Qed.

Lemma skipn_seg {A : Type} (seg rest : list A) (off : nat) :
  (length seg <= off)%nat ->
  skipn off (seg ++ rest) = skipn (off - length seg) rest.
Proof.
  intros H. rewrite skipn_app, (skipn_all2 seg) by exact H. reflexivity.
Qed.

Ltac seg_lengths :=
  rewrite ?repeat_length, ?be_bytes_length.

Ltac skip_segs :=
  repeat (first [ rewrite field_skip by (seg_lengths; cbn; lia)
                | rewrite skipn_seg by (seg_lengths; cbn; lia) ];
          seg_lengths; cbn [Nat.sub]).

(** The transport transfers the blocks it is told to: all of a buffer of
    fewer than 256 blocks, and otherwise what the 8-bit block count
    leaves of it. *)
Lemma dxfer_len_wrap8 (tot : Z) :
  0 <= tot -> tot mod 512 = 0 ->
  dxfer_len (wrap8 (tot / ATA_BLOCK_SIZE)) = tot mod 131072.
Proof.
  intros H0 Hm. unfold dxfer_len, wrap8, ATA_BLOCK_SIZE.
  change (2 ^ 8) with 256. Z.div_mod_to_equations. lia.
Qed.

Section DriveFacts.

Context {P : Platform} {C : Codec} {U : Uids}.

Lemma encode_vector_cases (x : datum) :
  (exists out, encode_vector x = Ok out) \/ (exists msg, encode_vector x = Throw msg).
Proof.
  pose proof (encode_vector_defined x) as H.
  destruct (encode_vector x) as [out|msg|]; [left | right | discriminate H]; eauto.
Qed.

Lemma dev_send_cases (s : dev) (proto comid : Z) (data : list Z) (bcount : Z) :
  fst (dev_send s proto comid data bcount) = Ok tt \/
  exists msg, fst (dev_send s proto comid data bcount) = Throw msg.
Proof.
  pose proof (dev_send_defined s proto comid data bcount) as H.
  destruct (fst (dev_send s proto comid data bcount)) as [[]|msg|];
    [left | right | discriminate H]; eauto.
Qed.

Lemma build_block_length (d : drive) (outbuf : list Z) (ids : bool)
    (sub pkt com tot : Z) :
  sub = Z.of_nat (length outbuf) -> 56 + sub <= tot ->
  Z.of_nat (length (build_block d outbuf ids sub pkt com tot)) = tot.
Proof.
  intros Hs Ht. unfold build_block.
  destruct ids;
    rewrite !length_app, !repeat_length, !be_bytes_length;
    unfold sizeof_opal_header_t, sizeof_opal_com_packet_header_t,
           sizeof_opal_packet_header_t, sizeof_opal_sub_packet_header_t; lia.
Qed.

Lemma build_block_fields (d : drive) (outbuf : list Z) (ids : bool)
    (sub pkt com tot : Z) :
  let block := build_block d outbuf ids sub pkt com tot in
  field 2 off_com_id block = wrap16 (com_id d) /\
  field 4 off_com_length block = wrap32 com /\
  field 4 off_tper_session_id block
    = (if ids then wrap32 (tper_session_id d) else 0) /\
  field 4 off_host_session_id block
    = (if ids then wrap32 (host_session_id d) else 0) /\
  field 4 off_pkt_length block = wrap32 pkt /\
  field 4 off_sub_length block = wrap32 sub /\
  skipn 56 block
    = outbuf ++ repeat 0 (Z.to_nat (tot - sizeof_opal_header_t - sub)).
Proof.
  intros block. subst block. unfold build_block.
  set (tail := outbuf ++ repeat 0 _).
  unfold off_com_id, off_com_length, off_tper_session_id, off_host_session_id,
         off_pkt_length, off_sub_length.
  destruct ids; rewrite <- ?app_assoc;
    (repeat split; skip_segs;
     first [ apply field_here | apply field_here_zero | reflexivity ]).
Qed.

Lemma send_oversize (d : drive) (outbuf : list Z) (ids : bool) :
  tot_size_of outbuf > max_com_pkt_size d ->
  send outbuf ids d = (Throw "ComPkt too large for drive", d).
Proof.
  intros H. unfold send.
  destruct (Z.gtb_spec (tot_size_of outbuf) (max_com_pkt_size d)); [reflexivity | lia].
Qed.

Lemma send_fits (d : drive) (outbuf : list Z) (ids : bool) :
  tot_size_of outbuf <= max_com_pkt_size d ->
  let block := build_block d outbuf ids (sub_size_of outbuf) (pkt_size_of outbuf)
                           (com_size_of outbuf) (tot_size_of outbuf) in
  let comid := wrap16 (com_id d) in
  let bcount := wrap8 (tot_size_of outbuf / ATA_BLOCK_SIZE) in
  send outbuf ids d
  = (fst (dev_send (raw d) 1 comid block bcount),
     set_raw d (snd (dev_send (raw d) 1 comid block bcount))
             (EvSend 1 comid block bcount)).
Proof.
  intros H block comid bcount. unfold send.
  destruct (Z.gtb_spec (tot_size_of outbuf) (max_com_pkt_size d)); [lia|].
  unfold if_send. fold block. change (wrap8 1) with 1. fold comid bcount.
  destruct (dev_send (raw d) 1 comid block bcount). reflexivity.
Qed.

Lemma app_cons_neq {A : Type} (l : list A) (x : A) : l ++ [x] <> l.
Proof.
  intros H. apply (f_equal (@length A)) in H.
  rewrite length_app in H. cbn in H. lia.
Qed.

(** X27. Envelope length law.  For a payload of fewer than [2^32 -
    1024] bytes, [send] throws the oversize error, transmitting nothing
    and leaving the drive unchanged, if and only if round-up-to-512
    (ComPacket header + Packet header + round-up-to-4(SubPacket header +
    payload)) exceeds [max_com_pkt_size].  Otherwise it hands to the
    transport a buffer of that many bytes, in which each header's
    big-endian length field is the size of what follows that header and
    the payload sits after the three headers, together with the number
    of blocks narrowed to 8 bits: the transport transfers the total
    modulo 131072, which is the whole buffer exactly when the total is
    below 131072 bytes. *)
Theorem envelope_length_law (d : drive) (outbuf : list Z) (ids : bool) :
  let n := Z.of_nat (length outbuf) in
  n < 2 ^ 32 - 1024 ->
  law_total_size n
    = round_up (sizeof_opal_com_packet_header_t + sizeof_opal_packet_header_t
                + round_up (sizeof_opal_sub_packet_header_t + n) 4) 512 /\
  ((fst (send outbuf ids d) = Throw "ComPkt too large for drive" /\
    trace (snd (send outbuf ids d)) = trace d)
   <-> law_total_size n > max_com_pkt_size d) /\
  (law_total_size n > max_com_pkt_size d ->
   send outbuf ids d = (Throw "ComPkt too large for drive", d)) /\
  (law_total_size n <= max_com_pkt_size d ->
   exists block,
     let comid := wrap16 (com_id d) in
     let bcount := wrap8 (law_total_size n / 512) in
     send outbuf ids d
     = (fst (dev_send (raw d) 1 comid block bcount),
        set_raw d (snd (dev_send (raw d) 1 comid block bcount))
                (EvSend 1 comid block bcount)) /\
     Z.of_nat (length block) = law_total_size n /\
     field 4 off_com_length block = law_com_length n /\
     field 4 off_pkt_length block = law_pkt_length n /\
     field 4 off_sub_length block = n /\
     sub_payload block = outbuf /\
     dxfer_len bcount = law_total_size n mod 131072 /\
     (dxfer_len bcount = law_total_size n <-> law_total_size n < 131072)).
Proof.
  intros n Hn.
  destruct (envelope_sizes outbuf Hn) as (Hpkt & Hcom & Htot & Hpb & Htb & Htm).
  fold n in Hpkt, Hcom, Htot, Hpb, Htb, Htm.
  assert (Hfit : law_total_size n <= max_com_pkt_size d ->
    exists block,
     let comid := wrap16 (com_id d) in
     let bcount := wrap8 (law_total_size n / 512) in
     send outbuf ids d
     = (fst (dev_send (raw d) 1 comid block bcount),
        set_raw d (snd (dev_send (raw d) 1 comid block bcount))
                (EvSend 1 comid block bcount)) /\
     Z.of_nat (length block) = law_total_size n /\
     field 4 off_com_length block = law_com_length n /\
     field 4 off_pkt_length block = law_pkt_length n /\
     field 4 off_sub_length block = n /\
     sub_payload block = outbuf /\
     dxfer_len bcount = law_total_size n mod 131072 /\
     (dxfer_len bcount = law_total_size n <-> law_total_size n < 131072)).
  { intros Hle.
    assert (Hdx : dxfer_len (wrap8 (law_total_size n / 512))
                  = law_total_size n mod 131072)
      by (apply (dxfer_len_wrap8 (law_total_size n)); [lia | exact Htm]).
    pose proof (send_fits d outbuf ids ltac:(lia)) as Hs. cbv zeta in Hs.
    destruct (build_block_fields d outbuf ids (sub_size_of outbuf)
                (pkt_size_of outbuf) (com_size_of outbuf) (tot_size_of outbuf))
      as (_ & Hfc & _ & _ & Hfp & Hfs & Hsk).
    unfold ATA_BLOCK_SIZE in Hs. rewrite Htot in Hs at 2 4 6.
    eexists. cbv zeta. split; [exact Hs|].
    change (2 ^ 32) with 4294967296 in Hn.
    assert (Hw : forall x, 0 <= x < 4294967296 -> wrap32 x = x)
      by (intros x Hx; unfold wrap32; apply Z.mod_small; exact Hx).
    unfold law_com_length, sizeof_opal_packet_header_t in Hcom, Hfc |- *.
    assert (H0 : 0 <= n) by (unfold n; lia).
    split; [rewrite <- Htot; apply build_block_length;
            [reflexivity | unfold sub_size_of; fold n; lia]|].
    split; [rewrite Hfc, Hcom; apply Hw; lia|].
    split; [rewrite Hfp, Hpkt; apply Hw; lia|].
    assert (Hsub : field 4 off_sub_length
                     (build_block d outbuf ids (sub_size_of outbuf)
                        (pkt_size_of outbuf) (com_size_of outbuf)
                        (tot_size_of outbuf)) = n)
      by (rewrite Hfs; unfold sub_size_of; fold n; apply Hw; lia).
    split; [exact Hsub|].
    split.
    { unfold sub_payload. rewrite Hsub.
      change (Z.to_nat sizeof_opal_header_t) with 56%nat. rewrite Hsk.
      apply firstn_app_exact. unfold n. lia. }
    split; [exact Hdx|]. rewrite Hdx.
    split; intros Hd.
    - pose proof (Z.mod_pos_bound (law_total_size n) 131072 ltac:(lia)). lia.
    - apply Z.mod_small. lia. }
  split.
  { unfold law_total_size, law_com_length, law_pkt_length, ATA_BLOCK_SIZE.
    f_equal. lia. }
  split; [| split; [intros H; apply send_oversize; lia | exact Hfit]].
  split.
  - intros [_ Htr].
    destruct (Z_le_gt_dec (law_total_size n) (max_com_pkt_size d)) as [Hle|Hgt];
      [|exact Hgt].
    destruct (Hfit Hle) as (block & Hs & _). cbv zeta in Hs.
    rewrite Hs in Htr. cbn [snd trace set_raw] in Htr.
    exfalso. exact (app_cons_neq _ _ Htr).
  - intros Hgt. rewrite send_oversize by lia. split; reflexivity.
Qed.

(** ** Receive polling *)

Lemma if_recv_poll (d : drive) :
  let cid := wrap16 (com_id d) in
  if_recv 1 (com_id d) 1 d
  = (answer (raw d) cid 0,
     set_raw d (snd (dev_recv (raw d) 1 cid 1)) (EvRecv 1 cid 1)).
Proof.
  intros cid. unfold if_recv, answer. cbn [dev_after].
  change (wrap8 1) with 1. fold cid.
  change (Z.to_nat (1 * ATA_BLOCK_SIZE)) with 512%nat.
  destruct (dev_recv (raw d) 1 cid 1) as [r s]. reflexivity.
Qed.

Lemma answer_shift (s : dev) (cid : Z) (j : nat) :
  answer (snd (dev_recv s 1 cid 1)) cid j = answer s cid (S j).
Proof. reflexivity. Qed.

Lemma recv_poll_eq (max_iters : nat) (d : drive) :
  recv_poll max_iters d
  = match if_recv 1 (com_id d) 1 d with
    | (Undefined, d1) => (Undefined, d1)
    | (Throw msg, d1) => (Throw msg, d1)
    | (Ok block, d1) =>
        if negb (field 2 off_com_id block =? com_id d1) then
          throw "Unexpected ComID in drive response" d1
        else if field 4 off_com_length block =? 0 then
          let d2 := snd (usleep (POLL_MS * 1000) d1) in
          match max_iters with
          | S (S n as m) => recv_poll m d2
          | _ => (Ok (block, Z.of_nat max_iters - 1), d2)
          end
        else (Ok (block, Z.of_nat max_iters), d1)
    end.
Proof. destruct max_iters; reflexivity. Qed.

Lemma after_polls_0 (d : drive) : after_polls d 0 = d.
Proof.
  unfold after_polls, poll_rounds. cbn [repeat concat dev_after].
  rewrite app_nil_r. destruct d; reflexivity.
Qed.

Lemma after_polls_1 (d : drive) :
  let cid := wrap16 (com_id d) in
  snd (usleep (POLL_MS * 1000)
         (set_raw d (snd (dev_recv (raw d) 1 cid 1)) (EvRecv 1 cid 1)))
  = after_polls d 1.
Proof.
  intros cid. unfold usleep, after_polls, log, set_raw, poll_rounds.
  cbn [snd tper_session_id host_session_id com_id max_com_pkt_size raw trace].
  fold cid. cbn [repeat concat dev_after].
  rewrite app_nil_r, <- app_assoc. reflexivity.
Qed.

Lemma after_polls_add (d : drive) (k : nat) :
  after_polls (after_polls d 1) k = after_polls d (S k).
Proof.
  unfold after_polls, poll_rounds.
  cbn [tper_session_id host_session_id com_id max_com_pkt_size raw trace].
  cbn [repeat concat dev_after]. rewrite app_nil_r, <- !app_assoc. reflexivity.
Qed.

(** One round: the answer is "no data yet" and the budget is not spent. *)
Lemma recv_poll_round (it : nat) (d : drive) :
  let cid := wrap16 (com_id d) in
  not_ready (com_id d) (answer (raw d) cid 0) = true ->
  recv_poll (S (S it)) d = recv_poll (S it) (after_polls d 1).
Proof.
  intros cid Hnr. rewrite recv_poll_eq, if_recv_poll. fold cid.
  destruct (answer (raw d) cid 0) as [block|msg|];
    [|discriminate Hnr|discriminate Hnr].
  cbn [not_ready] in Hnr. apply andb_prop in Hnr. destruct Hnr as [Hc Hl].
  cbn [com_id set_raw]. rewrite Hc, Hl. cbn [negb]. cbv zeta.
  rewrite <- after_polls_1. reflexivity.
Qed.

Lemma recv_poll_rounds (k it : nat) (d : drive) :
  let cid := wrap16 (com_id d) in
  (forall j, (j < k)%nat -> not_ready (com_id d) (answer (raw d) cid j) = true) ->
  recv_poll (S (k + it)) d = recv_poll (S it) (after_polls d k).
Proof.
  revert d. induction k as [|k IH]; intros d cid Hnr.
  - cbn [Nat.add]. rewrite after_polls_0. reflexivity.
  - cbn [Nat.add]. rewrite recv_poll_round by (apply Hnr; lia).
    rewrite IH.
    + rewrite after_polls_add. reflexivity.
    + intros j Hj. unfold after_polls at 1 2 3.
      cbn [com_id raw dev_after]. fold cid.
      rewrite answer_shift. apply Hnr. lia.
Qed.

Lemma dev_after_S (s : dev) (cid : Z) (k : nat) :
  dev_after s cid (S k) = snd (dev_recv (dev_after s cid k) 1 cid 1).
Proof.
  revert s. induction k as [|k IH]; intros s; [reflexivity|].
  change (dev_after s cid (S (S k)))
    with (dev_after (snd (dev_recv s 1 cid 1)) cid (S k)).
  rewrite IH. reflexivity.
Qed.

Lemma dev_after_add (s : dev) (cid : Z) (a b : nat) :
  dev_after (dev_after s cid a) cid b = dev_after s cid (a + b).
Proof.
  revert s. induction a as [|a IH]; intros s; [reflexivity|].
  cbn [dev_after Nat.add]. apply IH.
Qed.

Lemma after_polls_plus (d : drive) (a b : nat) :
  after_polls (after_polls d a) b = after_polls d (a + b).
Proof.
  unfold after_polls, poll_rounds.
  cbn [tper_session_id host_session_id com_id max_com_pkt_size raw trace].
  rewrite dev_after_add, repeat_app, concat_app, app_assoc. reflexivity.
Qed.

(** The poll that ends the loop: its answer is not "no data yet". *)
Lemma recv_poll_final (it : nat) (d : drive) :
  let cid := wrap16 (com_id d) in
  not_ready (com_id d) (answer (raw d) cid 0) = false ->
  recv_poll (S it) d
  = (block <- answer (raw d) cid 0 ;;
     if field 2 off_com_id block =? com_id d
     then Ok (block, Z.of_nat (S it))
     else Throw "Unexpected ComID in drive response",
     set_raw d (snd (dev_recv (raw d) 1 cid 1)) (EvRecv 1 cid 1)).
Proof.
  intros cid Hnr. rewrite recv_poll_eq, if_recv_poll. fold cid.
  destruct (answer (raw d) cid 0) as [block|msg|]; [|reflexivity|reflexivity].
  cbn [not_ready] in Hnr. cbn [com_id set_raw bind].
  destruct (field 2 off_com_id block =? com_id d); [|reflexivity].
  cbn [andb] in Hnr. rewrite Hnr. reflexivity.
Qed.

(** The poll that spends the budget. *)
Lemma recv_poll_last (d : drive) :
  let cid := wrap16 (com_id d) in
  not_ready (com_id d) (answer (raw d) cid 0) = true ->
  exists block, recv_poll 1 d = (Ok (block, 0), after_polls d 1).
Proof.
  intros cid Hnr. rewrite recv_poll_eq, if_recv_poll. fold cid.
  destruct (answer (raw d) cid 0) as [block|msg|];
    [|discriminate Hnr|discriminate Hnr].
  cbn [not_ready] in Hnr. apply andb_prop in Hnr. destruct Hnr as [Hc Hl].
  cbn [com_id set_raw]. rewrite Hc, Hl. cbn [negb]. cbv zeta.
  rewrite <- after_polls_1. exists block. reflexivity.
Qed.

Lemma first_ready (f : nat -> bool) (n : nat) :
  (forall j, (j < n)%nat -> f j = true) \/
  (exists k, (k < n)%nat /\ (forall j, (j < k)%nat -> f j = true) /\ f k = false).
Proof.
  induction n as [|n [IH | (k & Hk & Hlt & Hf)]].
  - left. intros j Hj. lia.
  - destruct (f n) eqn:E.
    + left. intros j Hj. destruct (Nat.eq_dec j n) as [->|]; [exact E | apply IH; lia].
    + right. exists n. repeat split; [lia | exact IH | exact E].
  - right. exists k. repeat split; [lia | exact Hlt | exact Hf].
Qed.

Lemma polls_app (a b : list event) : polls (a ++ b) = (polls a + polls b)%nat.
Proof. unfold polls. rewrite filter_app, length_app. reflexivity. Qed.

Lemma polls_poll_rounds (cid : Z) (k : nat) : polls (poll_rounds cid k) = k.
Proof.
  induction k as [|k IH]; [reflexivity|].
  unfold poll_rounds in *. cbn [repeat concat].
  rewrite polls_app, IH. reflexivity.
Qed.

Lemma Forall_poll_rounds (cid : Z) (k : nat) :
  Forall (fun ev => ev = EvRecv 1 cid 1 \/ ev = EvSleep 10000) (poll_rounds cid k).
Proof.
  induction k as [|k IH]; [constructor|].
  unfold poll_rounds in *. cbn [repeat concat app].
  constructor; [left; reflexivity|]. constructor; [right; reflexivity|]. exact IH.
Qed.

Lemma recv_cases (d : drive) :
  let cid := wrap16 (com_id d) in
  let ans := answer (raw d) cid in
  ((exists k, (k < 500)%nat /\
      (forall j, (j < k)%nat -> not_ready (com_id d) (ans j) = true) /\
      not_ready (com_id d) (ans k) = false /\
      recv d = (deliver (com_id d) (ans k),
                set_raw (after_polls d k) (dev_after (raw d) cid (S k))
                        (EvRecv 1 cid 1)))
   \/
   ((forall j, (j < 500)%nat -> not_ready (com_id d) (ans j) = true) /\
    recv d = (Throw "Timeout waiting for response", after_polls d 500)))
  /\
  exists evs,
    trace (snd (recv d)) = trace d ++ evs /\
    (1 <= polls evs <= 500)%nat /\
    Forall (fun ev => ev = EvRecv 1 cid 1 \/ ev = EvSleep 10000) evs.
Proof.
  intros cid ans.
  assert (Hmain :
    (exists k, (k < 500)%nat /\
      (forall j, (j < k)%nat -> not_ready (com_id d) (ans j) = true) /\
      not_ready (com_id d) (ans k) = false /\
      recv d = (deliver (com_id d) (ans k),
                set_raw (after_polls d k) (dev_after (raw d) cid (S k))
                        (EvRecv 1 cid 1)))
    \/
    ((forall j, (j < 500)%nat -> not_ready (com_id d) (ans j) = true) /\
     recv d = (Throw "Timeout waiting for response", after_polls d 500))).
  { destruct (first_ready (fun j => not_ready (com_id d) (ans j)) 500)
      as [Hall | (k & Hk & Hlt & Hf)].
    - right. split; [exact Hall|].
      unfold recv, mbind.
      change (Z.to_nat (TIMEOUT_SECS * 1000 / POLL_MS)) with (S (499 + 0)).
      rewrite recv_poll_rounds by (intros j Hj; apply Hall; lia).
      destruct (recv_poll_last (after_polls d 499)) as [block Hb].
      { unfold after_polls at 1 2 3. cbn [com_id raw]. apply Hall. lia. }
      rewrite Hb, after_polls_plus. reflexivity.
    - left. exists k. repeat split; [exact Hk | exact Hlt | exact Hf |].
      unfold recv, mbind.
      change (Z.to_nat (TIMEOUT_SECS * 1000 / POLL_MS)) with 500%nat.
      replace 500%nat with (S (k + (499 - k)))%nat by lia.
      rewrite recv_poll_rounds by exact Hlt.
      assert (Hans : answer (raw (after_polls d k)) (wrap16 (com_id (after_polls d k))) 0
                     = ans k) by reflexivity.
      rewrite recv_poll_final by (rewrite Hans; exact Hf).
      rewrite Hans.
      change (com_id (after_polls d k)) with (com_id d).
      change (raw (after_polls d k)) with (dev_after (raw d) cid k).
      fold cid. rewrite <- dev_after_S.
      unfold deliver. cbn beta in Hf.
      destruct (ans k) as [block|msg|]; [|reflexivity|reflexivity].
      cbn [bind].
      destruct (field 2 off_com_id block =? com_id d); [|reflexivity].
      replace (Z.of_nat (S (499 - k)) =? 0) with false
        by (symmetry; apply Z.eqb_neq; lia).
      unfold lift. reflexivity. }
  split; [exact Hmain|].
  destruct Hmain as [(k & Hk & _ & _ & Hr) | [_ Hr]]; rewrite Hr; cbn [snd].
  - exists (poll_rounds cid k ++ [EvRecv 1 cid 1]). split; [|split].
    + unfold set_raw, after_polls. cbn [trace]. rewrite app_assoc. reflexivity.
    + rewrite polls_app, polls_poll_rounds. cbn. lia.
    + apply Forall_app. split; [apply Forall_poll_rounds|].
      constructor; [left; reflexivity | constructor].
  - exists (poll_rounds cid 500). split; [reflexivity | split].
    + rewrite polls_poll_rounds. lia.
    + apply Forall_poll_rounds.
Qed.

Lemma answer_cases (s : dev) (cid : Z) (k : nat) :
  (exists block, answer s cid k = Ok block /\ length block = 512%nat) \/
  (exists msg, answer s cid k = Throw msg).
Proof.
  unfold answer.
  pose proof (dev_recv_defined (dev_after s cid k) 1 cid 1) as Hd.
  destruct (fst (dev_recv (dev_after s cid k) 1 cid 1)) as [b|msg|];
    [left | right; eexists; reflexivity | discriminate Hd].
  eexists. split; [reflexivity|].
  rewrite firstn_length_le; [reflexivity|].
  rewrite length_app, repeat_length. lia.
Qed.

Lemma answer_length (s : dev) (cid : Z) (k : nat) (block : list Z) :
  answer s cid k = Ok block -> length block = 512%nat.
Proof.
  intros H. destruct (answer_cases s cid k) as [(b & Hb & Hl) | (msg & Hm)];
    congruence.
Qed.

(** The bytes that [recv] delivers from a block: those after the three
    headers, as many as the sub-packet length says, as long as the block
    holds them. *)
Lemma copy_payload_inside (block : list Z) (count : Z) :
  length block = 512%nat -> count <= 456 ->
  exists bytes,
    copy_payload block count = Ok bytes /\
    bytes = firstn (Z.to_nat count) (skipn 56 block) /\
    length bytes = Z.to_nat count /\
    forall i, (i < length bytes)%nat -> nth i bytes 0 = nth (56 + i) block 0.
Proof.
  intros Hlen Hc. unfold copy_payload.
  change sizeof_opal_header_t with 56. change ATA_BLOCK_SIZE with 512.
  destruct (Z.leb_spec (56 + count) 512) as [_|]; [|lia].
  change (Z.to_nat 56) with 56%nat.
  assert (Hl : length (firstn (Z.to_nat count) (skipn 56 block)) = Z.to_nat count)
    by (rewrite firstn_length_le; [reflexivity | rewrite length_skipn; lia]).
  eexists. split; [reflexivity|]. split; [reflexivity|]. split; [exact Hl|].
  intros i Hi. rewrite Hl in Hi.
  rewrite nth_firstn.
  destruct (Nat.ltb_spec i (Z.to_nat count)) as [_|]; [|lia].
  apply nth_skipn.
Qed.

Lemma copy_payload_outside (block : list Z) (count : Z) :
  456 < count -> copy_payload block count = Undefined.
Proof.
  intros Hc. unfold copy_payload.
  change sizeof_opal_header_t with 56. change ATA_BLOCK_SIZE with 512.
  destruct (Z.leb_spec (56 + count) 512); [lia | reflexivity].
Qed.

(** X14. Receive polling, poll by poll.  [recv] reads one 512-byte block
    per poll; an answer is "no data yet" when it echoes the drive's
    ComID with a zero ComPacket length.  If the first answer that is not
    "no data yet" comes at poll [k < 500], [recv] has slept 10 ms after
    each of the [k] earlier polls and stops at that poll: with the
    transport's exception; with the ComID error when the echoed ComID
    differs; and otherwise, when the sub-packet length is at most 456,
    with exactly that many bytes, those that follow the 56 bytes of
    headers in the block.  A larger sub-packet length makes it read past
    the end of its one-block buffer.  If all of the first 500 answers
    are "no data yet", [recv] throws the timeout after 500 polls and 500
    sleeps.  Either way it has polled at least once and at most 500
    times, and done nothing else but sleep. *)
Theorem recv_polling (d : drive) :
  let cid := wrap16 (com_id d) in
  let ans := answer (raw d) cid in
  ((exists k, (k < 500)%nat /\
      (forall j, (j < k)%nat -> not_ready (com_id d) (ans j) = true) /\
      not_ready (com_id d) (ans k) = false /\
      snd (recv d) = set_raw (after_polls d k) (dev_after (raw d) cid (S k))
                             (EvRecv 1 cid 1) /\
      ((exists msg, ans k = Throw msg) \/ (exists block, ans k = Ok block)) /\
      (forall msg, ans k = Throw msg -> fst (recv d) = Throw msg) /\
      (forall block, ans k = Ok block ->
         let count := field 4 off_sub_length block in
         (field 2 off_com_id block <> com_id d ->
          fst (recv d) = Throw "Unexpected ComID in drive response") /\
         (field 2 off_com_id block = com_id d -> count <= 456 ->
          exists bytes,
            fst (recv d) = Ok bytes /\
            length bytes = Z.to_nat count /\
            forall i, (i < length bytes)%nat ->
                      nth i bytes 0 = nth (56 + i) block 0) /\
         (field 2 off_com_id block = com_id d -> 456 < count ->
          fst (recv d) = Undefined)))
   \/
   ((forall j, (j < 500)%nat -> not_ready (com_id d) (ans j) = true) /\
    recv d = (Throw "Timeout waiting for response", after_polls d 500)))
  /\
  exists evs,
    trace (snd (recv d)) = trace d ++ evs /\
    (1 <= polls evs <= 500)%nat /\
    Forall (fun ev => ev = EvRecv 1 cid 1 \/ ev = EvSleep 10000) evs.
Proof.
  intros cid ans.
  destruct (recv_cases d) as [Hmain Htrace]. fold cid in Hmain, Htrace.
  fold ans in Hmain. split; [|exact Htrace].
  destruct Hmain as [(k & Hk & Hbefore & Hready & Hr) | Htimeout];
    [left | right; exact Htimeout].
  exists k. split; [exact Hk|]. split; [exact Hbefore|]. split; [exact Hready|].
  rewrite Hr. cbn [fst snd]. split; [reflexivity|].
  split.
  { destruct (answer_cases (raw d) cid k) as [(b & Hb & _) | (msg & Hm)];
      [right | left]; eauto. }
  split.
  { intros msg Hm. rewrite Hm. reflexivity. }
  intros block Hb. rewrite Hb. unfold deliver. cbn [bind]. cbv zeta.
  pose proof (answer_length _ _ _ _ Hb) as Hlen.
  split; [|split].
  - intros Hne. destruct (Z.eqb_spec (field 2 off_com_id block) (com_id d));
      [contradiction | reflexivity].
  - intros He Hc. rewrite He, Z.eqb_refl.
    destruct (copy_payload_inside block _ Hlen Hc) as (bytes & Hcp & _ & Hl & Hn).
    exists bytes. split; [exact Hcp|]. split; [exact Hl | exact Hn].
  - intros He Hc. rewrite He, Z.eqb_refl. apply copy_payload_outside. exact Hc.
Qed.

(** [recv] reads past its buffer exactly when the first answer that is
    not "no data yet" comes within 500 polls, on the drive's ComID, with
    a sub-packet length above 456. *)
Lemma recv_undefined_iff (d : drive) :
  let cid := wrap16 (com_id d) in
  fst (recv d) = Undefined <->
  exists k block,
    (k < 500)%nat /\
    (forall j, (j < k)%nat -> not_ready (com_id d) (answer (raw d) cid j) = true) /\
    answer (raw d) cid k = Ok block /\
    field 2 off_com_id block = com_id d /\
    field 4 off_com_length block <> 0 /\
    456 < field 4 off_sub_length block.
Proof.
  intros cid.
  assert (Hnr : forall block,
            field 2 off_com_id block = com_id d ->
            field 4 off_com_length block <> 0 ->
            not_ready (com_id d) (Ok block) = false).
  { intros block Hc Hl. cbn [not_ready]. rewrite Hc, Z.eqb_refl. cbn [andb].
    apply Z.eqb_neq. exact Hl. }
  destruct (recv_cases d) as [[(k & Hk & Hbefore & Hready & Hr) | (Hall & Hr)] _];
    fold cid in Hbefore, Hready, Hr || fold cid in Hall, Hr.
  - rewrite Hr. cbn [fst]. split.
    + intros Hu.
      destruct (answer_cases (raw d) cid k) as [(block & Hb & Hlen) | (msg & Hm)];
        [|rewrite Hm in Hu; discriminate Hu].
      rewrite Hb in Hu, Hready. unfold deliver in Hu. cbn [bind not_ready] in Hu, Hready.
      destruct (Z.eqb_spec (field 2 off_com_id block) (com_id d)) as [Ec|Ec];
        [|discriminate Hu].
      cbn [andb] in Hready. apply Z.eqb_neq in Hready.
      exists k, block. split; [exact Hk|]. split; [exact Hbefore|].
      split; [exact Hb|]. split; [exact Ec|]. split; [exact Hready|].
      destruct (Z_le_gt_dec (field 4 off_sub_length block) 456) as [Hle|Hgt]; [|lia].
      destruct (copy_payload_inside block _ Hlen Hle) as (bytes & Hcp & _).
      rewrite Hcp in Hu. discriminate Hu.
    + intros (k' & block & Hk' & Hbefore' & Hb & Hc & Hl & Hcount).
      assert (k' = k).
      { destruct (Nat.lt_trichotomy k' k) as [Hlt | [E | Hgt]]; [|exact E|].
        - specialize (Hbefore k' Hlt). rewrite Hb, (Hnr block Hc Hl) in Hbefore.
          discriminate Hbefore.
        - specialize (Hbefore' k Hgt). rewrite Hbefore' in Hready.
          discriminate Hready. }
      subst k'. rewrite Hb. unfold deliver. cbn [bind].
      rewrite Hc, Z.eqb_refl. apply copy_payload_outside. exact Hcount.
  - rewrite Hr. cbn [fst]. split; [discriminate|].
    intros (k & block & Hk & _ & Hb & Hc & Hl & _).
    specialize (Hall k Hk). rewrite Hb, (Hnr block Hc Hl) in Hall.
    discriminate Hall.
Qed.

(** The datum-based variant of [recv] polls once and never sleeps. *)
Lemma recv_datum_single_poll (d : drive) :
  trace (snd (recv_datum d)) = trace d ++ [EvRecv 1 (wrap16 (com_id d)) 1].
Proof.
  unfold recv_datum. rewrite if_recv_poll.
  destruct (answer (raw d) (wrap16 (com_id d)) 0) as [block|msg|];
    [|reflexivity|reflexivity].
  cbn [com_id set_raw].
  destruct (negb (field 2 off_com_id block =? com_id d)); [reflexivity|].
  destruct (field 4 off_com_length block <=? _); [reflexivity|].
  destruct (bind _ _) as [[inbuf n]|msg|]; [|reflexivity|reflexivity].
  destruct inbuf; try reflexivity.
  destruct (negb (status =? STA_SUCCESS)); reflexivity.
Qed.

(** ** Method invocation *)

Lemma invoke_steps (d : drive) (obj meth : Z) (params : datum) :
  invoke obj meth params d
  = match encode_vector (Method obj meth (list_of params) STA_SUCCESS) with
    | Undefined => (Undefined, d)
    | Throw msg => (Throw msg, d)
    | Ok out =>
        match send (out ++ status_trailer) (negb (obj =? SESSION_MGR)) d with
        | (Undefined, d1) => (Undefined, d1)
        | (Throw msg, d1) => (Throw msg, d1)
        | (Ok _, d1) =>
            match recv d1 with
            | (Undefined, d2) => (Undefined, d2)
            | (Throw msg, d2) => (Throw msg, d2)
            | (Ok bytes, d2) => (check_reply bytes, d2)
            end
        end
    end.
Proof.
  unfold invoke, mbind, lift, check_reply.
  destruct (encode_vector _) as [out|msg|]; [|reflexivity|reflexivity].
  destruct (send _ _ d) as [[[]|msg|] d1]; [|reflexivity|reflexivity].
  destruct (recv d1) as [[bytes|msg|] d2]; [|reflexivity|reflexivity].
  destruct (decode_vector bytes) as [[rc count]|msg|]; [|reflexivity|reflexivity].
  cbn [bind].
  destruct (negb (trailing_bytes bytes count =? 6)); [reflexivity|].
  destruct (negb (reply_status bytes count =? 0)); reflexivity.
Qed.

(** C4. Method status handling: once the call is sent, the reply
    received and the reply datum decoded from its first [count] bytes,
    [invoke] requires exactly six bytes after the datum (the status
    list) and takes the third of them as the status.  It throws "Method
    call failed" if and only if that byte is not zero, and returns the
    decoded datum if and only if it is zero.  A reply that ends
    [F9 F0 01 00 00 F1] has status [0x01], NotAuthorized, and fails. *)
Theorem invoke_status_handling (d d1 d2 : drive) (obj meth : Z)
    (params rc : datum) (out bytes : list Z) (count : Z) :
  encode_vector (Method obj meth (list_of params) STA_SUCCESS) = Ok out ->
  send (out ++ status_trailer) (negb (obj =? SESSION_MGR)) d = (Ok tt, d1) ->
  recv d1 = (Ok bytes, d2) ->
  decode_vector bytes = Ok (rc, count) ->
  0 <= count <= Z.of_nat (length bytes) ->
  Z.of_nat (length bytes) < 2 ^ 64 ->
  let trailer := skipn (Z.to_nat count) bytes in
  let status := nth 2 trailer 0 in
  (length trailer <> 6%nat ->
   invoke obj meth params d = (Throw "Invalid method status on return", d2)) /\
  (length trailer = 6%nat ->
   (status <> 0 <-> invoke obj meth params d = (Throw "Method call failed", d2)) /\
   (status = 0 <-> invoke obj meth params d = (Ok rc, d2))) /\
  (trailer = [0xf9; 0xf0; 0x01; 0x00; 0x00; 0xf1] ->
   status = STA_NOT_AUTHORIZED /\
   invoke obj meth params d = (Throw "Method call failed", d2)).
Proof.
  intros Henc Hsend Hrecv Hdec Hcount Hlen trailer status.
  assert (Htr : trailing_bytes bytes count = Z.of_nat (length trailer)).
  { unfold trailing_bytes, trailer. rewrite length_skipn.
    rewrite wrap64_small by lia. lia. }
  assert (Hst : length trailer = 6%nat -> reply_status bytes count = status).
  { intros H6. unfold reply_status, status, trailer.
    unfold trailer in H6. rewrite length_skipn in H6.
    rewrite wrap64_small by lia. rewrite nth_skipn. f_equal. lia. }
  assert (Hinv : invoke obj meth params d
                 = (if negb (trailing_bytes bytes count =? 6)
                    then Throw "Invalid method status on return"
                    else if negb (reply_status bytes count =? 0)
                         then Throw "Method call failed"
                         else Ok rc, d2)).
  { rewrite invoke_steps, Henc, Hsend, Hrecv. unfold check_reply.
    rewrite Hdec. reflexivity. }
  assert (Hfail : length trailer = 6%nat -> status <> 0 ->
                  invoke obj meth params d = (Throw "Method call failed", d2)).
  { intros H6 Hs. rewrite Hinv, Htr, H6, (Hst H6). cbn [Z.of_nat Pos.of_succ_nat
      Pos.succ Z.eqb Pos.eqb negb].
    destruct (Z.eqb_spec status 0); [contradiction | reflexivity]. }
  split; [|split].
  - intros Ht. rewrite Hinv, Htr.
    destruct (Z.eqb_spec (Z.of_nat (length trailer)) 6); [lia | reflexivity].
  - intros H6. split; split.
    + apply Hfail. exact H6.
    + intros H Hs. rewrite Hinv, Htr, H6, (Hst H6), Hs in H. discriminate H.
    + intros Hs. rewrite Hinv, Htr, H6, (Hst H6), Hs. reflexivity.
    + intros H. destruct (Z.eq_dec status 0) as [E|E]; [exact E|].
      rewrite (Hfail H6 E) in H. discriminate H.
  - intros Hb.
    assert (Hs : status = STA_NOT_AUTHORIZED) by (unfold status; rewrite Hb; reflexivity).
    split; [exact Hs|]. apply Hfail.
    + rewrite Hb. reflexivity.
    + rewrite Hs. discriminate.
Qed.

(** ** What an invocation does to the drive object *)

Lemma same_members_refl (d : drive) : same_members d d.
Proof. repeat split. Qed.

Lemma same_members_trans (d1 d2 d3 : drive) :
  same_members d1 d2 -> same_members d2 d3 -> same_members d1 d3.
Proof.
  unfold same_members. intros (A1 & A2 & A3 & A4) (B1 & B2 & B3 & B4).
  repeat split; congruence.
Qed.

Lemma recv_same_members (d : drive) : same_members d (snd (recv d)).
Proof.
  destruct (recv_cases d) as [[(k & _ & _ & _ & Hr) | [_ Hr]] _];
    rewrite Hr; repeat split.
Qed.

Lemma snd_after_recv {A : Type} (d1 : drive) (k : list Z -> outcome A) :
  snd (match recv d1 with
       | (Undefined, d2) => (Undefined, d2)
       | (Throw msg, d2) => (Throw msg, d2)
       | (Ok bytes, d2) => (k bytes, d2)
       end) = snd (recv d1).
Proof. destruct (recv d1) as [[bytes|msg|] d2]; reflexivity. Qed.

Lemma recv_trace (d : drive) :
  exists evs,
    trace (snd (recv d)) = trace d ++ evs /\
    Forall (fun ev => ev = EvRecv 1 (wrap16 (com_id d)) 1 \/ ev = EvSleep 10000) evs.
Proof.
  destruct (recv_cases d) as [_ (evs & Ht & _ & Hf)].
  exists evs. split; assumption.
Qed.

Lemma invoke_shape (d : drive) (obj meth : Z) (params : datum) :
  let r := invoke obj meth params d in
  let cid := wrap16 (com_id d) in
  same_members d (snd r) /\
  ((trace (snd r) = trace d /\ exists msg, fst r = Throw msg) \/
   (exists out later,
      let outbuf := out ++ status_trailer in
      let block := build_block d outbuf (negb (obj =? SESSION_MGR))
                     (sub_size_of outbuf) (pkt_size_of outbuf)
                     (com_size_of outbuf) (tot_size_of outbuf) in
      encode_vector (Method obj meth (list_of params) STA_SUCCESS) = Ok out /\
      tot_size_of outbuf <= max_com_pkt_size d /\
      trace (snd r)
      = trace d ++ EvSend 1 cid block (wrap8 (tot_size_of outbuf / ATA_BLOCK_SIZE))
                :: later /\
      Forall (fun ev => ev = EvRecv 1 cid 1 \/ ev = EvSleep 10000) later)).
Proof.
  intros r cid. subst r. rewrite invoke_steps.
  destruct (encode_vector_cases (Method obj meth (list_of params) STA_SUCCESS))
    as [[out Henc] | [msg Henc]]; rewrite Henc.
  2:{ split; [apply same_members_refl|]. left. split; [reflexivity | eexists; reflexivity]. }
  set (outbuf := out ++ status_trailer).
  destruct (Z_le_gt_dec (tot_size_of outbuf) (max_com_pkt_size d)) as [Hle|Hgt].
  2:{ rewrite send_oversize by exact Hgt.
      split; [apply same_members_refl|]. left. split; [reflexivity | eexists; reflexivity]. }
  rewrite (send_fits d outbuf _ Hle). cbv zeta. fold cid.
  set (block := build_block d outbuf _ _ _ _ _).
  set (bcount := wrap8 _).
  destruct (dev_send (raw d) 1 cid block bcount) as [[[]|msg|] s]; cbn [fst snd].
  3:{ split; [repeat split|]. right. exists out, []. cbv zeta.
      split; [reflexivity|]. split; [exact Hle|]. split; [reflexivity | constructor]. }
  - set (d1 := set_raw d s (EvSend 1 cid block bcount)).
    rewrite snd_after_recv.
    assert (Hm : same_members d (snd (recv d1)))
      by (apply (same_members_trans d d1); [repeat split | apply recv_same_members]).
    destruct (recv_trace d1) as (evs & Ht & Hf).
    assert (Hshape :
      exists out0 later,
        Ok out = Ok out0 /\ tot_size_of (out0 ++ status_trailer) <= max_com_pkt_size d /\
        trace (snd (recv d1))
        = trace d ++ EvSend 1 cid
            (build_block d (out0 ++ status_trailer) (negb (obj =? SESSION_MGR))
               (sub_size_of (out0 ++ status_trailer))
               (pkt_size_of (out0 ++ status_trailer))
               (com_size_of (out0 ++ status_trailer))
               (tot_size_of (out0 ++ status_trailer)))
            (wrap8 (tot_size_of (out0 ++ status_trailer) / ATA_BLOCK_SIZE)) :: later /\
        Forall (fun ev => ev = EvRecv 1 cid 1 \/ ev = EvSleep 10000) later).
    { exists out, evs. split; [reflexivity|]. split; [exact Hle|]. split.
      - rewrite Ht. unfold d1, set_raw. cbn [trace]. rewrite <- app_assoc. reflexivity.
      - exact Hf. }
    split; [exact Hm | right; exact Hshape].
  - split; [repeat split|]. right. exists out, []. cbv zeta.
    split; [reflexivity|]. split; [exact Hle|]. split; [reflexivity | constructor].
Qed.

(** ** Session identifiers in the packet header *)



(** ** Revert *)

(** C9 (amended). Revert cleanup: [admin_sp_revert] zeroes both session
    ids exactly when its [Revert] invocation returns; when the
    invocation throws (a receive timeout included) the exception
    propagates and both session ids are left as they were.  In neither
    case is an EndSession exchanged: apart from polls and sleeps, the
    only thing [admin_sp_revert] does to the device is to send the one
    block that carries the encoded [Revert] call and its status list. *)
Theorem admin_sp_revert_cleanup (d : drive) :
  let r := invoke ADMIN_SP REVERT Unset d in
  (forall rc d', r = (Ok rc, d') ->
     admin_sp_revert d = (Ok tt, set_session d' 0 0) /\
     tper_session_id (snd (admin_sp_revert d)) = 0 /\
     host_session_id (snd (admin_sp_revert d)) = 0) /\
  (forall msg d', r = (Throw msg, d') ->
     admin_sp_revert d = (Throw msg, d') /\
     tper_session_id (snd (admin_sp_revert d)) = tper_session_id d /\
     host_session_id (snd (admin_sp_revert d)) = host_session_id d) /\
  trace (snd (admin_sp_revert d)) = trace (snd r) /\
  (trace (snd r) = trace d \/
   exists out later,
     let outbuf := out ++ status_trailer in
     encode_vector (Method ADMIN_SP REVERT [] STA_SUCCESS) = Ok out /\
     trace (snd r)
     = trace d ++ EvSend 1 (wrap16 (com_id d))
                    (build_block d outbuf (negb (ADMIN_SP =? SESSION_MGR))
                       (sub_size_of outbuf) (pkt_size_of outbuf)
                       (com_size_of outbuf) (tot_size_of outbuf))
                    (wrap8 (tot_size_of outbuf / ATA_BLOCK_SIZE)) :: later /\
     Forall (fun ev => is_send ev = false) later).
Proof.
  intros r.
  destruct (invoke_shape d ADMIN_SP REVERT Unset) as [Hm Hshape].
  fold r in Hm, Hshape.
  assert (Hdef : admin_sp_revert d
                 = match r with
                   | (Ok _, d') => (Ok tt, set_session d' 0 0)
                   | (Throw msg, d') => (Throw msg, d')
                   | (Undefined, d') => (Undefined, d')
                   end) by reflexivity.
  split; [|split; [|split]].
  - intros rc d' Hr. rewrite Hdef, Hr. repeat split.
  - intros msg d' Hr. rewrite Hdef, Hr. cbn [snd].
    rewrite Hr in Hm. destruct Hm as (Ht & Hh & _). cbn [snd] in Ht, Hh.
    repeat split; assumption.
  - rewrite Hdef. destruct r as [[rc|msg|] d']; reflexivity.
  - destruct Hshape as [[Htr _] | (out & later & Henc & _ & Htr & Hf)].
    + left. exact Htr.
    + right. exists out, later. cbv zeta in *. split; [exact Henc|].
      split; [exact Htr|].
      eapply Forall_impl; [|exact Hf]. intros ev [-> | ->]; reflexivity.
Qed.

(** ** Chunked binary writes *)

Lemma wrap64_sub (a b : Z) : wrap64 (wrap64 a - b) = wrap64 (a - b).
Proof. unfold wrap64. apply Zminus_mod_idemp_l. Qed.

Lemma chunk_size_of_eq (m : Z) :
  chunk_size_of m = (wrap64 (m - 104) / 4096) * 4096.
Proof.
  unfold chunk_size_of. cbv zeta.
  change sizeof_opal_header_t with 56.
  rewrite (wrap64_sub (m - 56) 21).
  rewrite (wrap64_sub (m - 56 - 21)).
  rewrite (wrap64_sub (m - 56 - 21 - (2 + 1 + 1 + 8))).
  rewrite (wrap64_sub (m - 56 - 21 - (2 + 1 + 1 + 8) - (2 + 1 + 4 + 0))).
  rewrite (wrap64_sub (m - 56 - 21 - (2 + 1 + 1 + 8) - (2 + 1 + 4 + 0) - 5)).
  match goal with
  | |- context [wrap64 ?x] => replace x with (m - 104) by lia
  end.
  reflexivity.
Qed.

Lemma chunk_size_zero_iff (m : Z) :
  0 <= m < 2 ^ 64 -> (chunk_size_of m = 0 <-> 104 <= m < 4200).
Proof.
  intros Hm. rewrite chunk_size_of_eq. unfold wrap64.
  change (2 ^ 64) with 18446744073709551616 in *.
  destruct (Z_lt_ge_dec m 104) as [Hlt|Hge].
  - replace ((m - 104) mod 18446744073709551616)
      with (m - 104 + 18446744073709551616)
      by (apply (Z.mod_unique _ _ (-1)); lia).
    split; [intros Hz | lia].
    pose proof (Z.div_mod (m - 104 + 18446744073709551616) 4096 ltac:(lia)) as Hd.
    pose proof (Z.mod_pos_bound (m - 104 + 18446744073709551616) 4096 ltac:(lia)) as Hb.
    lia.
  - rewrite Z.mod_small by lia.
    pose proof (Z.div_mod (m - 104) 4096 ltac:(lia)) as Hd.
    pose proof (Z.mod_pos_bound (m - 104) 4096 ltac:(lia)) as Hb.
    split; intros Hz; [lia|].
    rewrite Z.div_small by lia. reflexivity.
Qed.

(** One iteration with a zero chunk size: an empty chunk is sent and
    the loop goes on with the same offset, pointer and length. *)
Lemma table_set_bin_loop_stalls (fuel : nat) (tbl_uid offset len : Z)
    (ptr : list Z) (d : drive) :
  0 < len < 2 ^ 64 -> 0 <= offset < 2 ^ 64 ->
  table_set_bin_loop (S fuel) tbl_uid 0 offset ptr len d
  = match set_bin_params offset [] with
    | Undefined => Some (Undefined, d)
    | Throw msg => Some (Throw msg, d)
    | Ok params =>
        match invoke tbl_uid SET params d with
        | (Undefined, d') => Some (Undefined, d')
        | (Throw msg, d') => Some (Throw msg, d')
        | (Ok _, d') => table_set_bin_loop fuel tbl_uid 0 offset ptr len d'
        end
    end.
Proof.
  intros Hlen Hoff. cbn [table_set_bin_loop].
  destruct (Z.eqb_spec len 0); [lia|].
  destruct (Z.gtb_spec len 0); [|lia].
  change (Z.to_nat 0) with 0%nat. cbn [firstn skipn].
  rewrite Z.add_0_r, Z.sub_0_r, !wrap64_small by lia. reflexivity.
Qed.

Lemma table_set_bin_loop_never_returns (fuel : nat) (tbl_uid offset len : Z)
    (ptr : list Z) (d d' : drive) :
  0 < len < 2 ^ 64 -> 0 <= offset < 2 ^ 64 ->
  table_set_bin_loop fuel tbl_uid 0 offset ptr len d <> Some (Ok tt, d').
Proof.
  intros Hlen Hoff. revert d. induction fuel as [|fuel IH]; intros d.
  - discriminate.
  - rewrite table_set_bin_loop_stalls by assumption.
    destruct (set_bin_params offset []) as [params|msg|];
      [|discriminate|discriminate].
    destruct (invoke tbl_uid SET params d) as [[rc|msg|] d1];
      [apply IH | discriminate | discriminate].
Qed.

(** C10 (amended). With [uint64_t] arithmetic the chunk size of
    [table_set_bin] is zero exactly when [104 <= max_com_pkt_size <
    4200], the constructor default 512 included.  Then, for a non-zero
    [len], every iteration of the loop sends an empty chunk and leaves
    the offset, the pointer and [len] unchanged, so the call never
    returns normally: it runs for as long as the [Set] invocations
    succeed and ends only with the exception of an invocation that
    throws (or with the outcome of an invocation whose reply overruns
    the receive buffer). *)
Theorem table_set_bin_zero_chunk (d : drive) (tbl_uid offset len : Z)
    (ptr : list Z) :
  104 <= max_com_pkt_size d < 4200 ->
  0 < len < 2 ^ 64 -> 0 <= offset < 2 ^ 64 ->
  (forall m, 0 <= m < 2 ^ 64 -> (chunk_size_of m = 0 <-> 104 <= m < 4200)) /\
  chunk_size_of 512 = 0 /\
  chunk_size_of (max_com_pkt_size d) = 0 /\
  (forall fuel,
     table_set_bin (S fuel) tbl_uid offset ptr len d
     = match set_bin_params offset [] with
       | Undefined => Some (Undefined, d)
       | Throw msg => Some (Throw msg, d)
       | Ok params =>
           match invoke tbl_uid SET params d with
           | (Undefined, d') => Some (Undefined, d')
           | (Throw msg, d') => Some (Throw msg, d')
           | (Ok _, d') => table_set_bin fuel tbl_uid offset ptr len d'
           end
       end) /\
  (forall fuel d', table_set_bin fuel tbl_uid offset ptr len d <> Some (Ok tt, d')).
Proof.
  intros Hmax Hlen Hoff.
  assert (Hz : chunk_size_of (max_com_pkt_size d) = 0).
  { apply chunk_size_zero_iff; [|exact Hmax].
    change (2 ^ 64) with 18446744073709551616. lia. }
  split; [exact chunk_size_zero_iff|]. split; [reflexivity|]. split; [exact Hz|].
  split.
  - intros fuel. unfold table_set_bin. rewrite Hz.
    rewrite table_set_bin_loop_stalls by assumption.
    destruct (set_bin_params offset []) as [params|msg|];
      [|reflexivity|reflexivity].
    pose proof (invoke_shape d tbl_uid SET params) as [Hm _]. cbv zeta in Hm.
    destruct (invoke tbl_uid SET params d) as [[rc|msg|] d1];
      [|reflexivity|reflexivity].
    destruct Hm as (_ & _ & _ & Hmx). cbn [snd] in Hmx. rewrite Hmx, Hz.
    reflexivity.
  - intros fuel d'. unfold table_set_bin. rewrite Hz.
    apply table_set_bin_loop_never_returns; assumption.
Qed.



End DriveFacts.



(** * Concrete runs *)

(** The envelope of the one-byte EndSession message on a drive that
    accepts two blocks. *)
Lemma envelope_length_law_witness :
  let P := silent sample_com_id in
  let d := sample_drive P O 0 0 1024 in
  law_total_size 1 = 512 /\
  exists block,
    @send P [TOK_END_SESSION] true d
    = (Ok tt, @set_raw P d O (EvSend 1 sample_com_id block 1)) /\
    Z.of_nat (length block) = 512 /\
    field 4 off_com_length block = 40 /\
    field 4 off_pkt_length block = 16 /\
    field 4 off_sub_length block = 1 /\
    sub_payload block = [TOK_END_SESSION] /\
    dxfer_len 1 = 512.
Proof.
  intros P d. split; [reflexivity|].
  destruct (@envelope_length_law P d [TOK_END_SESSION] true ltac:(cbn; lia))
    as (_ & _ & _ & Hfit).
  destruct (Hfit ltac:(vm_compute; discriminate))
    as (block & Hs & Hl & Hc & Hp & Hn & Hpl & Hdx & _).
  exists block. repeat split; assumption.
Defined.

(** C6 at a failing input: a payload of 131016 bytes on a drive that
    reports [MaxComPacketSize = 131072].  The envelope law gives a total
    of 131072 bytes, 256 blocks, which the drive accepts, so [send] does
    not throw; it hands the 131072-byte buffer to the transport with the
    block count 256 narrowed to [uint8_t], that is 0, and the transport
    transfers [0 * 512] bytes: nothing of the envelope is transmitted. *)
Lemma send_block_count_wraps :
  let P := silent sample_com_id in
  let d := sample_drive P O 0 0 131072 in
  let outbuf := repeat 0 (Z.to_nat 131016) in
  law_total_size (Z.of_nat (length outbuf)) = 131072 /\
  law_total_size (Z.of_nat (length outbuf)) <= max_com_pkt_size d /\
  exists block,
    @send P outbuf true d
    = (Ok tt, @set_raw P d O (EvSend 1 sample_com_id block 0)) /\
    Z.of_nat (length block) = 131072 /\
    transmitted_sizes (trace (snd (@send P outbuf true d))) = [0] /\
    transmitted_sizes (trace (snd (@send P outbuf true d)))
    <> [law_total_size (Z.of_nat (length outbuf))].
Proof.
  intros P d outbuf.
  assert (Hn : Z.of_nat (length outbuf) = 131016)
    by (unfold outbuf; rewrite repeat_length; apply Z2Nat.id; lia).
  clearbody outbuf. rewrite Hn.
  assert (Hlaw : law_total_size 131016 = 131072) by reflexivity.
  rewrite Hlaw.
  split; [reflexivity|]. split; [cbn; lia|].
  assert (Hsmall : Z.of_nat (length outbuf) < 2 ^ 32 - 1024)
    by (rewrite Hn; reflexivity).
  destruct (envelope_sizes outbuf Hsmall) as (_ & _ & Htot & _).
  rewrite Hn, Hlaw in Htot.
  assert (Hfit : tot_size_of outbuf <= max_com_pkt_size d)
    by (rewrite Htot; cbn; lia).
  pose proof (@send_fits P d outbuf true Hfit) as Hs. cbv zeta in Hs.
  assert (Hlen : Z.of_nat (length (@build_block P d outbuf true (sub_size_of outbuf)
                     (pkt_size_of outbuf) (com_size_of outbuf)
                     (tot_size_of outbuf))) = 131072).
  { rewrite (@build_block_length P d outbuf true (sub_size_of outbuf)
               (pkt_size_of outbuf) (com_size_of outbuf) (tot_size_of outbuf)
               eq_refl); [exact Htot|].
    rewrite Htot. unfold sub_size_of. rewrite Hn. cbn. lia. }
  revert Hs Hlen.
  generalize (@build_block P d outbuf true (sub_size_of outbuf)
                (pkt_size_of outbuf) (com_size_of outbuf) (tot_size_of outbuf)).
  intros block Hs Hlen. rewrite Htot in Hs.
  change (wrap8 (131072 / ATA_BLOCK_SIZE)) with 0 in Hs.
  exists block. rewrite Hs. split; [reflexivity|]. split; [exact Hlen|].
  split; [reflexivity | discriminate].
Qed.

(** A [Revert] answered with status [0x01]: the reply is the empty list
    followed by [F9 F0 01 00 00 F1]. *)
Lemma invoke_status_handling_witness :
  let P := answering sample_com_id STA_NOT_AUTHORIZED in
  let d := sample_drive P O 0 0 2048 in
  let d1 := snd (@send P (match spec_encode (Method (@ADMIN_SP tcg_uids)
                                  (@REVERT tcg_uids) [] STA_SUCCESS) with
                          | Ok out => out ++ status_trailer
                          | _ => []
                          end) true d) in
  let bytes := [0xf0; 0xf1; 0xf9; 0xf0; 0x01; 0x00; 0x00; 0xf1] in
  @recv P d1 = (Ok bytes, snd (@recv P d1)) /\
  @invoke P spec_codec tcg_uids (@ADMIN_SP tcg_uids) (@REVERT tcg_uids) Unset d
  = (Throw "Method call failed", snd (@recv P d1)).
Proof.
  intros P d d1 bytes.
  assert (Hrecv : @recv P d1 = (Ok bytes, snd (@recv P d1)))
    by (vm_compute; reflexivity).
  split; [exact Hrecv|].
  refine (proj2 (proj2 (proj2
    (@invoke_status_handling P spec_codec tcg_uids d d1 (snd (@recv P d1))
       (@ADMIN_SP tcg_uids) (@REVERT tcg_uids) Unset (ListD [])
       _ bytes 2 _ _ Hrecv _ _ _)) _)).
  - vm_compute. reflexivity.
  - vm_compute. reflexivity.
  - vm_compute. reflexivity.
  - cbn. lia.
  - cbn. lia.
  - reflexivity.
Defined.



(** A [Revert] in a session [(7, 9)] that the drive answers: both
    session ids are zero afterwards. *)
Lemma admin_sp_revert_cleanup_witness :
  let P := answering sample_com_id STA_SUCCESS in
  let d := sample_drive P O 7 9 2048 in
  fst (@admin_sp_revert P spec_codec tcg_uids d) = Ok tt /\
  tper_session_id (snd (@admin_sp_revert P spec_codec tcg_uids d)) = 0 /\
  host_session_id (snd (@admin_sp_revert P spec_codec tcg_uids d)) = 0.
Proof.
  intros P d.
  destruct (@admin_sp_revert_cleanup P spec_codec tcg_uids d) as [Hok _].
  destruct (Hok (ListD [])
                (snd (@invoke P spec_codec tcg_uids (@ADMIN_SP tcg_uids)
                        (@REVERT tcg_uids) Unset d))
                ltac:(vm_compute; reflexivity)) as (Hr & Ht & Hh).
  rewrite Hr. repeat split; assumption.
Defined.

(** C9 as stated fails: when the drive never answers the [Revert], the
    call times out and both session ids keep their values. *)
Lemma revert_timeout_counterexample :
  let P := silent sample_com_id in
  let d := sample_drive P O 7 9 2048 in
  let r := @admin_sp_revert P spec_codec tcg_uids d in
  fst r = Throw "Timeout waiting for response" /\
  tper_session_id (snd r) = 7 /\ host_session_id (snd r) = 9 /\
  ~ (tper_session_id (snd r) = 0 /\ host_session_id (snd r) = 0).
Proof.
  intros P d r.
  assert (Hr : fst r = Throw "Timeout waiting for response") by (vm_compute; reflexivity).
  assert (Ht : tper_session_id (snd r) = 7) by (vm_compute; reflexivity).
  assert (Hh : host_session_id (snd r) = 9) by (vm_compute; reflexivity).
  repeat split; try assumption. rewrite Ht. intros [H _]. discriminate H.
Qed.

(** A silent drive: [recv] gives up after 500 polls and 500 sleeps. *)
Lemma recv_polling_witness :
  let P := silent sample_com_id in
  let d := sample_drive P O 0 0 2048 in
  @recv P d = (Throw "Timeout waiting for response", @after_polls P d 500) /\
  polls (trace (snd (@recv P d))) = 500%nat.
Proof.
  intros P d.
  destruct (@recv_polling P d) as [[(k & Hk & _ & Hnr & _) | [_ Hr]] _].
  - exfalso. revert Hnr. vm_compute. discriminate.
  - split; [exact Hr|]. rewrite Hr. apply (@polls_poll_rounds sample_com_id 500).
Defined.

(** C7 at a failing input: the drive answers the first poll, on the
    drive's ComID and with a non-zero ComPacket length, with a
    sub-packet of 460 bytes, four more than the 456 that the one block
    read by [recv] holds after its 56 bytes of headers.  [recv] sizes
    its result to 460 bytes and copies as many from its 512-byte
    buffer, reading past the end of the buffer: it neither delivers the
    sub-packet payload nor raises an error. *)
Lemma recv_overreads_long_reply :
  let payload := repeat 0xaa 460 in
  let P := replying (reply_block sample_com_id payload) in
  let d := sample_drive P O 0 0 2048 in
  field 2 off_com_id (reply_block sample_com_id payload) = com_id d /\
  field 4 off_com_length (reply_block sample_com_id payload) <> 0 /\
  field 4 off_sub_length (reply_block sample_com_id payload) = 460 /\
  fst (@recv P d) = Undefined /\
  (forall bytes, fst (@recv P d) <> Ok bytes) /\
  (forall msg, fst (@recv P d) <> Throw msg) /\
  trace (snd (@recv P d)) = [EvRecv 1 sample_com_id 1].
Proof.
  intros payload P d.
  assert (Hr : fst (@recv P d) = Undefined) by (vm_compute; reflexivity).
  split; [vm_compute; reflexivity|]. split; [vm_compute; discriminate|].
  split; [vm_compute; reflexivity|]. split; [exact Hr|].
  split; [intros bytes; rewrite Hr; discriminate|].
  split; [intros msg; rewrite Hr; discriminate|].
  vm_compute. reflexivity.
Qed.

(** C10 as stated fails: at the default [max_com_pkt_size = 512] the
    chunk size is zero, and yet a call with [len = 1] terminates, by the
    exception of its first [Set] invocation, which the drive refuses. *)
Lemma zero_chunk_terminates_counterexample :
  let P := answering sample_com_id STA_NOT_AUTHORIZED in
  let d := sample_drive P O 0 0 512 in
  chunk_size_of (max_com_pkt_size d) = 0 /\
  exists d',
    @table_set_bin P spec_codec tcg_uids 1 0x0000080400000000 0 [0xaa] 1 d
    = Some (Throw "Method call failed", d').
Proof.
  intros P d. split; [reflexivity|].
  eexists. vm_compute. reflexivity.
Qed.

(** At [max_com_pkt_size = 512] with a drive that refuses the call, one
    iteration sends an empty chunk and the call ends with the
    exception; it never returns normally. *)
Lemma table_set_bin_zero_chunk_witness :
  let P := answering sample_com_id STA_NOT_AUTHORIZED in
  let d := sample_drive P O 0 0 512 in
  chunk_size_of (max_com_pkt_size d) = 0 /\
  forall fuel d',
    @table_set_bin P spec_codec tcg_uids fuel 0x0000080400000000 0 [0xaa] 1 d
    <> Some (Ok tt, d').
Proof.
  intros P d.
  destruct (@table_set_bin_zero_chunk P spec_codec tcg_uids d
              0x0000080400000000 0 1 [0xaa]
              ltac:(cbn; lia) ltac:(cbn; lia) ltac:(cbn; lia))
    as (_ & _ & Hz & _ & Hnever).
  split; [exact Hz | exact Hnever].
Defined.

(** C8 at a failing input: a drive that reports [MaxComPacketSize =
    2048] and accepts every call.  The chunk size is zero, every [Set]
    call carries an empty chunk, and the one byte to write is never
    sent: the loop has not ended after any number of iterations. *)
Lemma table_set_bin_stalls_at_2048 :
  let P := answering sample_com_id STA_SUCCESS in
  let d := sample_drive P O 7 9 2048 in
  chunk_size_of (max_com_pkt_size d) = 0 /\
  set_calls 3 0 0 [0xaa] 1 = [(0, []); (0, []); (0, [])] /\
  forall fuel,
    @table_set_bin P spec_codec tcg_uids fuel 0x0000080400000000 0 [0xaa] 1 d
    = None.
Proof.
  intros P d. split; [reflexivity|]. split; [reflexivity|].
  assert (Hstep : forall (s : nat) (tr : list event),
    exists s' tr',
      @invoke P spec_codec tcg_uids 0x0000080400000000 (@SET tcg_uids)
        (match @set_bin_params P 0 [] with Ok p => p | _ => Unset end)
        (@mk_drive P 7 9 sample_com_id 2048 s tr)
      = (Ok (ListD []), @mk_drive P 7 9 sample_com_id 2048 s' tr')).
  { intros s tr. exists (S s). eexists. vm_compute. reflexivity. }
  assert (Hloop : forall fuel (s : nat) (tr : list event),
    @table_set_bin_loop P spec_codec tcg_uids fuel 0x0000080400000000 0 0 [0xaa] 1
      (@mk_drive P 7 9 sample_com_id 2048 s tr) = None).
  { induction fuel as [|fuel IH]; intros s tr; [reflexivity|].
    rewrite (@table_set_bin_loop_stalls P spec_codec tcg_uids) by (cbn; lia).
    change (@set_bin_params P 0 [])
      with (Ok (match @set_bin_params P 0 [] with Ok p => p | _ => Unset end)).
    destruct (Hstep s tr) as (s' & tr' & Hs). rewrite Hs. apply IH. }
  intros fuel. apply Hloop.
Qed.

(** * Further properties of the atom codec *)

(** ** Decoding arbitrary buffers *)

Lemma be_to_Z_cons (b : Z) (l : list Z) :
  be_to_Z (b :: l) = b * 256 ^ Z.of_nat (length l) + be_to_Z l.
Proof.
  change (b :: l) with ([b] ++ l). rewrite be_to_Z_app.
  change (be_to_Z [b]) with (0 * 256 + b). ring.
Qed.

Lemma be_to_Z_snoc (l : list Z) (b : Z) :
  be_to_Z (l ++ [b]) = be_to_Z l * 256 + b.
Proof.
  rewrite be_to_Z_app. change (be_to_Z [b]) with (0 * 256 + b).
  change (Z.of_nat (length [b])) with 1. rewrite Z.pow_1_r. ring.
Qed.

Lemma is_byte_range (b : Z) : is_byte b = true <-> 0 <= b < 256.
Proof.
  unfold is_byte. rewrite andb_true_iff, Z.leb_le, Z.ltb_lt. reflexivity.
Qed.

Lemma be_to_Z_bound (l : list Z) :
  forallb is_byte l = true -> 0 <= be_to_Z l < 256 ^ Z.of_nat (length l).
Proof.
  induction l as [|b l IH] using rev_ind; intros Hb.
  - cbn. lia.
  - rewrite forallb_app in Hb. apply andb_prop in Hb. destruct Hb as [Hl Hb].
    cbn [forallb] in Hb. rewrite andb_true_r in Hb. apply is_byte_range in Hb.
    specialize (IH Hl). rewrite be_to_Z_snoc, length_app. cbn [length].
    replace (Z.of_nat (length l + 1)) with (Z.succ (Z.of_nat (length l))) by lia.
    rewrite Z.pow_succ_r by lia. lia.
Qed.

Lemma be_bytes_be_to_Z (l : list Z) :
  forallb is_byte l = true -> be_bytes (length l) (be_to_Z l) = l.
Proof.
  induction l as [|b l IH] using rev_ind; intros Hb; [reflexivity|].
  rewrite forallb_app in Hb. apply andb_prop in Hb. destruct Hb as [Hl Hb].
  cbn [forallb] in Hb. rewrite andb_true_r in Hb. apply is_byte_range in Hb.
  rewrite length_app. cbn [length]. rewrite Nat.add_1_r. cbn [be_bytes].
  rewrite be_to_Z_snoc.
  replace ((be_to_Z l * 256 + b) / 256) with (be_to_Z l)
    by (apply (Z.div_unique _ _ _ b); lia).
  replace ((be_to_Z l * 256 + b) mod 256) with b
    by (apply (Z.mod_unique _ _ (be_to_Z l)); lia).
  rewrite (IH Hl). reflexivity.
Qed.

Lemma forallb_firstn {A : Type} (f : A -> bool) (n : nat) (l : list A) :
  forallb f l = true -> forallb f (firstn n l) = true.
Proof.
  revert n; induction l as [|x l IH]; intros [|n] H; try reflexivity.
  cbn in *. apply andb_prop in H. destruct H as [-> H]. cbn. apply IH, H.
Qed.

Lemma forallb_skipn {A : Type} (f : A -> bool) (n : nat) (l : list A) :
  forallb f l = true -> forallb f (skipn n l) = true.
Proof.
  revert n; induction l as [|x l IH]; intros [|n] H; try reflexivity; try exact H.
  cbn in *. apply andb_prop in H. destruct H as [_ H]. apply IH, H.
Qed.

(** The integer pattern that [decode_int] reads from the byte string
    [l]: it fits [l]'s width, and its low bytes are [l] again. *)
Lemma decode_int_bytes (this : atom) (l rest : list Z) :
  forallb is_byte l = true -> (1 <= length l <= 8)%nat ->
  data_type this = UINT \/ data_type this = INT ->
  exists uv,
    0 <= uv < 2 ^ 64 /\
    int_fits (data_type this) (length l) uv /\
    be_bytes (length l) uv = l /\
    decode_int this (l ++ rest) (Z.of_nat (length l))
    = Ok (set_val (set_skip this (8 - Z.of_nat (length l))) uv).
Proof.
  intros Hb Hn Hty.
  pose proof (be_to_Z_bound l Hb) as HV.
  pose proof (be_bytes_be_to_Z l Hb) as Hinv.
  pose proof (pow256_split (length l) ltac:(lia)) as Hsplit.
  assert (Hq : 0 < 256 ^ Z.of_nat (8 - length l)) by (apply Z.pow_pos_nonneg; lia).
  assert (Hex : exists uv, 0 <= uv < 2 ^ 64 /\
                           int_fits (data_type this) (length l) uv /\
                           be_bytes (length l) uv = l).
  { destruct l as [|b l']; [cbn in Hn; lia|].
    assert (Hb0 : 0 <= b < 256).
    { cbn [forallb] in Hb. apply andb_prop in Hb. apply is_byte_range. apply Hb. }
    assert (Hl' : 0 <= be_to_Z l' < 256 ^ Z.of_nat (length l')).
    { apply be_to_Z_bound. cbn [forallb] in Hb. apply andb_prop in Hb. apply Hb. }
    rewrite be_to_Z_cons in HV, Hinv.
    cbn [length] in *. rewrite Nat2Z.inj_succ, Z.pow_succ_r in * by lia.
    set (V := b * 256 ^ Z.of_nat (length l') + be_to_Z l') in *.
    set (P := 256 ^ Z.of_nat (length l')) in *.
    set (Q := 256 ^ Z.of_nat (8 - S (length l'))) in *.
    change (2 ^ 64) with 18446744073709551616 in *.
    destruct Hty as [Hty | Hty]; rewrite Hty.
    - exists V. split; [nia|]. split; [cbn [int_fits]; rewrite Nat2Z.inj_succ, Z.pow_succ_r by lia; fold P; lia|].
      exact Hinv.
    - destruct (Z.ltb_spec b 128) as [Hlo | Hhi].
      + exists V. split; [nia|]. split; [|exact Hinv].
        cbn [int_fits]. rewrite Nat2Z.inj_succ, Z.pow_succ_r by lia. fold P.
        change (2 ^ 63) with 9223372036854775808.
        change (2 ^ 64) with 18446744073709551616.
        assert (V < 128 * P) by (unfold V; nia).
        assert (128 * P <= 9223372036854775808) by nia.
        destruct (Z.ltb_spec V 9223372036854775808); lia.
      + exists (18446744073709551616 - 256 * P + V).
        assert (128 * P <= V) by (unfold V; nia).
        assert (128 * P <= 9223372036854775808) by nia.
        split; [nia|]. split.
        * cbn [int_fits]. rewrite Nat2Z.inj_succ, Z.pow_succ_r by lia. fold P.
          change (2 ^ 63) with 9223372036854775808.
          change (2 ^ 64) with 18446744073709551616.
          destruct (Z.ltb_spec (18446744073709551616 - 256 * P + V) 9223372036854775808);
            lia.
        * rewrite <- be_bytes_mod, Nat2Z.inj_succ, Z.pow_succ_r by lia. fold P.
          replace ((18446744073709551616 - 256 * P + V) mod (256 * P)) with V;
            [exact Hinv|].
          apply (Z.mod_unique _ _ (Q - 1)); [left; lia | lia]. }
  destruct Hex as (uv & Huv & Hfit & Hbe).
  exists uv. split; [exact Huv|]. split; [exact Hfit|]. split; [exact Hbe|].
  rewrite <- Hbe at 1. apply decode_int_ok; assumption.
Qed.

Lemma split_len (c d : Z) :
  0 <= c -> 0 <= d < 256 ->
  Z.shiftr (c * 256 + d) 8 = c /\ Z.land 0xff (c * 256 + d) = d.
Proof.
  intros Hc Hd. rewrite land_0xff, Z.shiftr_div_pow2 by lia.
  change (2 ^ 8) with 256. split.
  - symmetry. apply (Z.div_unique _ _ _ d); lia.
  - symmetry. apply (Z.mod_unique _ _ c); lia.
Qed.

Lemma split_len3 (d1 d2 d3 : Z) :
  0 <= d1 < 256 -> 0 <= d2 < 256 -> 0 <= d3 < 256 ->
  let len := (d1 * 256 + d2) * 256 + d3 in
  Z.land 0xff (Z.shiftr len 16) = d1 /\
  Z.land 0xff (Z.shiftr len 8) = d2 /\
  Z.land 0xff len = d3 /\ 0 <= len < 16777216.
Proof.
  intros H1 H2 H3 len. subst len.
  rewrite !land_0xff, !Z.shiftr_div_pow2 by lia.
  change (2 ^ 8) with 256. change (2 ^ 16) with 65536.
  assert (E3 : ((d1 * 256 + d2) * 256 + d3) mod 256 = d3)
    by (symmetry; apply (Z.mod_unique _ _ (d1 * 256 + d2)); lia).
  assert (E2 : ((d1 * 256 + d2) * 256 + d3) / 256 = d1 * 256 + d2)
    by (symmetry; apply (Z.div_unique _ _ _ d3); lia).
  assert (E1 : ((d1 * 256 + d2) * 256 + d3) / 65536 = d1)
    by (symmetry; apply (Z.div_unique _ _ _ (d2 * 256 + d3)); lia).
  rewrite E1, E2, E3.
  rewrite (Z.mod_small d1) by lia.
  replace ((d1 * 256 + d2) mod 256) with d2
    by (apply (Z.mod_unique _ _ d1); lia).
  repeat split; lia.
Qed.

Ltac closed_range := cbv; split; [discriminate | reflexivity].

(** Every first byte in [0x80, 0xe4) either makes [decode_header] throw
    or is the first byte of the header of some type, class and length. *)
Lemma header_factor (this : atom) (h : Z) (tl : list Z) :
  0x80 <= h < 0xe4 -> forallb is_byte tl = true ->
  (exists msg, decode_header this (h :: tl) = Throw msg) \/
  (exists ty enc len tl',
     ty <> EMPTY /\ 0 <= len < len_bound enc /\
     h :: tl = header ty enc len ++ tl').
Proof.
  intros Hh Hb.
  destruct (Z.ltb_spec h 0xc0) as [Hs | Hs];
    [| destruct (Z.ltb_spec h 0xe0) as [Hm | Hm]].
  - (* short *)
    replace h with (0x80 + (h - 0x80)) by lia.
    assert (Hk : 0 <= h - 0x80 < Z.of_nat 64) by lia.
    revert Hk. generalize (h - 0x80). apply (Z_small_cases 64). intros k Hk.
    each_nat k 64%nat;
      lazymatch goal with
      | |- (exists msg, decode_header _ (?x :: _) = _) \/ _ =>
          first
            [ left; eexists; reflexivity
            | right; exists UINT, SHORT, (Z.land x 0x0f), tl;
              split; [discriminate | split; [closed_range | reflexivity]]
            | right; exists INT, SHORT, (Z.land x 0x0f), tl;
              split; [discriminate | split; [closed_range | reflexivity]]
            | right; exists BYTES, SHORT, (Z.land x 0x0f), tl;
              split; [discriminate | split; [closed_range | reflexivity]] ]
      end.
  - (* medium *)
    destruct tl as [|d1 tl'].
    { left. unfold decode_header. cbn [nth].
      destruct (Z.ltb_spec h MEDIUM_TOK) as [E|_]; [unfold MEDIUM_TOK in E; lia|].
      destruct (Z.ltb_spec h LONG_TOK) as [_|E]; [|unfold LONG_TOK in E; lia].
      eexists. reflexivity. }
    assert (Hd1 : 0 <= d1 < 256).
    { cbn [forallb] in Hb. apply andb_prop in Hb. apply is_byte_range, Hb. }
    replace h with (0xc0 + (h - 0xc0)) by lia.
    assert (Hk : 0 <= h - 0xc0 < Z.of_nat 32) by lia.
    revert Hk. generalize (h - 0xc0). apply (Z_small_cases 32). intros k Hk.
    unfold decode_header.
    rewrite (decode_check_size_ok _ 2) by (cbn [length]; lia).
    each_nat k 32%nat;
      lazymatch goal with
      | |- (exists msg, (if nth 0 (?x :: _) 0 <? _ then _ else _) = _) \/ _ =>
          first
            [ left; eexists; reflexivity
            | right; exists UINT, MEDIUM, (Z.land 0x07 x * 256 + d1), tl';
              assert (Hc : 0 <= Z.land 0x07 x < 8) by closed_range;
              destruct (split_len (Z.land 0x07 x) d1 ltac:(lia) Hd1) as [E1 E2];
              split; [discriminate | split; [cbn [len_bound]; lia |]];
              unfold header; rewrite E1, E2; reflexivity
            | right; exists INT, MEDIUM, (Z.land 0x07 x * 256 + d1), tl';
              assert (Hc : 0 <= Z.land 0x07 x < 8) by closed_range;
              destruct (split_len (Z.land 0x07 x) d1 ltac:(lia) Hd1) as [E1 E2];
              split; [discriminate | split; [cbn [len_bound]; lia |]];
              unfold header; rewrite E1, E2; reflexivity
            | right; exists BYTES, MEDIUM, (Z.land 0x07 x * 256 + d1), tl';
              assert (Hc : 0 <= Z.land 0x07 x < 8) by closed_range;
              destruct (split_len (Z.land 0x07 x) d1 ltac:(lia) Hd1) as [E1 E2];
              split; [discriminate | split; [cbn [len_bound]; lia |]];
              unfold header; rewrite E1, E2; reflexivity ]
      end.
  - (* long *)
    replace h with (0xe0 + (h - 0xe0)) by lia.
    assert (Hk : 0 <= h - 0xe0 < Z.of_nat 4) by lia.
    revert Hk. generalize (h - 0xe0). apply (Z_small_cases 4). intros k Hk.
    destruct tl as [|d1 [|d2 [|d3 tl']]];
      try (left; each_nat k 4%nat; eexists; reflexivity).
    assert (Hd : 0 <= d1 < 256 /\ 0 <= d2 < 256 /\ 0 <= d3 < 256).
    { cbn [forallb] in Hb. rewrite !andb_true_iff, !is_byte_range in Hb. tauto. }
    destruct Hd as (Hd1 & Hd2 & Hd3).
    destruct (split_len3 d1 d2 d3 Hd1 Hd2 Hd3) as (E1 & E2 & E3 & Hlen).
    unfold decode_header.
    rewrite (decode_check_size_ok _ 4) by (cbn [length]; lia).
    each_nat k 4%nat;
      first
        [ left; eexists; reflexivity
        | right; exists UINT, LONG, ((d1 * 256 + d2) * 256 + d3), tl';
          split; [discriminate | split; [exact Hlen |]];
          unfold header; rewrite E1, E2, E3; reflexivity
        | right; exists INT, LONG, ((d1 * 256 + d2) * 256 + d3), tl';
          split; [discriminate | split; [exact Hlen |]];
          unfold header; rewrite E1, E2, E3; reflexivity
        | right; exists BYTES, LONG, ((d1 * 256 + d2) * 256 + d3), tl';
          split; [discriminate | split; [exact Hlen |]];
          unfold header; rewrite E1, E2, E3; reflexivity ].
Qed.

Lemma int_fits_wf (ty : type_t) (enc : enc_t) (n : nat) (uv : Z) (bs : list Z) :
  ty = UINT \/ ty = INT -> 0 < len_bound enc ->
  (1 <= n <= 8)%nat -> 0 <= uv < 2 ^ 64 -> int_fits ty n uv ->
  wf_atom (mk_atom ty enc (8 - Z.of_nat n) uv bs) = true.
Proof.
  intros Hty Henc Hn Huv Hfit.
  assert (Hp : 2 ^ (8 * (8 - (8 - Z.of_nat n))) = 256 ^ Z.of_nat n).
  { rewrite <- pow2_8n. f_equal. lia. }
  assert (Hh : 2 * 2 ^ (8 * (8 - (8 - Z.of_nat n)) - 1) = 256 ^ Z.of_nat n).
  { rewrite <- Z.pow_succ_r, <- pow2_8n by lia. f_equal. lia. }
  unfold wf_atom, int_val. cbn [data_type data_enc int_skip uint_val].
  unfold int_fits in Hfit.
  set (H := 2 ^ (8 * (8 - (8 - Z.of_nat n)) - 1)) in *.
  set (F := 2 ^ (8 * (8 - (8 - Z.of_nat n)))) in *.
  set (P := 256 ^ Z.of_nat n) in *.
  clearbody H F P.
  destruct Hty as [-> | ->];
    destruct enc; cbn [len_bound] in Henc; try lia;
    cbv zeta in Hfit;
    repeat (apply andb_true_intro; split);
    first [apply Z.leb_le | apply Z.ltb_lt]; lia.
Qed.

Lemma decode_reserved (this : atom) (d0 : Z) (tl : list Z) :
  0xe4 <= d0 -> d0 <> 0xff ->
  decode_bytes this (d0 :: tl) = Throw "Cannot parse atom (invalid token)".
Proof.
  intros Hd Hff. unfold decode_bytes.
  rewrite decode_check_size_ok by (cbn [length]; lia).
  cbn [bind nth].
  destruct (Z.eqb_spec d0 EMPTY_TOK) as [E|_]; [unfold EMPTY_TOK in E; lia|].
  destruct (Z.ltb_spec d0 SHORT_TOK) as [E|_]; [unfold SHORT_TOK in E; lia|].
  unfold decode_header. cbn [nth].
  destruct (Z.ltb_spec d0 MEDIUM_TOK) as [E|_]; [unfold MEDIUM_TOK in E; lia|].
  destruct (Z.ltb_spec d0 LONG_TOK) as [E|_]; [unfold LONG_TOK in E; lia|].
  destruct (Z.ltb_spec d0 0xe4) as [E|_]; [lia|].
  reflexivity.
Qed.

(** A first byte below [0x80] decodes to a tiny atom that is well formed
    and encodes to that byte again. *)
Lemma decode_tiny_sound (this : atom) (k : nat) (tl : list Z) :
  (k < 128)%nat ->
  exists ty v,
    decode_bytes this (Z.of_nat k :: tl)
    = Ok (mk_atom ty TINY (int_skip this) v (bytes this), 1) /\
    forall s bs,
      wf_atom (mk_atom ty TINY s v bs) = true /\
      encode_bytes (mk_atom ty TINY s v bs) = ([Z.of_nat k], 1).
Proof.
  intros Hk. unfold decode_bytes.
  rewrite decode_check_size_ok by (cbn [length]; lia).
  each_nat k 128%nat;
    (do 2 eexists; split; [reflexivity | intros s bs; split; reflexivity]).
Qed.

(** What [decode_bytes] returns, whatever the bytes: a well-formed atom,
    a count within the buffer, and an atom whose encoding is the bytes
    consumed. *)
Lemma decode_sound (this : atom) (data : list Z) (a : atom) (n : Z) :
  forallb is_byte data = true ->
  decode_bytes this data = Ok (a, n) ->
  wf_atom a = true /\ 1 <= n <= Z.of_nat (length data) /\
  encode_bytes a = (firstn (Z.to_nat n) data, n).
Proof.
  intros Hb Hdec. destruct data as [|d0 tl]; [discriminate Hdec|].
  cbn [forallb] in Hb. apply andb_prop in Hb. destruct Hb as [Hd0 Hb].
  apply is_byte_range in Hd0.
  destruct (Z.eq_dec d0 0xff) as [-> | Hff].
  { unfold decode_bytes in Hdec.
    rewrite decode_check_size_ok in Hdec by (cbn [length]; lia).
    cbn in Hdec. injection Hdec as <- <-.
    split; [reflexivity|]. split; [cbn [length]; lia | reflexivity]. }
  destruct (Z.ltb_spec d0 0x80) as [Htiny | Hframed].
  { destruct (decode_tiny_sound this (Z.to_nat d0) tl ltac:(lia))
      as (ty & v & Hd & Hwf).
    rewrite Z2Nat.id in Hd, Hwf by lia. rewrite Hd in Hdec.
    injection Hdec as <- <-.
    destruct (Hwf (int_skip this) (bytes this)) as [H1 H2].
    split; [exact H1|]. split; [cbn [length]; lia | exact H2]. }
  destruct (Z.ltb_spec d0 0xe4) as [Hlt | Hres];
    [| rewrite decode_reserved in Hdec by assumption; discriminate Hdec].
  rewrite decode_bytes_framed in Hdec by lia.
  destruct (header_factor this d0 tl ltac:(lia) Hb)
    as [[msg Hthrow] | (ty & enc & len & tl' & Hty & Hlen & Hsplit)].
  { rewrite Hthrow in Hdec. discriminate Hdec. }
  assert (Hbt : forallb is_byte tl' = true).
  { assert (Hall : forallb is_byte (d0 :: tl) = true).
    { cbn [forallb]. rewrite Hb, andb_true_r. apply is_byte_range. exact Hd0. }
    rewrite Hsplit, forallb_app in Hall. apply andb_prop in Hall. apply Hall. }
  assert (Henc : 0 < len_bound enc) by lia.
  assert (Hne : enc <> TINY /\ enc <> NONE)
    by (destruct enc; cbn [len_bound] in Henc; split; (congruence || lia)).
  destruct Hne as [Hnt Hnn].
  rewrite Hsplit in Hdec |- *. clear Hsplit.
  rewrite decode_header_ok in Hdec by assumption. cbn [bind] in Hdec.
  set (hdr := header ty enc len) in *.
  assert (Hhl : 1 <= Z.of_nat (length hdr))
    by (unfold hdr; destruct enc; cbn [header length]; lia).
  unfold decode_check_size in Hdec.
  destruct (Z.ltb_spec (Z.of_nat (length (hdr ++ tl'))) (Z.of_nat (length hdr) + len))
    as [|Hroom]; [discriminate Hdec|].
  cbn [bind] in Hdec.
  rewrite Nat2Z.id, skipn_app_exact in Hdec by reflexivity.
  rewrite length_app in Hroom.
  cbn [data_type set_type] in Hdec.
  assert (Hfl : length (firstn (Z.to_nat len) tl') = Z.to_nat len)
    by (apply firstn_length_le; lia).
  assert (Hcut : firstn (Z.to_nat (Z.of_nat (length hdr) + len)) (hdr ++ tl')
                 = hdr ++ firstn (Z.to_nat len) tl').
  { rewrite firstn_app. rewrite firstn_all2 by lia. f_equal. f_equal. lia. }
  assert (Hints :
    ty = UINT \/ ty = INT ->
    forall a0,
      decode_int (set_type (set_enc this enc) ty) tl' len = Ok a0 ->
      wf_atom a0 = true /\
      encode_bytes a0 = (hdr ++ firstn (Z.to_nat len) tl', Z.of_nat (length hdr) + len)).
  { intros Hi a0 Ha0.
    assert (Hl8 : 1 <= len <= 8).
    { unfold decode_int in Ha0.
      destruct (Z.eqb_spec len 0); [discriminate Ha0|].
      destruct (Z.gtb_spec len 8); [discriminate Ha0|]. lia. }
    set (l := firstn (Z.to_nat len) tl') in *.
    assert (Hlen_l : Z.of_nat (length l) = len) by lia.
    destruct (decode_int_bytes (set_type (set_enc this enc) ty) l
                (skipn (Z.to_nat len) tl') (forallb_firstn _ _ _ Hbt) ltac:(lia))
      as (uv & Huv & Hfit & Hbe & Hd).
    { cbn [data_type set_type]. exact Hi. }
    unfold l in Hd at 1. rewrite firstn_skipn, Hlen_l in Hd.
    rewrite Hd in Ha0.
    assert (Ea : a0 = set_val (set_skip (set_type (set_enc this enc) ty) (8 - len)) uv)
      by congruence.
    clear Ha0. subst a0.
    cbn [data_type set_type] in Hfit.
    split.
    - unfold set_val, set_skip, set_type, set_enc.
      cbn [data_type data_enc int_skip uint_val bytes].
      rewrite <- Hlen_l. apply int_fits_wf; (assumption || lia).
    - rewrite encode_bytes_split;
        [ | cbn [data_type set_val set_skip set_type]; destruct Hi; congruence
          | cbn [data_enc set_val set_skip set_type set_enc]; exact Hnt
          | cbn [data_enc set_val set_skip set_type set_enc]; exact Hnn ].
      assert (Hpl : payload_len (set_val (set_skip (set_type (set_enc this enc) ty)
                                                   (8 - len)) uv) = len).
      { unfold payload_len. cbn [data_type int_skip set_val set_skip set_type].
        destruct Hi as [-> | ->]; lia. }
      assert (Hpay : payload (set_val (set_skip (set_type (set_enc this enc) ty)
                                                (8 - len)) uv) = l).
      { unfold payload.
        cbn [data_type int_skip uint_val set_val set_skip set_type].
        assert (E : firstn (Z.to_nat (8 - (8 - len)))
                      (skipn (Z.to_nat (8 - len)) (be_bytes 8 uv)) = l).
        { rewrite int_payload by lia.
          replace (Z.to_nat (8 - (8 - len))) with (length l) by lia. exact Hbe. }
        destruct Hi as [-> | ->]; exact E. }
      rewrite Hpl, Hpay.
      cbn [data_type data_enc set_val set_skip set_type set_enc]. reflexivity. }
  destruct ty; try congruence.
  - destruct (decode_int _ tl' len) as [a0|msg|] eqn:Ha0;
    [|discriminate Hdec|discriminate Hdec].
    cbn [bind] in Hdec. injection Hdec as <- <-.
    destruct (Hints (or_introl eq_refl) a0 eq_refl) as [H1 H2].
    split; [exact H1|]. split; [rewrite length_app; lia|].
    rewrite Hcut. exact H2.
  - destruct (decode_int _ tl' len) as [a0|msg|] eqn:Ha0;
    [|discriminate Hdec|discriminate Hdec].
    cbn [bind] in Hdec. injection Hdec as <- <-.
    destruct (Hints (or_intror eq_refl) a0 eq_refl) as [H1 H2].
    split; [exact H1|]. split; [rewrite length_app; lia|].
    rewrite Hcut. exact H2.
  - injection Hdec as <- <-.
    split; [|split; [rewrite length_app; lia|]].
    + unfold wf_atom. cbn [data_type data_enc bytes set_bytes set_type set_enc].
      rewrite forallb_firstn by exact Hbt. cbn [andb].
      rewrite Hfl. destruct enc; cbn [len_bound] in Hlen; try lia;
        apply Z.ltb_lt; lia.
    + rewrite Hcut, encode_bytes_split;
        [ | cbn [data_type set_bytes set_type]; congruence
          | cbn [data_enc set_bytes set_type set_enc]; exact Hnt
          | cbn [data_enc set_bytes set_type set_enc]; exact Hnn ].
      unfold payload_len, payload.
      cbn [data_type data_enc bytes set_bytes set_type set_enc].
      rewrite Hfl, Z2Nat.id by lia. reflexivity.
Qed.

(** X1. Whatever bytes [decode_bytes] is given, an atom it returns is
    well formed and the count it returns lies within the buffer: at
    least one byte and at most the buffer's length. *)
Theorem decode_bytes_well_formed (this : atom) (data : list Z) (a : atom) (n : Z) :
  forallb is_byte data = true ->
  decode_bytes this data = Ok (a, n) ->
  wf_atom a = true /\ 1 <= n <= Z.of_nat (length data).
Proof.
  intros Hb Hdec.
  destruct (decode_sound this data a n Hb Hdec) as (H1 & H2 & _).
  split; assumption.
Qed.

(** X2. Decoding loses nothing: when [decode_bytes] returns an atom and
    a count [n], [encode_bytes] of that atom writes exactly the [n]
    bytes that were consumed, and decoding those bytes again, followed by
    anything, gives an equal atom and the same count. *)
Theorem decode_then_encode (this : atom) (data : list Z) (a : atom) (n : Z) :
  forallb is_byte data = true ->
  decode_bytes this data = Ok (a, n) ->
  encode_bytes a = (firstn (Z.to_nat n) data, n) /\
  size a = n /\
  forall receiver rest, exists a',
    decode_bytes receiver (firstn (Z.to_nat n) data ++ rest) = Ok (a', n) /\
    atom_eq a' a = true.
Proof.
  intros Hb Hdec.
  destruct (decode_sound this data a n Hb Hdec) as (Hwf & _ & Henc).
  split; [exact Henc|].
  assert (Hsz : size a = n).
  { destruct (wf_round_trip this a [] Hwf) as (Hs & _).
    rewrite Henc in Hs. cbn [snd] in Hs. congruence. }
  split; [exact Hsz|].
  intros receiver rest.
  destruct (wf_round_trip receiver a rest Hwf) as (_ & _ & a' & Hd & He).
  rewrite Henc, Hsz in Hd. cbn [fst] in Hd.
  exists a'. split; assumption.
Qed.

(** X3. The tokens [0xE4] to [0xFE], among them the sequence and control
    tokens of the datum layer, are never taken for an atom: a buffer that
    starts with one is rejected whatever follows. *)
Theorem decode_rejects_reserved_tokens (this : atom) (d0 : Z) (tl : list Z) :
  0xe4 <= d0 <= 0xfe ->
  decode_bytes this (d0 :: tl) = Throw "Cannot parse atom (invalid token)".
Proof. intros Hd. apply decode_reserved; lia. Qed.

Lemma header_class (ty : type_t) (enc : enc_t) (len : Z) :
  ty <> EMPTY -> 0 <= len < len_bound enc ->
  exists h tl, header ty enc len = h :: tl /\
    match enc with
    | SHORT => 0x80 <= h < 0xc0
    | MEDIUM => 0xc0 <= h < 0xe0
    | LONG => 0xe0 <= h < 0xe4
    | _ => False
    end.
Proof.
  intros Hty Hlen. destruct enc; cbn [len_bound] in Hlen; try lia.
  - eexists; eexists; split; [reflexivity|].
    revert len Hlen. apply (Z_small_cases 16). intros k Hk.
    destruct ty; try congruence; (each_nat k 16%nat; closed_range).
  - eexists; eexists; split; [reflexivity|].
    assert (Hq : 0 <= Z.shiftr len 8 < Z.of_nat 8).
    { rewrite Z.shiftr_div_pow2 by lia. change (2 ^ 8) with 256.
      split; [apply Z.div_pos; lia | apply Z.div_lt_upper_bound; lia]. }
    revert Hq. generalize (Z.shiftr len 8). apply (Z_small_cases 8). intros k Hk.
    destruct ty; try congruence; (each_nat k 8%nat; closed_range).
  - eexists; eexists; split; [reflexivity|].
    destruct ty; try congruence; closed_range.
Qed.

Lemma decode_header_cut (this : atom) (h : Z) (t : list Z) :
  (0xc0 <= h < 0xe0 /\ (length t < 1)%nat) \/
  (0xe0 <= h < 0xe4 /\ (length t < 3)%nat) ->
  decode_header this (h :: t) = Throw "Atom encoding too short".
Proof.
  intros H. unfold decode_header. cbn [nth]. unfold decode_check_size.
  destruct (Z.ltb_spec h MEDIUM_TOK) as [E|E]; unfold MEDIUM_TOK in E; [lia|].
  destruct (Z.ltb_spec h LONG_TOK) as [F|F]; unfold LONG_TOK in F.
  - destruct (Z.ltb_spec (Z.of_nat (length (h :: t))) 2) as [_|G];
      [reflexivity | cbn [length] in G; lia].
  - destruct (Z.ltb_spec h 0xe4) as [_|G]; [|lia].
    destruct (Z.ltb_spec (Z.of_nat (length (h :: t))) 4) as [_|G];
      [reflexivity | cbn [length] in G; lia].
Qed.

Lemma payload_length (a : atom) :
  wf_atom a = true -> data_type a <> EMPTY -> data_enc a <> TINY ->
  Z.of_nat (length (payload a)) = payload_len a.
Proof.
  intros Hwf Hty Htiny. unfold payload, payload_len.
  destruct (data_type a) eqn:E; try congruence; try reflexivity;
    (destruct (wf_int_fits a Hwf ltac:(auto) Htiny) as (Hs & _);
     rewrite int_payload, be_bytes_length by lia; lia).
Qed.

Lemma decode_cut (this a : atom) (n : nat) :
  wf_atom a = true ->
  (n < length (fst (encode_bytes a)))%nat ->
  decode_bytes this (firstn n (fst (encode_bytes a)))
  = Throw "Atom encoding too short".
Proof.
  intros Hwf Hn.
  destruct n as [|m]; [reflexivity|].
  destruct (wf_round_trip this a [] Hwf) as (_ & Hlen & _).
  assert (Hty : data_type a <> EMPTY).
  { intros E. unfold size in Hlen. rewrite E in Hlen. lia. }
  assert (Htiny : data_enc a <> TINY).
  { intros E. unfold size in Hlen. rewrite E in Hlen.
    destruct (data_type a); lia. }
  destruct (wf_payload_len a Hwf Hty Htiny) as [Hnone Hpl].
  pose proof (payload_length a Hwf Hty Htiny) as Hpay.
  rewrite (encode_bytes_split a Hty Htiny Hnone) in Hn |- *. cbn [fst] in Hn |- *.
  destruct (header_class (data_type a) (data_enc a) (payload_len a) Hty Hpl)
    as (h & htl & Hh & Hclass).
  pose proof (decode_header_ok this (data_type a) (data_enc a) (payload_len a)) as Hok.
  set (hdr := header (data_type a) (data_enc a) (payload_len a)) in *.
  rewrite length_app in Hn.
  destruct (Nat.lt_ge_cases (S m) (length hdr)) as [Hshort | Hlong].
  - (* the header itself is cut *)
    rewrite Hh in Hshort |- *. cbn [length] in Hshort. cbn [app firstn].
    assert (Hr : 0x80 <= h < 0xe4) by (destruct (data_enc a); lia || contradiction).
    rewrite decode_bytes_framed by exact Hr.
    rewrite decode_header_cut; [reflexivity|].
    assert (Hm : (length (firstn m (htl ++ payload a)) <= m)%nat)
      by apply firstn_le_length.
    assert (Hhl : length htl = (length hdr - 1)%nat)
      by (rewrite Hh; cbn [length]; lia).
    unfold hdr in Hhl.
    destruct (data_enc a); try contradiction; cbn [header length] in Hhl;
      [lia | left; split; [exact Hclass | lia] | right; split; [exact Hclass | lia]].
  - (* the payload is cut *)
    rewrite firstn_app, (firstn_all2 hdr) by lia.
    assert (Hr : 0x80 <= h < 0xe4) by (destruct (data_enc a); lia || contradiction).
    pose proof (decode_bytes_framed this h
                  (htl ++ firstn (S m - length hdr) (payload a)) Hr) as Hframe.
    change (h :: htl ++ firstn (S m - length hdr) (payload a))
      with ((h :: htl) ++ firstn (S m - length hdr) (payload a)) in Hframe.
    rewrite <- Hh in Hframe. rewrite Hframe, Hok by assumption.
    cbn [bind]. unfold decode_check_size.
    rewrite length_app, firstn_length_le by lia.
    destruct (Z.ltb_spec (Z.of_nat (length hdr + (S m - length hdr)))
                (Z.of_nat (length hdr) + payload_len a)) as [_|G];
      [reflexivity | lia].
Qed.

(** X4. A cut-off encoding is always refused: every proper prefix of the
    encoding of a well-formed atom, the empty buffer included, makes
    [decode_bytes] throw "Atom encoding too short". *)
Theorem decode_rejects_truncation (this a : atom) (n : nat) :
  wf_atom a = true ->
  (n < length (fst (encode_bytes a)))%nat ->
  decode_bytes this (firstn n (fst (encode_bytes a)))
  = Throw "Atom encoding too short".
Proof. exact (decode_cut this a n). Qed.

(** X5. A short integer atom whose header declares no payload byte, or
    more than eight, is refused even when the buffer holds that many
    bytes. *)
Theorem decode_rejects_integer_length (this : atom) (signed : bool) (len : Z)
    (tl : list Z) :
  len = 0 \/ 9 <= len <= 15 ->
  len <= Z.of_nat (length tl) ->
  decode_bytes this (0x80 + (if signed then 0x10 else 0) + len :: tl)
  = Throw "Invalid integer Atom length".
Proof.
  intros Hlen Hroom.
  set (ty := if signed then INT else UINT).
  assert (Hty : ty <> EMPTY) by (unfold ty; destruct signed; discriminate).
  assert (Hl16 : 0 <= len < Z.of_nat 16) by lia.
  assert (Hh : [0x80 + (if signed then 0x10 else 0) + len] = header ty SHORT len).
  { unfold ty. clear Hlen Hroom Hty ty. revert len Hl16.
    apply (Z_small_cases 16). intros k Hk.
    destruct signed; (each_nat k 16%nat; reflexivity). }
  change (0x80 + (if signed then 0x10 else 0) + len :: tl)
    with ([0x80 + (if signed then 0x10 else 0) + len] ++ tl).
  rewrite Hh.
  destruct (header_first ty SHORT len Hty ltac:(cbn [len_bound]; lia))
    as (h & htl & Hhd & Hr).
  pose proof (decode_bytes_framed this h (htl ++ tl) Hr) as Hframe.
  change (h :: htl ++ tl) with ((h :: htl) ++ tl) in Hframe.
  rewrite <- Hhd in Hframe. rewrite Hframe.
  rewrite decode_header_short by (assumption || lia). cbn [bind].
  rewrite decode_check_size_ok by (rewrite length_app; cbn [header length]; lia).
  cbn [bind data_type set_type].
  assert (Hint : decode_int (set_type (set_enc this SHORT) ty)
                   (skipn (Z.to_nat 1) (header ty SHORT len ++ tl)) len
                 = Throw "Invalid integer Atom length").
  { unfold decode_int.
    destruct (Z.eqb_spec len 0) as [|Hz]; [reflexivity|].
    destruct (Z.gtb_spec len 8) as [|Hg]; [reflexivity | lia]. }
  unfold ty in *. destruct signed; rewrite Hint; reflexivity.
Qed.

(** ** The constructors pick the shortest encoding *)

Lemma skip_zeroes_tight (fuel j : nat) (v : Z) :
  (j <= 7)%nat -> (9 <= fuel + j)%nat ->
  0 < v < 256 ^ Z.of_nat (8 - j) ->
  exists n,
    skip_zeroes fuel (be_bytes 8 v) (Z.of_nat j) = Z.of_nat n /\
    (j <= n <= 7)%nat /\
    256 ^ Z.of_nat (8 - 1 - n) <= v < 256 ^ Z.of_nat (8 - n).
Proof.
  revert j. induction fuel as [|fuel IH]; intros j Hj Hfuel Hv; [lia|].
  cbn [skip_zeroes]. rewrite Nat2Z.id.
  destruct (Z.ltb_spec (Z.of_nat j) 8); [|lia]. cbn [andb].
  rewrite nth_be_bytes by lia.
  assert (Hp : 0 < 256 ^ Z.of_nat (8 - 1 - j)) by (apply Z.pow_pos_nonneg; lia).
  assert (Hs : 256 ^ Z.of_nat (8 - j) = 256 * 256 ^ Z.of_nat (8 - 1 - j)).
  { rewrite <- Z.pow_succ_r, <- Nat2Z.inj_succ by lia. f_equal. lia. }
  destruct (Z.eqb_spec ((v / 256 ^ Z.of_nat (8 - 1 - j)) mod 256) 0) as [E|E].
  - assert (Hlt : v < 256 ^ Z.of_nat (8 - 1 - j)).
    { apply zero_step; [|exact E]. lia. }
    assert (Hj6 : (j <= 6)%nat).
    { destruct (Nat.eq_dec j 7) as [->|]; [|lia].
      change (256 ^ Z.of_nat (8 - 1 - 7)) with 1 in Hlt. lia. }
    replace (Z.of_nat j + 1) with (Z.of_nat (S j)) by lia.
    destruct (IH (S j) ltac:(lia) ltac:(lia)) as (n & Hn & Hjn & Hb).
    { replace (8 - S j)%nat with (8 - 1 - j)%nat by lia. lia. }
    exists n. split; [exact Hn|]. split; [lia | exact Hb].
  - exists j. split; [reflexivity|]. split; [lia|]. split; [|lia].
    destruct (Z.lt_ge_cases v (256 ^ Z.of_nat (8 - 1 - j))) as [Hlt|]; [|assumption].
    exfalso. apply E. rewrite Z.div_small by lia. reflexivity.
Qed.

(** X6. The unsigned constructor never throws and picks the shortest
    encoding: one byte for a value below [0x40], otherwise a short atom
    with as many payload bytes as the value has significant bytes. *)
Theorem new_uint_minimal (this : atom) (v : Z) :
  0 <= v < 2 ^ 64 ->
  exists a,
    new_uint this v = Ok a /\
    (v < 0x40 -> data_enc a = TINY /\ size a = 1) /\
    (0x40 <= v ->
     data_enc a = SHORT /\
     exists k : nat,
       (1 <= k <= 8)%nat /\ size a = 1 + Z.of_nat k /\
       Z.of_nat (length (fst (encode_bytes a))) = 1 + Z.of_nat k /\
       256 ^ Z.of_nat (k - 1) <= v < 256 ^ Z.of_nat k).
Proof.
  intros Hv. unfold new_uint, atom_uint.
  destruct (Z.ltb_spec v 0x40) as [Ht|Ht].
  - eexists. split; [reflexivity|]. split; [|lia].
    intros _. split; reflexivity.
  - eexists. split; [reflexivity|]. split; [lia|].
    intros _. split; [reflexivity|].
    destruct (skip_zeroes_tight 9 0 v ltac:(lia) ltac:(lia)) as (n & Hn & Hjn & Hb).
    { change (256 ^ Z.of_nat (8 - 0)) with (2 ^ 64). lia. }
    change (Z.of_nat 0) with 0 in Hn.
    exists (8 - n)%nat. split; [lia|].
    unfold size, encode_bytes.
    cbn [data_type data_enc int_skip uint_val get_header_size
         set_skip set_enc set_val set_type set_bytes fst].
    rewrite Hn. split; [lia|]. split.
    + cbn [length]. rewrite int_payload, be_bytes_length by lia. lia.
    + replace (8 - n - 1)%nat with (8 - 1 - n)%nat by lia. exact Hb.
Qed.

Lemma sign_window_stop (j : nat) (fill sign uv : Z) :
  (j <= 6)%nat -> 0 <= uv < 2 ^ 64 ->
  sign_window fill sign uv j -> sign_window fill sign uv (S j) ->
  nth j (be_bytes 8 uv) 0 = fill /\
  Z.land (nth (S j) (be_bytes 8 uv) 0) 0x80 = sign.
Proof.
  intros Hj Huv Hw Hw'.
  rewrite !nth_be_bytes by lia.
  set (b1 := (uv / 256 ^ Z.of_nat (8 - 1 - S j)) mod 256) in *.
  assert (Hb1 : 0 <= b1 < 256) by (apply Z.mod_pos_bound; lia).
  assert (Hsb : (b1 < 128 -> Z.land b1 0x80 = 0) /\
                (128 <= b1 -> Z.land b1 0x80 = 0x80)).
  { split; intros E.
    - pose proof (land_0x80 b1 Hb1) as Hl.
      destruct (Z.ltb_spec b1 128); [|lia]. apply Z.eqb_eq. exact Hl.
    - pose proof (land_0x80_set b1 Hb1) as Hl.
      destruct (Z.ltb_spec b1 128); [lia|]. apply Z.eqb_eq. exact Hl. }
  destruct Hsb as [Hs0 Hs1].
  generalize dependent (Z.land b1 128). intros lb Hs0 Hs1.
  subst b1. unfold sign_window in *.
  remember (256 ^ Z.of_nat (8 - 1 - j)) as P eqn:HP.
  remember (256 ^ Z.of_nat (8 - 1 - S j)) as Q eqn:HQ.
  change (2 ^ 64) with 18446744073709551616 in *.
  each_nat j 7%nat; vm_compute in HP; vm_compute in HQ; subst P Q;
    (destruct Hw as [(Hf & Hs & Hlo & Hb) | (Hf & Hs & Hhi & Hb)];
     destruct Hw' as [(Hf' & _ & _ & Hb') | (Hf' & _ & _ & Hb')];
     try (exfalso; lia);
     subst fill sign;
     (split; [ clear Hs0 Hs1 Hb1; Z.div_mod_to_equations; lia
             | first [apply Hs0 | apply Hs1]; clear Hs0 Hs1 Hb1;
               Z.div_mod_to_equations; lia ])).
Qed.

Lemma skip_sign_tight (fuel j : nat) (uv fill sign : Z) :
  (j <= 7)%nat -> (9 <= fuel + j)%nat -> 0 <= uv < 2 ^ 64 ->
  sign_window fill sign uv j ->
  exists n,
    skip_sign fuel (be_bytes 8 uv) fill sign (Z.of_nat j) = Z.of_nat n /\
    (j <= n <= 7)%nat /\ sign_window fill sign uv n /\
    (n = 7%nat \/ ~ sign_window fill sign uv (S n)).
Proof.
  revert j. induction fuel as [|fuel IH]; intros j Hj Hfuel Huv Hw; [lia|].
  cbn [skip_sign]. rewrite Nat2Z.id.
  replace (Z.to_nat (Z.of_nat j + 1)) with (S j) by lia.
  replace (Z.of_nat j + 1) with (Z.of_nat (S j)) by lia.
  destruct (Z.ltb_spec (Z.of_nat j) 8); [|lia]. cbn [andb].
  assert (Hstop :
    nth j (be_bytes 8 uv) 0 <> fill \/
    Z.land (nth (S j) (be_bytes 8 uv) 0) 128 <> sign ->
    j = 7%nat \/ ~ sign_window fill sign uv (S j)).
  { intros Hne. destruct (Nat.eq_dec j 7) as [|Hj7]; [left; assumption|].
    right. intros Hw'.
    destruct (sign_window_stop j fill sign uv ltac:(lia) Huv Hw Hw') as [E1 E2].
    destruct Hne; contradiction. }
  destruct (Z.eqb_spec (nth j (be_bytes 8 uv) 0) fill) as [Efill|Nfill];
    [|exists j; split; [reflexivity|]; split; [lia|]; split; [exact Hw|];
      apply Hstop; left; exact Nfill].
  cbn [andb].
  destruct (Z.eqb_spec (Z.land (nth (S j) (be_bytes 8 uv) 0) 128) sign) as [Esign|Nsign];
    [|exists j; split; [reflexivity|]; split; [lia|]; split; [exact Hw|];
      apply Hstop; right; exact Nsign].
  destruct (Nat.eq_dec j 7) as [->|Hj7].
  { exfalso. exact (sign_window_last fill sign uv Huv Hw Efill). }
  destruct (IH (S j) ltac:(lia) ltac:(lia) Huv) as (n & Hn & Hjn & Hwn & Hmin).
  { apply sign_window_step; [lia | exact Huv | exact Hw | exact Efill | exact Esign]. }
  exists n. split; [exact Hn|]. split; [lia|]. split; assumption.
Qed.

(** X7. The signed constructor picks the shortest two's-complement
    encoding: one byte for a value in [-32, 31], otherwise a short atom
    of [k] payload bytes where [k], between 1 and 8, is the least width
    whose signed range holds the value. *)
Theorem new_int_minimal (this : atom) (v : Z) :
  - 2 ^ 63 <= v < 2 ^ 63 ->
  let a := new_int this v in
  (-0x20 <= v < 0x20 -> data_enc a = TINY /\ size a = 1) /\
  (~ -0x20 <= v < 0x20 ->
   data_enc a = SHORT /\
   exists k : nat,
     (1 <= k <= 8)%nat /\ size a = 1 + Z.of_nat k /\
     - 256 ^ Z.of_nat k <= 2 * v < 256 ^ Z.of_nat k /\
     ((2 <= k)%nat ->
      ~ - 256 ^ Z.of_nat (k - 1) <= 2 * v < 256 ^ Z.of_nat (k - 1))).
Proof.
  intros Hv a. subst a. unfold new_int. rewrite atom_int_eq.
  destruct (wrap64_signed v Hv) as [Hwv Hwb].
  rewrite Z.geb_leb.
  destruct (Z.ltb_spec v 0x20) as [Hlt|Hge];
    [destruct (Z.leb_spec (-0x20) v) as [Hle|Hgt]|]; cbn [andb].
  - split; [intros _; split; reflexivity | lia].
  - split; [lia|]. intros _. split; [reflexivity|].
    destruct (Z.ltb_spec v 0) as [Hneg|]; [|lia].
    destruct (skip_sign_tight 9 0 (wrap64 v) 0xff 0x80 ltac:(lia) ltac:(lia) Hwb)
      as (n & Hn & Hjn & Hw & Hmin).
    { right. rewrite Hwv.
      change (256 ^ Z.of_nat (8 - 1 - 0)) with 72057594037927936.
      change (2 ^ 64) with 18446744073709551616.
      change (2 ^ 63) with 9223372036854775808 in Hv.
      repeat split; lia. }
    change (Z.of_nat 0) with 0 in Hn. rewrite Hn.
    exists (8 - n)%nat. split; [lia|].
    unfold size. cbn [data_type data_enc int_skip get_header_size].
    split; [lia|].
    assert (Hk : 256 ^ Z.of_nat (8 - n) = 256 * 256 ^ Z.of_nat (8 - 1 - n)).
    { rewrite <- Z.pow_succ_r, <- Nat2Z.inj_succ by lia. f_equal. lia. }
    rewrite Hk. rewrite Hwv in Hw, Hmin.
    change (2 ^ 64) with 18446744073709551616 in *.
    unfold sign_window in Hw.
    destruct Hw as [(Hf & _) | (_ & _ & _ & Hb)]; [discriminate Hf|].
    split; [lia|]. intros Hk2.
    destruct Hmin as [->|Hmin]; [lia|].
    replace (8 - n - 1)%nat with (8 - 1 - n)%nat by lia.
    assert (Hk' : 256 ^ Z.of_nat (8 - 1 - n) = 256 * 256 ^ Z.of_nat (8 - 1 - S n)).
    { rewrite <- Z.pow_succ_r, <- Nat2Z.inj_succ by lia. f_equal. lia. }
    rewrite Hk'. intros Hfit. apply Hmin. right.
    change (2 ^ 64) with 18446744073709551616.
    repeat split; lia.
  - split; [lia|]. intros _. split; [reflexivity|].
    destruct (Z.ltb_spec v 0) as [|Hpos]; [lia|].
    destruct (skip_sign_tight 9 0 (wrap64 v) 0x00 0x00 ltac:(lia) ltac:(lia) Hwb)
      as (n & Hn & Hjn & Hw & Hmin).
    { left. rewrite Hwv.
      change (256 ^ Z.of_nat (8 - 1 - 0)) with 72057594037927936.
      change (2 ^ 63) with 9223372036854775808 in Hv.
      repeat split; lia. }
    change (Z.of_nat 0) with 0 in Hn. rewrite Hn.
    exists (8 - n)%nat. split; [lia|].
    unfold size. cbn [data_type data_enc int_skip get_header_size].
    split; [lia|].
    assert (Hk : 256 ^ Z.of_nat (8 - n) = 256 * 256 ^ Z.of_nat (8 - 1 - n)).
    { rewrite <- Z.pow_succ_r, <- Nat2Z.inj_succ by lia. f_equal. lia. }
    rewrite Hk. rewrite Hwv in Hw, Hmin.
    unfold sign_window in Hw.
    destruct Hw as [(_ & _ & _ & Hb) | (Hf & _)]; [|discriminate Hf].
    assert (Hp : 0 < 256 ^ Z.of_nat (8 - 1 - n)) by (apply Z.pow_pos_nonneg; lia).
    split; [lia|]. intros Hk2.
    destruct Hmin as [->|Hmin]; [lia|].
    replace (8 - n - 1)%nat with (8 - 1 - n)%nat by lia.
    assert (Hk' : 256 ^ Z.of_nat (8 - 1 - n) = 256 * 256 ^ Z.of_nat (8 - 1 - S n)).
    { rewrite <- Z.pow_succ_r, <- Nat2Z.inj_succ by lia. f_equal. lia. }
    rewrite Hk'. intros Hfit. apply Hmin. left.
    repeat split; lia.
Qed.

(** ** Equality of atoms *)

Lemma combine_eqb_sym (l1 l2 : list Z) :
  forallb (fun p => fst p =? snd p) (combine l1 l2)
  = forallb (fun p => fst p =? snd p) (combine l2 l1).
Proof.
  revert l2. induction l1 as [|x l1 IH]; intros [|y l2]; try reflexivity.
  cbn. rewrite (Z.eqb_sym x y), IH. reflexivity.
Qed.

Lemma type_eqb_eq (s t : type_t) : type_eqb s t = true <-> s = t.
Proof. destruct s, t; cbn; split; (congruence || reflexivity). Qed.

Lemma enc_eqb_eq (e f : enc_t) : enc_eqb e f = true <-> e = f.
Proof. destruct e, f; cbn; split; (congruence || reflexivity). Qed.

Lemma atom_eq_refl (a : atom) : atom_eq a a = true.
Proof.
  unfold atom_eq. rewrite type_eqb_refl, enc_eqb_refl. cbn [andb].
  destruct (data_type a); try reflexivity; try apply Z.eqb_refl.
  rewrite Nat.eqb_refl. apply forallb_combine_refl.
Qed.

Lemma atom_eq_sym (a b : atom) : atom_eq a b = atom_eq b a.
Proof.
  unfold atom_eq.
  destruct (type_eqb (data_type a) (data_type b)) eqn:Et.
  - apply type_eqb_eq in Et. rewrite <- Et, type_eqb_refl. cbn [andb].
    destruct (enc_eqb (data_enc a) (data_enc b)) eqn:Ee.
    + apply enc_eqb_eq in Ee. rewrite <- Ee, enc_eqb_refl.
      destruct (data_type a); try reflexivity; try apply Z.eqb_sym.
      rewrite (Nat.eqb_sym (length (bytes b))), combine_eqb_sym. reflexivity.
    + destruct (enc_eqb (data_enc b) (data_enc a)) eqn:Ee'; [|reflexivity].
      apply enc_eqb_eq in Ee'. rewrite Ee', enc_eqb_refl in Ee. discriminate Ee.
  - cbn [andb].
    destruct (type_eqb (data_type b) (data_type a)) eqn:Et'; [|reflexivity].
    apply type_eqb_eq in Et'. rewrite Et', type_eqb_refl in Et. discriminate Et.
Qed.

(** What [operator==] compares: type and encoding class, then the
    integer pattern or the byte string. *)
Lemma atom_eq_iff (a b : atom) :
  atom_eq a b = true <->
  data_type a = data_type b /\ data_enc a = data_enc b /\
  match data_type a with
  | UINT | INT => uint_val a = uint_val b
  | BYTES => bytes a = bytes b
  | EMPTY => True
  end.
Proof.
  unfold atom_eq. split.
  - destruct (type_eqb (data_type a) (data_type b)) eqn:Et; [|discriminate].
    destruct (enc_eqb (data_enc a) (data_enc b)) eqn:Ee; [|discriminate].
    apply type_eqb_eq in Et. apply enc_eqb_eq in Ee. cbn [andb].
    intros H. split; [exact Et|]. split; [exact Ee|].
    destruct (data_type a); try exact I; try (apply Z.eqb_eq; exact H).
    destruct (Nat.eqb_spec (length (bytes a)) (length (bytes b))) as [Hl|];
      [|discriminate H].
    apply combine_eqb_eq; assumption.
  - intros (Et & Ee & Hv). rewrite <- Et, <- Ee, type_eqb_refl, enc_eqb_refl.
    cbn [andb]. destruct (data_type a); try reflexivity;
      try (apply Z.eqb_eq; exact Hv).
    rewrite <- Hv, Nat.eqb_refl. apply forallb_combine_refl.
Qed.

(** X8. [operator==] is an equivalence relation on atoms: reflexive,
    symmetric and transitive. *)
Theorem atom_eq_equivalence :
  (forall a, atom_eq a a = true) /\
  (forall a b, atom_eq a b = atom_eq b a) /\
  (forall a b c, atom_eq a b = true -> atom_eq b c = true -> atom_eq a c = true).
Proof.
  split; [exact atom_eq_refl|]. split; [exact atom_eq_sym|].
  intros a b c Hab Hbc.
  apply atom_eq_iff in Hab. apply atom_eq_iff in Hbc. apply atom_eq_iff.
  destruct Hab as (T1 & E1 & V1). destruct Hbc as (T2 & E2 & V2).
  split; [congruence|]. split; [congruence|].
  rewrite <- T1 in V2. destruct (data_type a); congruence.
Qed.

(** X9. [operator==] does not look at [int_skip]: two well-formed
    unsigned atoms of the same class and value but different payload
    widths compare equal although their encodings differ in length. *)
Theorem atom_eq_ignores_width (v s1 s2 : Z) :
  0 <= s1 < s2 -> s2 <= 7 -> 0 <= v < 256 ^ (8 - s2) ->
  let a1 := mk_atom UINT SHORT s1 v [] in
  let a2 := mk_atom UINT SHORT s2 v [] in
  wf_atom a1 = true /\ wf_atom a2 = true /\
  atom_eq a1 a2 = true /\
  size a1 = 9 - s1 /\ size a2 = 9 - s2 /\
  fst (encode_bytes a1) <> fst (encode_bytes a2).
Proof.
  intros Hs1 Hs2 Hv a1 a2.
  assert (Hmono : 256 ^ (8 - s2) <= 256 ^ (8 - s1))
    by (apply Z.pow_le_mono_r; lia).
  assert (Htop : 256 ^ (8 - s1) <= 2 ^ 64).
  { change (2 ^ 64) with (256 ^ 8). apply Z.pow_le_mono_r; lia. }
  assert (Hwf : forall s, s1 <= s <= s2 -> wf_atom (mk_atom UINT SHORT s v []) = true).
  { intros s Hs. unfold wf_atom. cbn [data_type data_enc int_skip uint_val].
    replace (2 ^ (8 * (8 - s))) with (256 ^ (8 - s))
      by (rewrite Z.pow_mul_r by lia; reflexivity).
    assert (256 ^ (8 - s2) <= 256 ^ (8 - s)) by (apply Z.pow_le_mono_r; lia).
    assert (256 ^ (8 - s) <= 256 ^ (8 - s1)) by (apply Z.pow_le_mono_r; lia).
    repeat (apply andb_true_intro; split);
      first [apply Z.leb_le | apply Z.ltb_lt]; lia. }
  split; [apply Hwf; lia|]. split; [apply Hwf; lia|].
  split; [unfold atom_eq; cbn; apply Z.eqb_refl|].
  assert (S1 : size a1 = 9 - s1)
    by (unfold a1, size, get_header_size; cbn [data_type data_enc int_skip]; lia).
  assert (S2 : size a2 = 9 - s2)
    by (unfold a2, size, get_header_size; cbn [data_type data_enc int_skip]; lia).
  split; [exact S1|]. split; [exact S2|].
  intros E. apply (f_equal (@length Z)) in E.
  destruct (wf_round_trip a1 a1 [] (Hwf s1 ltac:(lia))) as (_ & L1 & _).
  destruct (wf_round_trip a2 a2 [] (Hwf s2 ltac:(lia))) as (_ & L2 & _).
  fold a1 in L1. fold a2 in L2.
  lia.
Qed.

(** X10. The binary constructor picks the class by the length alone: a
    one-byte header below 16 bytes, two bytes below 2048, four bytes
    below [2^24], and it throws from [2^24] bytes on; the encoding is
    that header followed by the data unchanged. *)
Theorem new_bin_encoding (this : atom) (data : list Z) :
  let n := Z.of_nat (length data) in
  (16777216 <= n -> new_bin this data = Throw "Atom too large to encode") /\
  (n < 16777216 ->
   exists a hdr,
     new_bin this data = Ok a /\
     data_enc a = (if n <? 16 then SHORT else if n <? 2048 then MEDIUM else LONG) /\
     Z.of_nat (length hdr) = (if n <? 16 then 1 else if n <? 2048 then 2 else 4) /\
     fst (encode_bytes a) = hdr ++ data /\
     size a = Z.of_nat (length hdr) + n /\
     get_bytes a = Ok data).
Proof.
  intros n. subst n. split.
  - intros Hbig. unfold new_bin, atom_bin, pick_encoding.
    destruct (Z.ltb_spec (Z.of_nat (length data)) 16); [lia|].
    destruct (Z.ltb_spec (Z.of_nat (length data)) 2048); [lia|].
    destruct (Z.ltb_spec (Z.of_nat (length data)) 16777216); [lia|].
    reflexivity.
  - intros Hsmall.
    set (enc := if Z.of_nat (length data) <? 16 then SHORT
                else if Z.of_nat (length data) <? 2048 then MEDIUM else LONG).
    set (a := mk_atom BYTES enc (int_skip this) (uint_val this) data).
    exists a, (header BYTES enc (Z.of_nat (length data))).
    assert (Hnew : new_bin this data = Ok a).
    { unfold new_bin, atom_bin, pick_encoding, a, enc.
      destruct (Z.ltb_spec (Z.of_nat (length data)) 16); [reflexivity|].
      destruct (Z.ltb_spec (Z.of_nat (length data)) 2048); [reflexivity|].
      destruct (Z.ltb_spec (Z.of_nat (length data)) 16777216); [reflexivity|lia]. }
    assert (Hhl : Z.of_nat (length (header BYTES enc (Z.of_nat (length data))))
                  = if Z.of_nat (length data) <? 16 then 1
                    else if Z.of_nat (length data) <? 2048 then 2 else 4).
    { unfold enc.
      destruct (Z.of_nat (length data) <? 16); [reflexivity|].
      destruct (Z.of_nat (length data) <? 2048); reflexivity. }
    assert (Hne : enc <> TINY /\ enc <> NONE).
    { unfold enc.
      destruct (Z.of_nat (length data) <? 16); [split; discriminate|].
      destruct (Z.of_nat (length data) <? 2048); split; discriminate. }
    split; [exact Hnew|]. split; [reflexivity|]. split; [exact Hhl|].
    split; [|split; [|reflexivity]].
    + rewrite encode_bytes_split;
        [reflexivity | discriminate | apply Hne | apply Hne].
    + unfold size, get_header_size, a. cbn [data_type data_enc bytes].
      rewrite Hhl. unfold enc.
      destruct (Z.of_nat (length data) <? 16); [reflexivity|].
      destruct (Z.of_nat (length data) <? 2048); reflexivity.
Qed.

(** * Further properties of the drive and of the transport *)

(** ** Sessions *)

Section SessionFacts.

Context {P : Platform} {C : Codec} {U : Uids}.

Lemma tot_size_end_session : tot_size_of [TOK_END_SESSION] = 512.
Proof. reflexivity. Qed.

Lemma recv_members (d : drive) :
  tper_session_id (snd (recv d)) = tper_session_id d /\
  host_session_id (snd (recv d)) = host_session_id d /\
  com_id (snd (recv d)) = com_id d /\
  max_com_pkt_size (snd (recv d)) = max_com_pkt_size d.
Proof. exact (recv_same_members d). Qed.

(** What [send] returns: the unit, or an exception; either way the
    members of the object are as before. *)
Lemma send_cases (outbuf : list Z) (ids : bool) (d : drive) :
  same_members d (snd (send outbuf ids d)) /\
  (fst (send outbuf ids d) = Ok tt \/ exists msg, fst (send outbuf ids d) = Throw msg).
Proof.
  destruct (Z_le_gt_dec (tot_size_of outbuf) (max_com_pkt_size d)) as [Hle|Hgt].
  - rewrite (send_fits d outbuf ids Hle). cbv zeta. cbn [fst snd].
    split; [repeat split | apply dev_send_cases].
  - rewrite send_oversize by exact Hgt.
    split; [apply same_members_refl | right; eexists; reflexivity].
Qed.

(** The exchange inside [logout]: [send] and then [recv]. *)
Lemma exchange_cases (outbuf : list Z) (ids : bool) (d : drive) :
  let x := mbind (send outbuf ids) (fun _ => recv) d in
  let cid := wrap16 (com_id d) in
  same_members d (snd x) /\
  (fst x = Undefined <->
   exists d1 k block,
     send outbuf ids d = (Ok tt, d1) /\
     (k < 500)%nat /\
     (forall j, (j < k)%nat ->
                not_ready (com_id d) (answer (raw d1) cid j) = true) /\
     answer (raw d1) cid k = Ok block /\
     field 2 off_com_id block = com_id d /\
     field 4 off_com_length block <> 0 /\
     456 < field 4 off_sub_length block).
Proof.
  intros x cid. subst x. unfold mbind.
  destruct (send_cases outbuf ids d) as [Hm [Hok | [msg Hthrow]]];
    destruct (send outbuf ids d) as [[[]|m|] d1]; cbn [fst snd] in *;
    try discriminate.
  - split; [apply (same_members_trans d d1 _ Hm), recv_same_members|].
    replace (fst (let (o, d') := recv d1 in
                  match o with
                  | Ok a => (Ok a, d')
                  | Throw msg => (Throw msg, d')
                  | Undefined => (Undefined, d')
                  end)) with (fst (recv d1))
      by (destruct (recv d1) as [[?|?|] ?]; reflexivity).
    pose proof (recv_undefined_iff d1) as Hu. cbv zeta in Hu.
    destruct Hm as (_ & _ & Hc & _). rewrite Hc in Hu. fold cid in Hu.
    rewrite Hu. split.
    + intros (k & block & H). exists d1, k, block. split; [reflexivity | exact H].
    + intros (d1' & k & block & E & H). injection E as <-. exists k, block. exact H.
  - split; [exact Hm|]. split; [discriminate|].
    intros (d1' & k & block & E & _). discriminate E.
Qed.

Lemma logout_steps (session_ids : bool) (d : drive) :
  tper_session_id d <> 0 ->
  logout session_ids d
  = match mbind (send [TOK_END_SESSION] session_ids) (fun _ => recv) d with
    | (Undefined, d') => (Undefined, d')
    | (Ok _, d') | (Throw _, d') => (Ok tt, set_session d' 0 0)
    end.
Proof.
  intros H. unfold logout.
  destruct (Z.eqb_spec (tper_session_id d) 0); [contradiction | reflexivity].
Qed.

Lemma logout_idle (session_ids : bool) (d : drive) :
  tper_session_id d = 0 -> logout session_ids d = (Ok tt, d).
Proof. intros H. unfold logout. rewrite H. reflexivity. Qed.

(** X11. [logout] never throws: it swallows every exception of its
    exchange with the drive, and it returns unless the reply makes
    [recv] read past its buffer: the block went out, and the first
    answer that is not "no data yet" comes within 500 polls, on the
    drive's ComID, with a sub-packet length above 456.  Whenever it returns with a TPer session open, both
    session ids are zero; when it does not return they are as before.
    With no TPer session it leaves the object untouched, a stale host
    session id included.  It never changes the ComID or the packet size
    limit. *)
Theorem logout_cleanup (session_ids : bool) (d : drive) :
  let r := logout session_ids d in
  (forall msg, fst r <> Throw msg) /\
  (fst r = Ok tt \/ fst r = Undefined) /\
  (fst r = Undefined <->
   tper_session_id d <> 0 /\
   exists d1 k block,
     send [TOK_END_SESSION] session_ids d = (Ok tt, d1) /\
     (k < 500)%nat /\
     (forall j, (j < k)%nat ->
        not_ready (com_id d) (answer (raw d1) (wrap16 (com_id d)) j) = true) /\
     answer (raw d1) (wrap16 (com_id d)) k = Ok block /\
     field 2 off_com_id block = com_id d /\
     field 4 off_com_length block <> 0 /\
     456 < field 4 off_sub_length block) /\
  (tper_session_id d <> 0 -> fst r = Ok tt ->
   tper_session_id (snd r) = 0 /\ host_session_id (snd r) = 0) /\
  (fst r = Undefined ->
   tper_session_id (snd r) = tper_session_id d /\
   host_session_id (snd r) = host_session_id d) /\
  (tper_session_id d = 0 -> r = (Ok tt, d)) /\
  com_id (snd r) = com_id d /\
  max_com_pkt_size (snd r) = max_com_pkt_size d.
Proof.
  intros r. subst r.
  destruct (Z.eq_dec (tper_session_id d) 0) as [E|E].
  - rewrite (logout_idle _ _ E). cbn [fst snd].
    split; [discriminate|]. split; [left; reflexivity|].
    split; [split; [discriminate | intros [H _]; contradiction]|].
    split; [contradiction|]. split; [discriminate|].
    split; [reflexivity|]. split; reflexivity.
  - rewrite (logout_steps _ _ E).
    destruct (exchange_cases [TOK_END_SESSION] session_ids d) as [Hm Hu].
    cbv zeta in Hm, Hu.
    destruct (mbind (send [TOK_END_SESSION] session_ids) (fun _ => recv) d)
      as [[bytes|msg|] d'] eqn:Hx; cbn [fst snd] in *;
      destruct Hm as (Ht & Hh & Hc & Hmx).
    + split; [discriminate|]. split; [left; reflexivity|].
      split; [split; [discriminate|]|].
      { intros [_ Hex]. apply Hu in Hex. discriminate Hex. }
      split; [intros _ _; split; reflexivity|]. split; [discriminate|].
      split; [contradiction|]. split; assumption.
    + split; [discriminate|]. split; [left; reflexivity|].
      split; [split; [discriminate|]|].
      { intros [_ Hex]. apply Hu in Hex. discriminate Hex. }
      split; [intros _ _; split; reflexivity|]. split; [discriminate|].
      split; [contradiction|]. split; assumption.
    + split; [discriminate|]. split; [right; reflexivity|].
      split; [split; [intros _; split; [exact E | apply Hu; reflexivity]
                     | reflexivity]|].
      split; [discriminate|]. split; [intros _; split; assumption|].
      split; [contradiction|]. split; assumption.
Qed.

End SessionFacts.

Section ExchangeFacts.

Context {P : Platform} {C : Codec} {U : Uids}.

Lemma recv_events (d : drive) :
  exists evs,
    trace (snd (recv d)) = trace d ++ evs /\
    (1 <= polls evs <= 500)%nat /\ sends evs = 0%nat /\
    Forall (fun ev => ev = EvRecv 1 (wrap16 (com_id d)) 1 \/ ev = EvSleep 10000) evs.
Proof.
  destruct (recv_cases d) as (_ & evs & Ht & Hp & Hf).
  exists evs. split; [exact Ht|]. split; [exact Hp|]. split; [|exact Hf].
  unfold sends. clear Ht Hp. induction Hf as [|ev evs [-> | ->] _ IH];
    [reflexivity | exact IH | exact IH].
Qed.

Lemma logout_trace (session_ids : bool) (d : drive) :
  tper_session_id d <> 0 ->
  trace (snd (logout session_ids d))
  = trace (snd (mbind (send [TOK_END_SESSION] session_ids) (fun _ => recv) d)).
Proof.
  intros H. rewrite (logout_steps _ _ H).
  destruct (mbind _ _ d) as [[?|?|] d']; reflexivity.
Qed.

Lemma snd_mbind_recv (r : outcome unit) (d1 : drive) :
  snd (match r with
       | Ok a => recv d1
       | Throw msg => (Throw msg, d1)
       | Undefined => (Undefined, d1)
       end) = match r with Ok _ => snd (recv d1) | _ => d1 end.
Proof. destruct r; reflexivity. Qed.

(** X12. What [logout] transmits.  With a session open and room for one
    block, it hands the drive exactly one 512-byte block whose payload
    is the single byte [0xFA], carrying the session ids when
    [session_ids] is set; when the transport accepts the block it then
    polls between 1 and 500 times, and otherwise does nothing more.
    With a packet size limit below 512 it does no I/O at all. *)
Theorem logout_transmission (session_ids : bool) (d : drive) :
  tper_session_id d <> 0 ->
  let r := logout session_ids d in
  let cid := wrap16 (com_id d) in
  (max_com_pkt_size d < 512 -> trace (snd r) = trace d) /\
  (512 <= max_com_pkt_size d ->
   exists block later,
     trace (snd r) = trace d ++ EvSend 1 cid block 1 :: later /\
     length block = 512%nat /\
     sub_payload block = [0xfa] /\
     field 4 off_tper_session_id block
     = (if session_ids then wrap32 (tper_session_id d) else 0) /\
     field 4 off_host_session_id block
     = (if session_ids then wrap32 (host_session_id d) else 0) /\
     sends later = 0%nat /\
     Forall (fun ev => ev = EvRecv 1 cid 1 \/ ev = EvSleep 10000) later /\
     (fst (dev_send (raw d) 1 cid block 1) = Ok tt -> (1 <= polls later <= 500)%nat) /\
     (fst (dev_send (raw d) 1 cid block 1) <> Ok tt -> later = [])).
Proof.
  intros Hopen r cid. subst r. rewrite (logout_trace _ _ Hopen).
  unfold mbind.
  split.
  - intros Hsmall. rewrite send_oversize; [reflexivity|].
    rewrite tot_size_end_session. lia.
  - intros Hroom.
    rewrite (send_fits d [TOK_END_SESSION] session_ids)
      by (rewrite tot_size_end_session; exact Hroom).
    cbv zeta. fold cid.
    change (wrap8 (tot_size_of [TOK_END_SESSION] / ATA_BLOCK_SIZE)) with 1.
    set (block := build_block d [TOK_END_SESSION] session_ids
                    (sub_size_of [TOK_END_SESSION]) (pkt_size_of [TOK_END_SESSION])
                    (com_size_of [TOK_END_SESSION]) (tot_size_of [TOK_END_SESSION])).
    pose proof (build_block_fields d [TOK_END_SESSION] session_ids
                  (sub_size_of [TOK_END_SESSION]) (pkt_size_of [TOK_END_SESSION])
                  (com_size_of [TOK_END_SESSION]) (tot_size_of [TOK_END_SESSION]))
      as Hf. cbv zeta in Hf. fold block in Hf.
    destruct Hf as (_ & _ & Htp & Hho & _ & Hsub & Hpay).
    assert (Hlen : length block = 512%nat).
    { apply Nat2Z.inj. unfold block.
      rewrite (build_block_length d [TOK_END_SESSION] session_ids
                 (sub_size_of [TOK_END_SESSION]) (pkt_size_of [TOK_END_SESSION])
                 (com_size_of [TOK_END_SESSION]) (tot_size_of [TOK_END_SESSION])
                 eq_refl);
        [reflexivity | vm_compute; discriminate]. }
    assert (Hsp : sub_payload block = [0xfa]).
    { unfold sub_payload. rewrite Hsub.
      change (Z.to_nat sizeof_opal_header_t) with 56%nat. rewrite Hpay.
      reflexivity. }
    rewrite snd_mbind_recv.
    destruct (dev_send (raw d) 1 cid block 1) as [[[]|msg|] s] eqn:Hdev;
      cbn [fst snd].
    + destruct (recv_events (set_raw d s (EvSend 1 cid block 1)))
        as (evs & Ht & Hp & Hs & Hall).
      exists block, evs. rewrite Ht. cbn [set_raw trace com_id] in *.
      rewrite <- app_assoc. fold cid in Hall.
      split; [reflexivity|]. split; [exact Hlen|]. split; [exact Hsp|].
      split; [exact Htp|]. split; [exact Hho|]. split; [exact Hs|].
      split; [exact Hall|]. rewrite Hdev. cbn [fst].
      split; [intros _; exact Hp | intros Hne; contradiction Hne; reflexivity].
    + exists block, []. cbn [set_raw trace].
      split; [reflexivity|]. split; [exact Hlen|]. split; [exact Hsp|].
      split; [exact Htp|]. split; [exact Hho|]. split; [reflexivity|].
      split; [constructor|]. rewrite Hdev. cbn [fst].
      split; [intros Hok; discriminate Hok | reflexivity].
    + exists block, []. cbn [set_raw trace].
      split; [reflexivity|]. split; [exact Hlen|]. split; [exact Hsp|].
      split; [exact Htp|]. split; [exact Hho|]. split; [reflexivity|].
      split; [constructor|]. rewrite Hdev. cbn [fst].
      split; [intros Hok; discriminate Hok | reflexivity].
Qed.

Lemma sends_app (a b : list event) : sends (a ++ b) = (sends a + sends b)%nat.
Proof. unfold sends. rewrite filter_app, length_app. reflexivity. Qed.

(** X13. [invoke] is a frame around one exchange: whatever happens it
    leaves the session ids, the ComID and the packet size limit as they
    were, it transmits at most once, and it polls at most 500 times, and
    only after the transmission. *)
Theorem invoke_frame (d : drive) (obj meth : Z) (params : datum) :
  let r := invoke obj meth params d in
  tper_session_id (snd r) = tper_session_id d /\
  host_session_id (snd r) = host_session_id d /\
  com_id (snd r) = com_id d /\
  max_com_pkt_size (snd r) = max_com_pkt_size d /\
  exists before after,
    trace (snd r) = trace d ++ before ++ after /\
    (before = [] \/ exists block bcount, before = [EvSend 1 (wrap16 (com_id d)) block bcount]) /\
    (before = [] -> after = []) /\
    sends after = 0%nat /\ (polls after <= 500)%nat.
Proof.
  intros r. subst r. rewrite invoke_steps.
  destruct (encode_vector_cases (Method obj meth (list_of params) STA_SUCCESS))
    as [[out Henc] | [msg Henc]]; rewrite Henc.
  2:{ cbn [snd]. repeat (split; [reflexivity|]). exists [], []. rewrite app_nil_r.
      split; [reflexivity|]. split; [left; reflexivity|].
      split; [reflexivity|]. split; [reflexivity | cbn; lia]. }
  set (outbuf := out ++ status_trailer).
  destruct (Z_le_gt_dec (tot_size_of outbuf) (max_com_pkt_size d)) as [Hle|Hgt].
  2:{ rewrite send_oversize by exact Hgt.
      cbn [snd]. repeat (split; [reflexivity|]). exists [], []. rewrite app_nil_r.
      split; [reflexivity|]. split; [left; reflexivity|].
      split; [reflexivity|]. split; [reflexivity | cbn; lia]. }
  rewrite (send_fits d outbuf _ Hle). cbv zeta.
  set (block := build_block d outbuf _ _ _ _ _).
  set (bcount := wrap8 _).
  destruct (dev_send (raw d) 1 (wrap16 (com_id d)) block bcount) as [[[]|msg|] s];
    cbn [fst snd].
  3:{ repeat (split; [reflexivity|]).
      exists [EvSend 1 (wrap16 (com_id d)) block bcount], [].
      cbn [set_raw trace]. rewrite app_nil_r.
      split; [reflexivity|]. split; [right; eauto|].
      split; [discriminate|]. split; [reflexivity | cbn; lia]. }
  - set (d1 := set_raw d s (EvSend 1 (wrap16 (com_id d)) block bcount)).
    destruct (recv_members d1) as (H1 & H2 & H3 & H4).
    destruct (recv_events d1) as (evs & Ht & Hp & Hs & _).
    rewrite snd_after_recv, H1, H2, H3, H4. repeat (split; [reflexivity|]).
    exists [EvSend 1 (wrap16 (com_id d)) block bcount], evs.
    rewrite Ht. unfold d1. cbn [set_raw trace]. rewrite <- app_assoc.
    split; [reflexivity|]. split; [right; eauto|].
    split; [discriminate|]. split; [exact Hs | lia].
  - repeat (split; [reflexivity|]).
    exists [EvSend 1 (wrap16 (com_id d)) block bcount], [].
    cbn [set_raw trace]. rewrite app_nil_r.
    split; [reflexivity|]. split; [right; eauto|].
    split; [discriminate|]. split; [reflexivity | cbn; lia].
Qed.

End ExchangeFacts.

Section ReceiveFacts.

Context {P : Platform} {C : Codec} {U : Uids}.

(** What [recv] does when the first answer is not "no data yet". *)
Lemma recv_first (d : drive) :
  let cid := wrap16 (com_id d) in
  not_ready (com_id d) (answer (raw d) cid 0) = false ->
  recv d = (deliver (com_id d) (answer (raw d) cid 0),
            set_raw d (dev_after (raw d) cid 1) (EvRecv 1 cid 1)).
Proof.
  intros cid Hready.
  destruct (recv_cases d) as ([(k & Hk & Hbefore & _ & Hrecv) | (Hall & _)] & _).
  - destruct k as [|k].
    + rewrite Hrecv. rewrite after_polls_0. reflexivity.
    + specialize (Hbefore 0%nat ltac:(lia)). fold cid in Hbefore. congruence.
  - specialize (Hall 0%nat ltac:(lia)). fold cid in Hall. congruence.
Qed.

(** A ready first answer whose sub-packet fits the block. *)
Lemma recv_first_payload (d : drive) (block : list Z) :
  answer (raw d) (wrap16 (com_id d)) 0 = Ok block ->
  field 2 off_com_id block = com_id d ->
  field 4 off_com_length block <> 0 ->
  field 4 off_sub_length block <= 456 ->
  fst (recv d)
  = Ok (firstn (Z.to_nat (field 4 off_sub_length block)) (skipn 56 block)).
Proof.
  intros Hans Hcid Hlen Hc.
  assert (Hready : not_ready (com_id d) (answer (raw d) (wrap16 (com_id d)) 0) = false).
  { rewrite Hans. cbn [not_ready].
    destruct (Z.eqb_spec (field 4 off_com_length block) 0); [contradiction|].
    apply andb_false_r. }
  rewrite (recv_first d Hready), Hans. cbn [fst deliver bind].
  rewrite Hcid, Z.eqb_refl.
  destruct (copy_payload_inside block _ (answer_length _ _ _ _ Hans) Hc)
    as (bytes & Hcp & Hb & _).
  rewrite Hcp, Hb. reflexivity.
Qed.

Lemma small_envelope (outbuf : list Z) :
  Z.of_nat (length outbuf) <= 456 ->
  tot_size_of outbuf = 512 /\
  36 <= com_size_of outbuf <= 492 /\
  0 <= pkt_size_of outbuf <= 468.
Proof.
  intros Hn.
  destruct (envelope_sizes outbuf ltac:(lia)) as (Hp & Hc & Ht & Hpb & Htb & Hmod).
  rewrite Hp, Hc, Ht. clear Hp Hc Ht.
  unfold law_total_size, law_com_length, law_pkt_length in *.
  unfold sizeof_opal_com_packet_header_t, sizeof_opal_packet_header_t,
    sizeof_opal_sub_packet_header_t, ATA_BLOCK_SIZE in *.
  pose proof (round_up_bounds (12 + Z.of_nat (length outbuf)) 4 ltac:(lia)) as [Hb1 Hm1].
  set (pkt := round_up (12 + Z.of_nat (length outbuf)) 4) in *.
  pose proof (round_up_bounds (20 + (24 + pkt)) 512 ltac:(lia)) as [Hb2 Hm2].
  set (tot := round_up (20 + (24 + pkt)) 512) in *.
  clearbody pkt tot.
  assert (pkt <= 468) by (Z.div_mod_to_equations; lia).
  split; [Z.div_mod_to_equations; lia | lia].
Qed.

(** X15. What [send] frames, [recv] unframes: if the drive answers a
    poll with the very block that [send] builds around a payload of at
    most 456 bytes for the same ComID, [recv] returns that payload. *)
Theorem send_recv_loopback (d0 d : drive) (outbuf : list Z) (session_ids : bool) :
  Z.of_nat (length outbuf) <= 456 ->
  0 <= com_id d < 2 ^ 16 -> com_id d0 = com_id d ->
  let block := build_block d0 outbuf session_ids (sub_size_of outbuf)
                 (pkt_size_of outbuf) (com_size_of outbuf) (tot_size_of outbuf) in
  fst (dev_recv (raw d) 1 (wrap16 (com_id d)) 1) = Ok block ->
  fst (recv d) = Ok outbuf.
Proof.
  intros Hn Hcid Hsame block Hdev.
  destruct (small_envelope outbuf Hn) as (Htot & Hcom & Hpkt).
  pose proof (build_block_fields d0 outbuf session_ids (sub_size_of outbuf)
                (pkt_size_of outbuf) (com_size_of outbuf) (tot_size_of outbuf)) as Hf.
  cbv zeta in Hf. fold block in Hf.
  destruct Hf as (Hfc & Hfl & _ & _ & _ & Hfs & Hpay).
  assert (Hlen : length block = 512%nat).
  { apply Nat2Z.inj. unfold block.
    rewrite (build_block_length d0 outbuf session_ids (sub_size_of outbuf)
               (pkt_size_of outbuf) (com_size_of outbuf) (tot_size_of outbuf) eq_refl);
      [rewrite Htot; reflexivity | rewrite Htot; unfold sub_size_of; lia]. }
  assert (Hans : answer (raw d) (wrap16 (com_id d)) 0 = Ok block).
  { unfold answer. cbn [dev_after]. rewrite Hdev. cbn [bind]. f_equal.
    rewrite firstn_app, firstn_all2 by lia.
    rewrite Hlen. cbn [Nat.sub firstn]. apply app_nil_r. }
  assert (Hw16 : wrap16 (com_id d0) = com_id d)
    by (rewrite Hsame; unfold wrap16; apply Z.mod_small; exact Hcid).
  assert (Hw32 : forall x, 0 <= x <= 492 -> wrap32 x = x)
    by (intros x Hx; unfold wrap32; apply Z.mod_small;
        change (2 ^ 32) with 4294967296; lia).
  rewrite Hw16 in Hfc.
  rewrite Hw32 in Hfl by lia.
  rewrite Hw32 in Hfs by (unfold sub_size_of; lia).
  rewrite (recv_first_payload d block Hans Hfc ltac:(lia))
    by (rewrite Hfs; unfold sub_size_of; lia).
  f_equal. rewrite Hfs, Hpay. unfold sub_size_of. rewrite Nat2Z.id.
  apply firstn_app_exact. reflexivity.
Qed.

End ReceiveFacts.

(** ** Chunked binary writes *)


Section ChunkFacts.

Context {P : Platform} {C : Codec} {U : Uids}.


End ChunkFacts.

(** X17. The chunk size that [table_set_bin] estimates.  From a packet
    size limit of 4200 bytes on it is the largest multiple of 4096 that
    leaves 104 bytes of overhead.  Below 104 the unsigned subtraction
    wraps around and the estimate is [2^64 - 4096], so that the loop
    takes a buffer of any length for a single chunk. *)
Theorem chunk_size_estimate (m : Z) :
  0 <= m < 2 ^ 64 ->
  let c := chunk_size_of m in
  c mod 4096 = 0 /\
  (4200 <= m -> 4096 <= c <= m - 104 /\ m - 104 - c < 4096) /\
  (m < 104 -> c = 2 ^ 64 - 4096).
Proof.
  intros Hm c. subst c. rewrite chunk_size_of_eq. unfold wrap64.
  change (2 ^ 64) with 18446744073709551616 in *.
  split; [apply Z.mod_mul; lia|]. split.
  - intros Hbig. rewrite (Z.mod_small (m - 104)) by lia.
    Z.div_mod_to_equations. lia.
  - intros Hsmall.
    replace ((m - 104) mod 18446744073709551616) with (m - 104 + 18446744073709551616)
      by (apply (Z.mod_unique _ _ (-1)); lia).
    Z.div_mod_to_equations. lia.
Qed.

(** ** Padding *)

(** X18. [PAD_TO_MULTIPLE(val, mult)] is the least multiple of [mult]
    that is not below [val], as long as [val + mult] does not exceed
    [2^64]; for a [val] closer than [mult] to [2^64] the addition wraps
    around and the result is 0. *)
Theorem pad_to_multiple_least (val mult : Z) :
  0 <= val < 2 ^ 64 -> 0 < mult < 2 ^ 64 ->
  let r := PAD_TO_MULTIPLE val mult in
  (val + mult <= 2 ^ 64 -> val <= r < val + mult /\ r mod mult = 0) /\
  (2 ^ 64 < val + mult -> r = 0).
Proof.
  intros Hv Hm r. subst r. unfold PAD_TO_MULTIPLE, wrap64.
  change (2 ^ 64) with 18446744073709551616 in *.
  split.
  - intros Hfit. rewrite (Z.mod_small (val + (mult - 1))) by lia.
    assert (Hq : 0 <= (val + (mult - 1)) / mult * mult <= val + (mult - 1)).
    { split; [apply Z.mul_nonneg_nonneg; [apply Z.div_pos|]; lia|].
      rewrite Z.mul_comm. apply Z.mul_div_le. lia. }
    rewrite Z.mod_small by lia.
    split; [|apply Z.mod_mul; lia].
    pose proof (Z.div_mod (val + (mult - 1)) mult ltac:(lia)) as Hdm.
    pose proof (Z.mod_pos_bound (val + (mult - 1)) mult ltac:(lia)) as Hr.
    lia.
  - intros Hover.
    replace ((val + (mult - 1)) mod 18446744073709551616)
      with (val + (mult - 1) - 18446744073709551616)
      by (apply (Z.mod_unique _ _ 1); lia).
    rewrite Z.div_small by lia. reflexivity.
Qed.

(** ** The TPM check of the transport *)

(** X19. [check_tpm] passes an error of the identify command on,
    refuses a device whose word 80 is zero or whose word 48 lacks the
    TPM fingerprint, and accepts every other device.  The version mask
    [~((1 < 8) - 1)] is all ones, so every non-zero word 80 passes,
    whether or not it reports ATA8. *)
Theorem check_tpm_accepts :
  (forall msg, check_tpm (Throw msg) = Throw msg) /\
  (forall id_data,
     nth 80 id_data 0 = 0 ->
     check_tpm (Ok id_data) = Throw "ATA device too old to report TPM presence") /\
  (forall id_data,
     nth 80 id_data 0 <> 0 -> Z.land (nth 48 id_data 0) 0xC000 <> 0x4000 ->
     check_tpm (Ok id_data) = Throw "No TPM Detected in Specified Drive") /\
  (forall id_data,
     check_tpm (Ok id_data) = Ok tt <->
     nth 80 id_data 0 <> 0 /\ Z.land (nth 48 id_data 0) 0xC000 = 0x4000).
Proof.
  assert (Hmask : forall w, Z.land w (Z.lnot ((if 1 <? 8 then 1 else 0) - 1)) = w).
  { intros w. change (Z.lnot ((if 1 <? 8 then 1 else 0) - 1)) with (-1).
    apply Z.land_m1_r. }
  split; [reflexivity|]. unfold check_tpm. cbn [bind].
  split; [|split].
  - intros id H80. rewrite Hmask, H80. reflexivity.
  - intros id H80 H48. rewrite Hmask.
    destruct (Z.eqb_spec (nth 80 id 0) 0); [contradiction|].
    destruct (Z.eqb_spec (Z.land (nth 48 id 0) 49152) 16384); [contradiction|].
    reflexivity.
  - intros id. rewrite Hmask.
    destruct (Z.eqb_spec (nth 80 id 0) 0) as [E|E];
      [split; [discriminate | intros [H _]; contradiction]|].
    destruct (Z.eqb_spec (Z.land (nth 48 id 0) 49152) 16384) as [F|F]; cbn [negb].
    + split; [intros _; split; assumption | reflexivity].
    + split; [discriminate | intros [_ H]; contradiction].
Qed.

(** ** The datum-based variant *)

Section DatumVariantFacts.

Context {P : Platform} {C : Codec} {U : Uids}.

Lemma decode_vector_cases (bytes : list Z) :
  (exists r, decode_vector bytes = Ok r) \/ (exists msg, decode_vector bytes = Throw msg).
Proof.
  pose proof (decode_vector_defined bytes) as H.
  destruct (decode_vector bytes) as [r|msg|]; [left | right | discriminate H]; eauto.
Qed.

Lemma decoded_cases (d1 : drive) (block : list Z) :
  snd (decoded d1 block) = d1 /\
  (fst (decoded d1 block) = Undefined <-> 456 < field 4 off_sub_length block).
Proof.
  unfold decoded, copy_payload.
  change sizeof_opal_header_t with 56. change ATA_BLOCK_SIZE with 512.
  destruct (Z.leb_spec (56 + field 4 off_sub_length block) 512) as [Hle|Hgt];
    cbn [bind].
  - destruct (decode_vector_cases
                (firstn (Z.to_nat (field 4 off_sub_length block))
                        (skipn (Z.to_nat 56) block)))
      as [[[inbuf n] Hd] | [msg Hd]]; rewrite Hd.
    + destruct inbuf as [ | | | | o m args status | ];
        try (split; [reflexivity | split; [discriminate | lia]]).
      destruct (negb (status =? STA_SUCCESS));
        (split; [reflexivity | split; [discriminate | lia]]).
    + split; [reflexivity | split; [discriminate | lia]].
  - split; [reflexivity | split; [lia | reflexivity]].
Qed.

Lemma recv_datum_steps (d : drive) :
  let cid := wrap16 (com_id d) in
  let d1 := set_raw d (snd (dev_recv (raw d) 1 cid 1)) (EvRecv 1 cid 1) in
  recv_datum d
  = match answer (raw d) cid 0 with
    | Undefined => (Undefined, d1)
    | Throw msg => (Throw msg, d1)
    | Ok block =>
        if negb (field 2 off_com_id block =? com_id d) then
          (Throw "Unexpected ComID in drive response", d1)
        else if field 4 off_com_length block <=? 36 then
          (Throw "Invalid Com Packet length in drive response", d1)
        else decoded d1 block
    end.
Proof.
  intros cid d1. unfold recv_datum. rewrite if_recv_poll. fold cid d1.
  destruct (answer (raw d) cid 0) as [block|msg|]; reflexivity.
Qed.

Lemma recv_datum_members (d : drive) :
  tper_session_id (snd (recv_datum d)) = tper_session_id d /\
  host_session_id (snd (recv_datum d)) = host_session_id d /\
  com_id (snd (recv_datum d)) = com_id d /\
  max_com_pkt_size (snd (recv_datum d)) = max_com_pkt_size d.
Proof.
  rewrite recv_datum_steps. cbv zeta.
  destruct (answer (raw d) (wrap16 (com_id d)) 0) as [block|msg|];
    [|repeat split|repeat split].
  destruct (negb (field 2 off_com_id block =? com_id d)); [repeat split|].
  destruct (field 4 off_com_length block <=? 36); [repeat split|].
  rewrite (proj1 (decoded_cases _ block)). repeat split.
Qed.

(** The datum-based [recv] reads past its buffer exactly when the block
    passes its two checks and carries a sub-packet length above 456. *)
Lemma recv_datum_undefined_iff (d : drive) :
  fst (recv_datum d) = Undefined <->
  exists block,
    answer (raw d) (wrap16 (com_id d)) 0 = Ok block /\
    field 2 off_com_id block = com_id d /\
    36 < field 4 off_com_length block /\
    456 < field 4 off_sub_length block.
Proof.
  rewrite recv_datum_steps. cbv zeta.
  destruct (answer_cases (raw d) (wrap16 (com_id d)) 0)
    as [(block & Hb & _) | (msg & Hm)].
  - rewrite Hb.
    destruct (Z.eqb_spec (field 2 off_com_id block) (com_id d)) as [Ec|Ec];
      cbn [negb fst].
    + destruct (Z.leb_spec (field 4 off_com_length block) 36) as [El|El];
        cbn [fst].
      * split; [discriminate|]. intros (b & Hb' & _ & Hl & _).
        assert (b = block) by congruence. subst b. lia.
      * rewrite (proj2 (decoded_cases _ block)). split.
        -- intros Hc. exists block. repeat split; assumption.
        -- intros (b & Hb' & _ & _ & Hc).
           assert (b = block) by congruence. subst b. exact Hc.
    + split; [discriminate|]. intros (b & Hb' & Hc & _).
      assert (b = block) by congruence. subst b. contradiction.
  - rewrite Hm. cbn [fst]. split; [discriminate|].
    intros (b & Hb & _). congruence.
Qed.

(** X20. The datum-based [recv] never retries: it polls exactly once and
    never sleeps, and the answer "no data yet", whose ComPacket length is
    zero, is an error to it, as is every ComPacket length up to 36. *)
Theorem recv_datum_no_retry (d : drive) :
  trace (snd (recv_datum d)) = trace d ++ [EvRecv 1 (wrap16 (com_id d)) 1] /\
  forall block,
    answer (raw d) (wrap16 (com_id d)) 0 = Ok block ->
    field 2 off_com_id block = com_id d ->
    field 4 off_com_length block <= 36 ->
    fst (recv_datum d) = Throw "Invalid Com Packet length in drive response".
Proof.
  split; [apply recv_datum_single_poll|].
  intros block Hans Hcid Hlen.
  rewrite recv_datum_steps. cbv zeta. rewrite Hans.
  rewrite Hcid, Z.eqb_refl. cbn [negb].
  destruct (Z.leb_spec (field 4 off_com_length block) 36); [reflexivity | lia].
Qed.

Lemma send_datum_cases (outbuf : datum) (d : drive) :
  (snd (send_datum outbuf d) = d /\ exists msg, fst (send_datum outbuf d) = Throw msg) \/
  (exists block bcount s r,
     send_datum outbuf d
     = (r, set_raw d s (EvSend 1 (wrap16 (com_id d)) block bcount)) /\
     (r = Ok tt \/ exists msg, r = Throw msg)).
Proof.
  unfold send_datum, mbind, lift.
  destruct (encode_vector_cases outbuf) as [[enc Henc] | [msg Henc]]; rewrite Henc;
    [|left; split; [reflexivity | eexists; reflexivity]].
  destruct (tot_size_of enc >? max_com_pkt_size d);
    [left; split; [reflexivity | eexists; reflexivity]|].
  destruct (is_session_mgr_call outbuf).
  - right. unfold if_send.
    match goal with
    | |- context [dev_send ?s ?p ?c ?b ?n] =>
        pose proof (dev_send_cases s p c b n) as Hc;
        destruct (dev_send s p c b n) as [r s']
    end.
    do 4 eexists. split; [reflexivity | exact Hc].
  - destruct (host_session_id d =? 0);
      [left; split; [reflexivity | eexists; reflexivity]|].
    right. unfold if_send.
    match goal with
    | |- context [dev_send ?s ?p ?c ?b ?n] =>
        pose proof (dev_send_cases s p c b n) as Hc;
        destruct (dev_send s p c b n) as [r s']
    end.
    do 4 eexists. split; [reflexivity | exact Hc].
Qed.

Lemma send_datum_no_session (outbuf : datum) (d : drive) :
  is_session_mgr_call outbuf = false -> host_session_id d = 0 ->
  exists msg, send_datum outbuf d = (Throw msg, d).
Proof.
  intros Hmgr Hhost. unfold send_datum, mbind, lift.
  destruct (encode_vector_cases outbuf) as [[enc Henc] | [msg Henc]]; rewrite Henc;
    [|eexists; reflexivity].
  destruct (tot_size_of enc >? max_com_pkt_size d); [eexists; reflexivity|].
  rewrite Hmgr, Hhost. eexists. reflexivity.
Qed.

Lemma sendrecv_steps (data_out : datum) (d : drive) :
  sendrecv data_out d
  = match send_datum data_out d with
    | (Ok _, d1) => recv_datum (log d1 (EvSleep 10000))
    | (Throw msg, d1) => (Throw msg, d1)
    | (Undefined, d1) => (Undefined, d1)
    end.
Proof.
  unfold sendrecv, mbind, usleep.
  destruct (send_datum data_out d) as [[[]|msg|] d1]; reflexivity.
Qed.

(** X21. The order of one [sendrecv] exchange: either nothing reaches
    the drive and the call throws, or the block is handed over and the
    transport refuses it, or the call transmits once, sleeps 10 ms once
    and polls once, in that order. *)
Theorem sendrecv_order (data_out : datum) (d : drive) :
  let r := sendrecv data_out d in
  let cid := wrap16 (com_id d) in
  (trace (snd r) = trace d /\ exists msg, fst r = Throw msg) \/
  (exists block bcount msg,
     trace (snd r) = trace d ++ [EvSend 1 cid block bcount] /\
     fst r = Throw msg) \/
  (exists block bcount,
     trace (snd r)
     = trace d ++ [EvSend 1 cid block bcount; EvSleep 10000; EvRecv 1 cid 1]).
Proof.
  intros r cid. subst r. rewrite sendrecv_steps.
  destruct (send_datum_cases data_out d)
    as [[Hd [msg Hm]] | (block & bcount & s & r & Hs & Hr)].
  - left. destruct (send_datum data_out d) as [[[]|m|] d1];
      cbn [fst snd] in *; try discriminate Hm.
    subst d1. split; [reflexivity | eexists; reflexivity].
  - right. rewrite Hs. fold cid. destruct Hr as [-> | [msg ->]].
    + right. exists block, bcount.
      rewrite recv_datum_single_poll. cbn [log set_raw trace com_id].
      rewrite <- !app_assoc. reflexivity.
    + left. exists block, bcount, msg. split; reflexivity.
Qed.

Lemma sendrecv_members (data_out : datum) (d : drive) :
  com_id (snd (sendrecv data_out d)) = com_id d /\
  max_com_pkt_size (snd (sendrecv data_out d)) = max_com_pkt_size d.
Proof.
  rewrite sendrecv_steps.
  assert (Hs : com_id (snd (send_datum data_out d)) = com_id d /\
               max_com_pkt_size (snd (send_datum data_out d)) = max_com_pkt_size d).
  { destruct (send_datum_cases data_out d)
      as [[Hd _] | (block & bcount & s & r & Hs & _)];
      [rewrite Hd | rewrite Hs]; split; reflexivity. }
  destruct (send_datum data_out d) as [[[]|m|] d1]; cbn [snd] in Hs;
    [|exact Hs|exact Hs].
  destruct (recv_datum_members (log d1 (EvSleep 10000))) as (_ & _ & Hc & Hm).
  rewrite Hc, Hm. exact Hs.
Qed.

(** The exchange of the datum-based [logout] reads past the receive
    buffer exactly when the datum went out and the answer to the one
    poll that follows passes the two checks with a sub-packet length
    above 456. *)
Lemma sendrecv_undefined_iff (data_out : datum) (d : drive) :
  fst (sendrecv data_out d) = Undefined <->
  exists d1 block,
    send_datum data_out d = (Ok tt, d1) /\
    answer (raw d1) (wrap16 (com_id d)) 0 = Ok block /\
    field 2 off_com_id block = com_id d /\
    36 < field 4 off_com_length block /\
    456 < field 4 off_sub_length block.
Proof.
  rewrite sendrecv_steps.
  assert (Hc : forall d1, send_datum data_out d = (Ok tt, d1) -> com_id d1 = com_id d).
  { intros d1 E.
    destruct (send_datum_cases data_out d)
      as [[_ [msg Hm]] | (block & bcount & s & r & Hs & _)].
    - rewrite E in Hm. discriminate Hm.
    - rewrite E in Hs. injection Hs as _ ->. reflexivity. }
  destruct (send_datum_cases data_out d)
    as [[_ [msg Hm]] | (block & bcount & s & r & Hs & Hr)].
  - destruct (send_datum data_out d) as [[[]|m|] d1]; cbn [fst] in *;
      try discriminate Hm.
    split; [discriminate|]. intros (d1' & b & E & _). discriminate E.
  - rewrite Hs in *. destruct Hr as [-> | [msg ->]].
    + specialize (Hc _ eq_refl).
      pose proof (recv_datum_undefined_iff
                    (log (set_raw d s (EvSend 1 (wrap16 (com_id d)) block bcount))
                         (EvSleep 10000))) as Hu.
      cbn [log set_raw raw com_id] in Hu. rewrite Hu. split.
      * intros (b & Hb). exists (set_raw d s (EvSend 1 (wrap16 (com_id d)) block bcount)), b.
        split; [reflexivity | exact Hb].
      * intros (d1 & b & E & Hb). injection E as <-. exists b. exact Hb.
    + split; [discriminate|]. intros (d1 & b & E & _). discriminate E.
Qed.

(** X22. The datum-based [logout] never throws: it swallows every
    exception of its exchange with the drive, and it returns unless the
    answer makes [recv] hand the decoder a sub-packet that runs past the
    receive buffer (a sub-packet length above 456).  Whenever it returns
    with a TPer session open, both session ids are zero; with none it
    leaves the object untouched.  As the end-of-session datum is not a
    call to the session manager, [send] refuses it when the host session
    id is zero: the call then returns without a byte reaching the
    drive. *)
Theorem logout_datum_cleanup (d : drive) :
  let r := logout_datum d in
  (forall msg, fst r <> Throw msg) /\
  (fst r = Ok tt \/ fst r = Undefined) /\
  (fst r = Undefined <->
   tper_session_id d <> 0 /\
   exists d1 block,
     send_datum EndSession d = (Ok tt, d1) /\
     answer (raw d1) (wrap16 (com_id d)) 0 = Ok block /\
     field 2 off_com_id block = com_id d /\
     36 < field 4 off_com_length block /\
     456 < field 4 off_sub_length block) /\
  (tper_session_id d <> 0 -> fst r = Ok tt ->
   tper_session_id (snd r) = 0 /\ host_session_id (snd r) = 0) /\
  (tper_session_id d = 0 -> r = (Ok tt, d)) /\
  (host_session_id d = 0 -> fst r = Ok tt /\ trace (snd r) = trace d) /\
  com_id (snd r) = com_id d /\
  max_com_pkt_size (snd r) = max_com_pkt_size d.
Proof.
  intros r. subst r. unfold logout_datum.
  destruct (Z.eqb_spec (tper_session_id d) 0) as [E|E]; cbn [negb fst snd].
  - split; [discriminate|]. split; [left; reflexivity|].
    split; [split; [discriminate | intros [H _]; contradiction]|].
    split; [contradiction|]. split; [reflexivity|].
    split; [intros _; split; reflexivity|]. split; reflexivity.
  - pose proof (sendrecv_undefined_iff EndSession d) as Hu.
    pose proof (sendrecv_members EndSession d) as [Hc Hm].
    assert (Hhost : host_session_id d = 0 ->
                    exists msg, sendrecv EndSession d = (Throw msg, d)).
    { intros Hh. rewrite sendrecv_steps.
      destruct (send_datum_no_session EndSession d eq_refl Hh) as [msg ->].
      exists msg. reflexivity. }
    destruct (sendrecv EndSession d) as [[rc|msg|] d'] eqn:Hx; cbn [fst snd] in *.
    + split; [discriminate|]. split; [left; reflexivity|].
      split; [split; [discriminate|]|].
      { intros [_ Hex]. apply Hu in Hex. discriminate Hex. }
      split; [intros _ _; split; reflexivity|]. split; [contradiction|].
      split; [|split; assumption].
      intros Hh. destruct (Hhost Hh) as [msg Hmsg]. discriminate Hmsg.
    + split; [discriminate|]. split; [left; reflexivity|].
      split; [split; [discriminate|]|].
      { intros [_ Hex]. apply Hu in Hex. discriminate Hex. }
      split; [intros _ _; split; reflexivity|]. split; [contradiction|].
      split; [|split; assumption].
      intros Hh. destruct (Hhost Hh) as [msg' Hmsg].
      injection Hmsg as _ ->. split; reflexivity.
    + split; [discriminate|]. split; [right; reflexivity|].
      split; [split; [intros _; split; [exact E | apply Hu; reflexivity]
                     | reflexivity]|].
      split; [discriminate|]. split; [contradiction|].
      split; [|split; assumption].
      intros Hh. destruct (Hhost Hh) as [msg Hmsg]. discriminate Hmsg.
Qed.

End DatumVariantFacts.

(** ** Identify strings *)

Lemma word_chars_length (data : list Z) :
  length (word_chars data) = (2 * length data)%nat.
Proof.
  unfold word_chars. induction data as [|w data IH]; [reflexivity|].
  cbn [flat_map app length]. rewrite IH. lia.
Qed.

Lemma word_chars_nth (data : list Z) (j : nat) :
  (j < 2 * length data)%nat ->
  nth j (word_chars data) 0
  = let word := nth (Z.to_nat (Z.shiftr (Z.of_nat j) 1)) data 0 in
    if negb (Z.of_nat j mod 2 =? 0) then Z.land 0xff word
    else Z.land 0xff (Z.shiftr word 8).
Proof.
  revert j. induction data as [|w data IH]; intros j Hj; [cbn in Hj; lia|].
  destruct j as [|[|j]]; [reflexivity | reflexivity |].
  change (word_chars (w :: data))
    with (Z.land 0xff (Z.shiftr w 8) :: Z.land 0xff w :: word_chars data).
  cbn [nth]. rewrite IH by (cbn [length] in Hj; lia). cbv zeta.
  assert (Hdiv : Z.shiftr (Z.of_nat (S (S j))) 1 = Z.shiftr (Z.of_nat j) 1 + 1).
  { rewrite !Z.shiftr_div_pow2 by lia. change (2 ^ 1) with 2.
    replace (Z.of_nat (S (S j))) with (Z.of_nat j + 1 * 2) by lia.
    apply Z.div_add. lia. }
  assert (Hmod : Z.of_nat (S (S j)) mod 2 = Z.of_nat j mod 2).
  { replace (Z.of_nat (S (S j))) with (Z.of_nat j + 1 * 2) by lia.
    apply Z.mod_add. lia. }
  assert (Hq : 0 <= Z.shiftr (Z.of_nat j) 1)
    by (rewrite Z.shiftr_div_pow2 by lia; apply Z.div_pos; lia).
  rewrite Hdiv, Hmod.
  replace (Z.to_nat (Z.shiftr (Z.of_nat j) 1 + 1))
    with (S (Z.to_nat (Z.shiftr (Z.of_nat j) 1))) by lia.
  reflexivity.
Qed.

Lemma skipn_cons_nth {A : Type} (l : list A) (n : nat) (x : A) :
  (n < length l)%nat -> skipn n l = nth n l x :: skipn (S n) l.
Proof.
  revert n. induction l as [|y l IH]; intros [|n] Hn; cbn [length] in Hn;
    try lia; [reflexivity|].
  cbn [skipn nth]. apply IH. lia.
Qed.

Lemma dump_id_loop_spec (fuel : nat) (data : list Z) (i max : Z) :
  0 <= i -> max <= 2 * Z.of_nat (length data) ->
  (Z.to_nat (max - i) <= fuel)%nat ->
  dump_id_loop fuel data i max
  = filter (fun c => negb (c =? 32))
      (upto_nul (firstn (Z.to_nat (max - i))
                        (skipn (Z.to_nat i) (word_chars data)))).
Proof.
  revert i. induction fuel as [|fuel IH]; intros i Hi Hmax Hfuel.
  - replace (Z.to_nat (max - i)) with 0%nat by lia. reflexivity.
  - cbn [dump_id_loop]. destruct (Z.ltb_spec i max) as [Hlt|Hge].
    + rewrite (skipn_cons_nth (word_chars data) (Z.to_nat i) 0)
        by (rewrite word_chars_length; lia).
      replace (Z.to_nat (max - i)) with (S (Z.to_nat (max - (i + 1)))) by lia.
      cbn [firstn upto_nul].
      rewrite word_chars_nth by lia. cbv zeta. rewrite Z2Nat.id by lia.
      set (c := if negb (i mod 2 =? 0)
                then Z.land 255 (nth (Z.to_nat (Z.shiftr i 1)) data 0)
                else Z.land 255 (Z.shiftr (nth (Z.to_nat (Z.shiftr i 1)) data 0) 8)).
      destruct (c =? 0); [reflexivity|].
      cbn [filter].
      rewrite (IH (i + 1)) by lia.
      replace (Z.to_nat (i + 1)) with (S (Z.to_nat i)) by lia.
      destruct (negb (c =? 32)); reflexivity.
    + replace (Z.to_nat (max - i)) with 0%nat by lia. reflexivity.
Qed.

(** X23. [dump_id_string] prints an identify string in ATA order, the
    high byte of each word before the low byte: of the first [max]
    characters it prints those before the first NUL, leaving out the
    blanks. *)
Theorem dump_id_string_chars (data : list Z) (max : Z) :
  0 <= max <= 2 * Z.of_nat (length data) ->
  dump_id_string data max
  = filter (fun c => negb (c =? 32))
      (upto_nul (firstn (Z.to_nat max) (word_chars data))).
Proof.
  intros Hmax. unfold dump_id_string.
  rewrite dump_id_loop_spec by lia.
  rewrite Z.sub_0_r. reflexivity.
Qed.

(** * Concrete runs of the further properties *)

(** The non-minimal three-byte encoding of 256 followed by a list
    token. *)
Lemma decode_bytes_well_formed_witness :
  let data := [0x82; 0x01; 0x00; 0xf1] in
  let a := mk_atom UINT SHORT 6 256 [] in
  decode_bytes atom_default data = Ok (a, 3) /\
  wf_atom a = true /\ 1 <= 3 <= Z.of_nat (length data).
Proof.
  intros data a. split; [reflexivity|].
  pose proof (decode_bytes_well_formed atom_default data a 3 eq_refl eq_refl) as H.
  exact H.
Defined.

(** The value 5 in two payload bytes is encoded again in two bytes. *)
Lemma decode_then_encode_witness :
  let data := [0x82; 0x00; 0x05; 0xf1] in
  let a := mk_atom UINT SHORT 6 5 [] in
  decode_bytes atom_default data = Ok (a, 3) /\
  encode_bytes a = ([0x82; 0x00; 0x05], 3).
Proof.
  intros data a. split; [reflexivity|].
  pose proof (decode_then_encode atom_default data a 3 eq_refl eq_refl) as H.
  exact (proj1 H).
Defined.

(** A buffer that starts with the list token. *)
Lemma decode_rejects_reserved_tokens_witness :
  decode_bytes atom_default [0xf0; 0x05; 0xf1]
  = Throw "Cannot parse atom (invalid token)".
Proof.
  assert (H0 : 0xe4 <= 0xf0 <= 0xfe) by lia.
  pose proof (decode_rejects_reserved_tokens atom_default 0xf0 [0x05; 0xf1] H0) as H.
  exact H.
Defined.

(** The two-byte string [AA BB] with its last byte missing. *)
Lemma decode_rejects_truncation_witness :
  let a := mk_atom BYTES SHORT 0 0 [0xaa; 0xbb] in
  fst (encode_bytes a) = [0xa2; 0xaa; 0xbb] /\
  decode_bytes atom_default [0xa2; 0xaa] = Throw "Atom encoding too short".
Proof.
  intros a. split; [reflexivity|].
  assert (H0 : (2 < length (fst (encode_bytes a)))%nat) by (cbn; lia).
  pose proof (decode_rejects_truncation atom_default a 2 eq_refl H0) as H.
  exact H.
Defined.

(** An unsigned short atom that declares nine payload bytes. *)
Lemma decode_rejects_integer_length_witness :
  decode_bytes atom_default [0x89; 1; 2; 3; 4; 5; 6; 7; 8; 9]
  = Throw "Invalid integer Atom length".
Proof.
  assert (H0 : 9 = 0 \/ 9 <= 9 <= 15) by lia.
  assert (H1 : 9 <= Z.of_nat (length [1; 2; 3; 4; 5; 6; 7; 8; 9])) by (cbn; lia).
  pose proof (decode_rejects_integer_length atom_default false 9
                [1; 2; 3; 4; 5; 6; 7; 8; 9] H0 H1) as H.
  exact H.
Defined.

(** The value 300 takes two payload bytes. *)
Lemma new_uint_minimal_witness :
  exists a,
    new_uint atom_default 300 = Ok a /\
    data_enc a = SHORT /\
    exists k : nat,
      (1 <= k <= 8)%nat /\ size a = 1 + Z.of_nat k /\
      Z.of_nat (length (fst (encode_bytes a))) = 1 + Z.of_nat k /\
      256 ^ Z.of_nat (k - 1) <= 300 < 256 ^ Z.of_nat k.
Proof.
  assert (H0 : 0 <= 300 < 2 ^ 64) by lia.
  assert (H1 : 0x40 <= 300) by lia.
  destruct (new_uint_minimal atom_default 300 H0) as (a & Hn & _ & Hbig).
  exists a. split; [exact Hn|]. exact (Hbig H1).
Defined.

(** The value -129 takes two payload bytes. *)
Lemma new_int_minimal_witness :
  let a := new_int atom_default (-129) in
  data_enc a = SHORT /\
  exists k : nat,
    (1 <= k <= 8)%nat /\ size a = 1 + Z.of_nat k /\
    - 256 ^ Z.of_nat k <= 2 * -129 < 256 ^ Z.of_nat k /\
    ((2 <= k)%nat ->
     ~ - 256 ^ Z.of_nat (k - 1) <= 2 * -129 < 256 ^ Z.of_nat (k - 1)).
Proof.
  assert (H0 : - 2 ^ 63 <= -129 < 2 ^ 63) by lia.
  assert (H1 : ~ -0x20 <= -129 < 0x20) by lia.
  pose proof (new_int_minimal atom_default (-129) H0) as H.
  exact (proj2 H H1).
Defined.

(** The value 5 in two payload bytes and in one. *)
Lemma atom_eq_ignores_width_witness :
  let a1 := mk_atom UINT SHORT 6 5 [] in
  let a2 := mk_atom UINT SHORT 7 5 [] in
  wf_atom a1 = true /\ wf_atom a2 = true /\
  atom_eq a1 a2 = true /\
  size a1 = 9 - 6 /\ size a2 = 9 - 7 /\
  fst (encode_bytes a1) <> fst (encode_bytes a2).
Proof.
  assert (H0 : 0 <= 6 < 7) by lia.
  assert (H1 : 7 <= 7) by lia.
  assert (H2 : 0 <= 5 < 256 ^ (8 - 7)) by (cbn; lia).
  pose proof (atom_eq_ignores_width 5 6 7 H0 H1 H2) as H.
  exact H.
Defined.

(** The values 300 and -129 and the string [DE AD] come back from the
    wire. *)
Lemma uint_value_round_trip_witness :
  exists a a',
    new_uint atom_default 300 = Ok a /\
    decode_bytes atom_default (fst (encode_bytes a) ++ [0xf1]) = Ok (a', size a) /\
    get_uint a' = Ok 300.
Proof.
  assert (H0 : 0 <= 300 < 2 ^ 64) by lia.
  pose proof (uint_value_round_trip atom_default atom_default 300 [0xf1] H0) as H.
  exact H.
Defined.

Lemma int_value_round_trip_witness :
  exists a',
    decode_bytes atom_default
      (fst (encode_bytes (new_int atom_default (-129))) ++ [0xf1])
    = Ok (a', size (new_int atom_default (-129))) /\
    get_int a' = Ok (-129).
Proof.
  assert (H0 : - 2 ^ 63 <= -129 < 2 ^ 63) by lia.
  pose proof (int_value_round_trip atom_default atom_default (-129) [0xf1] H0) as H.
  exact H.
Defined.

Lemma bytes_value_round_trip_witness :
  exists a a',
    new_bin atom_default [0xde; 0xad] = Ok a /\
    decode_bytes atom_default (fst (encode_bytes a) ++ [0xf1]) = Ok (a', size a) /\
    get_bytes a' = Ok [0xde; 0xad].
Proof.
  assert (H0 : Z.of_nat (length [0xde; 0xad]) < 16777216) by (cbn; lia).
  pose proof (bytes_value_round_trip atom_default atom_default [0xde; 0xad] [0xf1]
                eq_refl H0) as H.
  exact H.
Defined.

(** Logging out of the session [(7, 9)] on a drive that never has data:
    one block with the payload [FA] and the two ids, then polling. *)
Lemma logout_transmission_witness :
  let P := silent sample_com_id in
  let d := sample_drive P O 7 9 512 in
  exists block later,
    trace (snd (logout (P:=P) true d)) = EvSend 1 sample_com_id block 1 :: later /\
    sub_payload block = [0xfa] /\
    field 4 off_tper_session_id block = 7 /\
    field 4 off_host_session_id block = 9 /\
    (1 <= polls later <= 500)%nat.
Proof.
  intros P d.
  assert (H0 : tper_session_id d <> 0) by discriminate.
  assert (H1 : 512 <= max_com_pkt_size d) by (cbn; lia).
  destruct (logout_transmission (P:=P) true d H0) as [_ H].
  destruct (H H1)
    as (block & later & Ht & _ & Hsp & Htp & Hho & _ & _ & Hok & _).
  exists block, later. split; [exact Ht|]. split; [exact Hsp|].
  split; [exact Htp|]. split; [exact Hho|]. exact (Hok eq_refl).
Defined.

(** The block that [send] builds around the payload [FA], read back. *)
Lemma send_recv_loopback_witness :
  let d0 := sample_drive (silent sample_com_id) O 7 9 512 in
  let block := build_block (P:=silent sample_com_id) d0 [0xfa] true
                 (sub_size_of [0xfa]) (pkt_size_of [0xfa])
                 (com_size_of [0xfa]) (tot_size_of [0xfa]) in
  let P := replying block in
  let d := sample_drive P O 7 9 512 in
  fst (recv (P:=P) d) = Ok [0xfa].
Proof.
  intros d0 block P d.
  assert (H0 : Z.of_nat (length [0xfa]) <= 456) by (cbn; lia).
  assert (H1 : 0 <= com_id d < 2 ^ 16)
    by (vm_compute; split; [discriminate | reflexivity]).
  assert (H2 : fst (dev_recv (raw d) 1 (wrap16 (com_id d)) 1)
               = Ok (build_block d [0xfa] true (sub_size_of [0xfa])
                       (pkt_size_of [0xfa]) (com_size_of [0xfa])
                       (tot_size_of [0xfa])))
    by (vm_compute; reflexivity).
  pose proof (send_recv_loopback (P:=P) d d [0xfa] true H0 H1 eq_refl H2) as H.
  exact H.
Defined.


(** The estimate for a limit of 100 bytes. *)
Lemma chunk_size_estimate_witness :
  chunk_size_of 100 = 2 ^ 64 - 4096.
Proof.
  assert (H0 : 0 <= 100 < 2 ^ 64) by lia.
  assert (H1 : 100 < 104) by lia.
  pose proof (chunk_size_estimate 100 H0) as H.
  exact (proj2 (proj2 H) H1).
Defined.

(** Thirteen bytes padded to a multiple of four. *)
Lemma pad_to_multiple_least_witness :
  13 <= PAD_TO_MULTIPLE 13 4 < 13 + 4 /\ PAD_TO_MULTIPLE 13 4 mod 4 = 0.
Proof.
  assert (H0 : 0 <= 13 < 2 ^ 64) by lia.
  assert (H1 : 0 < 4 < 2 ^ 64) by lia.
  assert (H2 : 13 + 4 <= 2 ^ 64) by lia.
  pose proof (pad_to_multiple_least 13 4 H0 H1) as H.
  exact (proj1 H H2).
Defined.

(** The words "AB", " C" and NUL "D" print as "ABC". *)
Lemma dump_id_string_chars_witness :
  dump_id_string [0x4142; 0x2043; 0x0044] 6 = [0x41; 0x42; 0x43].
Proof.
  assert (H0 : 0 <= 6 <= 2 * Z.of_nat (length [0x4142; 0x2043; 0x0044]))
    by (cbn; lia).
  pose proof (dump_id_string_chars [0x4142; 0x2043; 0x0044] 6 H0) as H.
  exact H.
Defined.


(** ** What the bytes mean *)

Lemma header_short_byte (ty : type_t) (len : Z) :
  ty <> EMPTY -> 0 <= len < 16 ->
  header ty SHORT len
  = [0x80 + match ty with BYTES => 0x20 | INT => 0x10 | _ => 0 end + len].
Proof.
  intros Hty Hlen. revert len Hlen. apply (Z_small_cases 16). intros k Hk.
  destruct ty; try congruence; (each_nat k 16%nat; reflexivity).
Qed.

(** X28. A one-byte atom: a byte below [0x40] is the unsigned value it
    spells, a byte from [0x40] to [0x5F] the signed value 0 to 31 in its
    low six bits, and a byte from [0x60] to [0x7F] the negative value
    -32 to -1 that those six bits spell in two's complement. *)
Theorem decode_tiny_values (this : atom) (b : Z) (rest : list Z) :
  0 <= b < 0x80 ->
  exists a,
    decode_bytes this (b :: rest) = Ok (a, 1) /\
    data_enc a = TINY /\
    (b < 0x40 -> get_uint a = Ok b) /\
    (0x40 <= b < 0x60 -> get_int a = Ok (b - 0x40)) /\
    (0x60 <= b -> get_int a = Ok (b - 0x80)).
Proof.
  intros Hb. assert (Hk : 0 <= b < Z.of_nat 128) by lia. clear Hb.
  revert b Hk. apply (Z_small_cases 128). intros k Hk.
  unfold decode_bytes.
  rewrite decode_check_size_ok by (cbn [length]; lia).
  each_nat k 128%nat;
    (eexists; split; [reflexivity|]; split; [reflexivity|];
     split; [|split]; intros Hr;
     first [reflexivity | exfalso; clear - Hr; lia]).
Qed.

(** The value of the pattern that [decode_int] reads from [l]. *)
Lemma decode_int_value (ty : type_t) (l : list Z) (uv : Z) :
  forallb is_byte l = true -> (1 <= length l <= 8)%nat ->
  0 <= uv < 2 ^ 64 -> int_fits ty (length l) uv ->
  be_bytes (length l) uv = l ->
  (ty = UINT -> uv = be_to_Z l) /\
  (ty = INT ->
   (if uv <? 2 ^ 63 then uv else uv - 2 ^ 64)
   = if nth 0 l 0 <? 128 then be_to_Z l
     else be_to_Z l - 256 ^ Z.of_nat (length l)).
Proof.
  intros Hb Hn Huv Hfit Hbe.
  assert (Hmod : be_to_Z l = uv mod 256 ^ Z.of_nat (length l))
    by (rewrite <- Hbe at 1; apply be_to_Z_be_bytes).
  pose proof (pow256_split (length l) ltac:(lia)) as Hsplit.
  destruct l as [|b l']; [cbn in Hn; lia|].
  assert (Hb0 : 0 <= b < 256).
  { cbn [forallb] in Hb. apply andb_prop in Hb. apply is_byte_range. apply Hb. }
  assert (Hl' : 0 <= be_to_Z l' < 256 ^ Z.of_nat (length l')).
  { apply be_to_Z_bound. cbn [forallb] in Hb. apply andb_prop in Hb. apply Hb. }
  pose proof (be_to_Z_cons b l') as Hcons.
  unfold int_fits in Hfit.
  cbn [nth]. cbn [length] in *.
  rewrite Nat2Z.inj_succ, Z.pow_succ_r in * by lia.
  assert (HP : 0 < 256 ^ Z.of_nat (length l')) by (apply Z.pow_pos_nonneg; lia).
  assert (HQ : 0 < 256 ^ Z.of_nat (8 - S (length l')))
    by (apply Z.pow_pos_nonneg; lia).
  pose proof (Z.div_mod uv (256 * 256 ^ Z.of_nat (length l')) ltac:(lia)) as Hdm.
  pose proof (Z.mod_pos_bound uv (256 * 256 ^ Z.of_nat (length l')) ltac:(lia)) as Hmb.
  rewrite <- Hmod in Hdm, Hmb.
  assert (Hq0 : 0 <= uv / (256 * 256 ^ Z.of_nat (length l')))
    by (apply Z.div_pos; lia).
  assert (Hq1 : uv / (256 * 256 ^ Z.of_nat (length l'))
                < 256 ^ Z.of_nat (8 - S (length l'))).
  { apply Z.div_lt_upper_bound; [lia|]. rewrite Z.mul_comm, Hsplit. lia. }
  change (2 ^ 64) with 18446744073709551616 in *.
  change (2 ^ 63) with 9223372036854775808 in *.
  revert Hfit Hmod Hsplit Hl' Hcons HP HQ Hdm Hmb Hq0 Hq1.
  generalize (be_to_Z (b :: l')) as V.
  generalize (be_to_Z l') as W.
  generalize (uv / (256 * 256 ^ Z.of_nat (length l'))) as q.
  generalize (256 ^ Z.of_nat (8 - S (length l'))) as Q.
  generalize (256 ^ Z.of_nat (length l')) as P.
  clear Hb Hbe Hn l'.
  intros P Q q W V Hfit _ Hsplit HW Hcons HP HQ Hdm Hmb Hq0 Hq1.
  (* the products, named so that the rest is linear *)
  assert (HqP : q * P = 0 \/ P <= q * P).
  { destruct (Z.eq_dec q 0) as [E|E]; [left; rewrite E; reflexivity | right].
    replace P with (1 * P) at 1 by lia.
    apply Z.mul_le_mono_nonneg_r; lia. }
  assert (HQP : q * P = Q * P - P \/ q * P <= Q * P - 2 * P).
  { destruct (Z.eq_dec q (Q - 1)) as [E|E]; [left; rewrite E; ring | right].
    replace (Q * P - 2 * P) with ((Q - 2) * P) by ring.
    apply Z.mul_le_mono_nonneg_r; lia. }
  assert (HbP : (b < 128 /\ b * P <= 127 * P) \/ (128 <= b /\ 128 * P <= b * P)).
  { destruct (Z_lt_ge_dec b 128) as [Hlt|Hge]; [left | right];
      (split; [lia|]); apply Z.mul_le_mono_nonneg_r; lia. }
  assert (E1 : q * (256 * P) = 256 * (q * P)) by ring.
  assert (E2 : Q * (256 * P) = 256 * (Q * P)) by ring.
  assert (E3 : 256 * P * q = 256 * (q * P)) by ring.
  rewrite E2 in Hsplit. rewrite E3 in Hdm.
  revert Hfit Hsplit Hcons Hdm HqP HQP HbP.
  generalize (q * P) as A. generalize (Q * P) as B. generalize (b * P) as D.
  intros D B A Hfit Hsplit Hcons Hdm HqP HQP HbP.
  split.
  - intros ->. cbv beta iota in Hfit. destruct HqP as [HA | HA]; lia.
  - intros ->. cbv beta iota zeta in Hfit.
    destruct (Z.ltb_spec uv 9223372036854775808) as [Hlo|Hhi];
      destruct (Z.ltb_spec b 128) as [Hb1|Hb1];
      destruct HbP as [[Hbl HD] | [Hbg HD]]; try lia;
      destruct HqP as [HA | HA];
      destruct HQP as [HB | HB]; lia.
Qed.

(** X29. The payload of a short integer atom is a big-endian number: of
    one to eight payload bytes after the header [0x80 + n], [get_uint]
    returns the number they spell, and after the header [0x90 + n],
    [get_int] returns it as a two's-complement number of [n] bytes. *)
Theorem decode_integer_value (this : atom) (signed : bool) (l rest : list Z) :
  forallb is_byte l = true -> (1 <= length l <= 8)%nat ->
  let n := Z.of_nat (length l) in
  exists a,
    decode_bytes this (0x80 + (if signed then 0x10 else 0) + n :: l ++ rest)
    = Ok (a, 1 + n) /\
    (signed = false -> get_uint a = Ok (be_to_Z l)) /\
    (signed = true ->
     get_int a = Ok (if nth 0 l 0 <? 128 then be_to_Z l
                     else be_to_Z l - 256 ^ n)).
Proof.
  intros Hb Hn n. subst n.
  set (ty := if signed then INT else UINT).
  assert (Hty : ty <> EMPTY) by (unfold ty; destruct signed; discriminate).
  assert (Hty' : ty = UINT \/ ty = INT) by (unfold ty; destruct signed; auto).
  assert (Hh : [0x80 + (if signed then 0x10 else 0) + Z.of_nat (length l)]
               = header ty SHORT (Z.of_nat (length l))).
  { rewrite header_short_byte by (assumption || lia).
    unfold ty. destruct signed; reflexivity. }
  change (0x80 + (if signed then 0x10 else 0) + Z.of_nat (length l) :: l ++ rest)
    with ([0x80 + (if signed then 0x10 else 0) + Z.of_nat (length l)] ++ l ++ rest).
  rewrite Hh.
  destruct (header_first ty SHORT (Z.of_nat (length l)) Hty
              ltac:(cbn [len_bound]; lia)) as (h & htl & Hhd & Hr).
  pose proof (decode_bytes_framed this h (htl ++ l ++ rest) Hr) as Hframe.
  change (h :: htl ++ l ++ rest) with ((h :: htl) ++ l ++ rest) in Hframe.
  rewrite <- Hhd in Hframe. rewrite Hframe.
  rewrite decode_header_short by (assumption || lia). cbn [bind].
  rewrite decode_check_size_ok
    by (rewrite !length_app; cbn [header length]; lia).
  cbn [bind data_type set_type].
  change (skipn (Z.to_nat 1) (header ty SHORT (Z.of_nat (length l)) ++ l ++ rest))
    with (l ++ rest).
  destruct (decode_int_bytes (set_type (set_enc this SHORT) ty) l rest Hb Hn)
    as (uv & Huv & Hfit & Hbe & Hd).
  { cbn [data_type set_type]. exact Hty'. }
  cbn [data_type set_type] in Hfit.
  destruct (decode_int_value ty l uv Hb Hn Huv Hfit Hbe) as [Hu Hi].
  assert (Hres : (match ty with
                  | UINT | INT =>
                      this0 <- decode_int (set_type (set_enc this SHORT) ty)
                                 (l ++ rest) (Z.of_nat (length l)) ;;
                      Ok (this0, 1 + Z.of_nat (length l))
                  | BYTES =>
                      Ok (set_bytes (set_type (set_enc this SHORT) ty)
                            (firstn (Z.to_nat (Z.of_nat (length l))) (l ++ rest)),
                          1 + Z.of_nat (length l))
                  | EMPTY => Ok (set_type (set_enc this SHORT) ty,
                                 1 + Z.of_nat (length l))
                  end)
                 = Ok (set_val (set_skip (set_type (set_enc this SHORT) ty)
                                         (8 - Z.of_nat (length l))) uv,
                       1 + Z.of_nat (length l))).
  { destruct Hty' as [E | E]; rewrite E in *; rewrite Hd; reflexivity. }
  eexists. split; [exact Hres|].
  unfold get_uint, get_int, int_val.
  cbn [data_type uint_val set_val set_skip set_type].
  unfold ty in *. destruct signed.
  - split; [discriminate|]. intros _. rewrite (Hi eq_refl). reflexivity.
  - split; [|discriminate]. intros _. rewrite <- (Hu eq_refl). reflexivity.
Qed.

(** X30. A UID atom is nothing but an eight-byte binary atom: the atom
    that the binary constructor builds from eight bytes and the UID atom
    of the number they spell compare equal and encode alike, and
    [get_uid] reads the binary atom as that number. *)
Theorem uid_is_binary (this storage : atom) (data : list Z) :
  forallb is_byte data = true -> length data = 8%nat ->
  exists a b,
    new_bin this data = Ok a /\
    new_uid storage (be_to_Z data) = Ok b /\
    atom_eq a b = true /\
    encode_bytes a = encode_bytes b /\
    get_uid a = Ok (be_to_Z data).
Proof.
  intros Hb Hl.
  pose proof (be_bytes_be_to_Z data Hb) as Hinv. rewrite Hl in Hinv.
  exists (mk_atom BYTES SHORT (int_skip this) (uint_val this) data),
         (mk_atom BYTES SHORT (int_skip storage) (be_to_Z data) data).
  split.
  { unfold new_bin, atom_bin, pick_encoding. rewrite Hl. reflexivity. }
  split.
  { unfold new_uid, atom_uint. cbn [pick_encoding Z.ltb Z.compare bind].
    rewrite Hinv. reflexivity. }
  split.
  { apply atom_eq_iff. cbn [data_type data_enc bytes]. repeat split. }
  split.
  { rewrite !encode_bytes_split by (cbn; discriminate). reflexivity. }
  unfold get_uid. cbn [data_type data_enc bytes]. rewrite Hl. cbn [Nat.eqb].
  rewrite firstn_all2 by lia. reflexivity.
Qed.

(** * Concrete values *)

(** The byte [0x7F] is the signed value -1. *)
Lemma decode_tiny_values_witness :
  exists a,
    decode_bytes atom_default [0x7f] = Ok (a, 1) /\ get_int a = Ok (-1).
Proof.
  assert (H0 : 0 <= 0x7f < 0x80) by lia.
  destruct (decode_tiny_values atom_default 0x7f [] H0)
    as (a & Hd & _ & _ & _ & Hneg).
  exists a. split; [exact Hd|].
  assert (H1 : 0x60 <= 0x7f) by lia.
  exact (Hneg H1).
Defined.

(** The two payload bytes [FF 7F] after the header [0x92] are the
    signed value -129. *)
Lemma decode_integer_value_witness :
  exists a,
    decode_bytes atom_default [0x92; 0xff; 0x7f] = Ok (a, 3) /\
    get_int a = Ok (-129).
Proof.
  assert (H0 : forallb is_byte [0xff; 0x7f] = true) by reflexivity.
  assert (H1 : (1 <= length [0xff; 0x7f] <= 8)%nat) by (cbn; lia).
  destruct (decode_integer_value atom_default true [0xff; 0x7f] [] H0 H1)
    as (a & Hd & _ & Hi).
  exists a. split; [exact Hd|]. exact (Hi eq_refl).
Defined.

(** The eight bytes of the UID [0x0000000600000000]. *)
Lemma uid_is_binary_witness :
  exists a b,
    new_bin atom_default [0; 0; 0; 6; 0; 0; 0; 0] = Ok a /\
    new_uid atom_default 0x0000000600000000 = Ok b /\
    atom_eq a b = true /\
    get_uid a = Ok 0x0000000600000000.
Proof.
  assert (H0 : forallb is_byte [0; 0; 0; 6; 0; 0; 0; 0] = true) by reflexivity.
  assert (H1 : length [0; 0; 0; 6; 0; 0; 0; 0] = 8%nat) by reflexivity.
  destruct (uid_is_binary atom_default atom_default [0; 0; 0; 6; 0; 0; 0; 0] H0 H1)
    as (a & b & Ha & Hb & Heq & _ & Hu).
  exists a, b. split; [exact Ha|]. split; [exact Hb|].
  split; [exact Heq | exact Hu].
Defined.
